(** * TermiCode server: the interactive sandbox session manager

    A shallow embedding of the execution server: both paths of the
    Express handler [app.post('/api/execute')], the stream handlers, the
    helpers [isWaitingForInput], [extractInputPrompt],
    [cleanDockerOutput], [waitForOutput], [waitForInputResult] and
    [cleanupSession], the periodic expiry sweep and the [SIGINT] handler;
    then what the editor and the terminal of the client do with a
    response; followed by the properties established about them.

    - JavaScript strings are sequences of UTF-16 code units, modelled as
      lists of [N].  The regular expressions of the source are written in
      a small abstract syntax and run by a backtracking matcher that
      follows the ECMAScript evaluation order (greedy repetition, ordered
      alternation).  A [Buffer] is kept as the text its [toString()]
      gives.
    - [activeSessions] is an insertion-ordered association list, as the
      iteration order of a [Map] fixes the order of the requests sent to
      the daemon.
    - The Docker daemon, the clock, the uuid generator and the stream are
      collaborators: what they answer is a parameter of the functions.
    - Callbacks of timers and promises are functions on the state they
      close over; an event sequence is run by folding them.  A request to
      the daemon is written once the synchronous code that asked for it
      has returned: a loop over several sessions queues its stop requests
      first, and the chains go on afterwards. *)

From Stdlib Require Import String Ascii DecimalString.
From Stdlib Require Import NArith ZArith Bool Arith Lia List.
Import ListNotations.

Local Open Scope N_scope.

(* ================================================================== *)
(** ** JavaScript strings *)

Definition char16 := N.
Definition jsstring := list char16.

(** An ASCII literal of the source, as code units. *)
Definition lit (s : string) : jsstring :=
  map N_of_ascii (list_ascii_of_string s).

Definition LF : char16 := 10.
Definition CR : char16 := 13.
Definition TAB : char16 := 9.
Definition DQ : char16 := 34.

Fixpoint jseqb (a b : jsstring) : bool :=
  match a, b with
  | [], [] => true
  | x :: a', y :: b' => (x =? y) && jseqb a' b'
  | _, _ => false
  end.

(** [in_range lo hi c]: the class [[lo-hi]]. *)
Definition in_range (lo hi c : char16) : bool := (lo <=? c) && (c <=? hi).

(** [\s], which is also the set removed by [String.prototype.trim]:
    WhiteSpace and LineTerminator code points. *)
Definition is_space (c : char16) : bool :=
  in_range 9 13 c || (c =? 32) || (c =? 160) || (c =? 5760)
  || in_range 8192 8202 c || (c =? 8232) || (c =? 8233)
  || (c =? 8239) || (c =? 8287) || (c =? 12288) || (c =? 65279).

(** [\w] = [[A-Za-z0-9_]]. *)
Definition is_word (c : char16) : bool :=
  in_range 65 90 c || in_range 97 122 c || in_range 48 57 c || (c =? 95).

(** [[\u0000-\u0008\u000B-\u000C\u000E-\u001F]] *)
Definition is_stripped_control (c : char16) : bool :=
  in_range 0 8 c || in_range 11 12 c || in_range 14 31 c.

(** ASCII control characters: 0x00-0x1F and DEL. *)
Definition is_ascii_control (c : char16) : bool := (c <? 32) || (c =? 127).

(** Canonicalisation of the [i] flag (no [u] flag): upper-casing, where a
    code unit of 128 or more never canonicalises to an ASCII one; the
    patterns of the source are ASCII letters, so the ASCII part suffices. *)
Definition canonicalize (c : char16) : char16 :=
  if in_range 97 122 c then c - 32 else c.

Fixpoint trimStart (s : jsstring) : jsstring :=
  match s with
  | [] => []
  | c :: t => if is_space c then trimStart t else s
  end.

Definition trimEnd (s : jsstring) : jsstring := rev (trimStart (rev s)).

Definition trim (s : jsstring) : jsstring := trimEnd (trimStart s).

(** [s.split('\n')] *)
Fixpoint split_nl (s : jsstring) : list jsstring :=
  match s with
  | [] => [[]]
  | c :: t =>
      if c =? LF then [] :: split_nl t
      else match split_nl t with
           | l :: ls => (c :: l) :: ls
           | [] => [[c]]
           end
  end.

Definition endsWith (s suffix : jsstring) : bool :=
  (length suffix <=? length s)%nat
  && jseqb (skipn (length s - length suffix) s) suffix.

(** The surrogate code units, U+D800-U+DBFF and U+DC00-U+DFFF. *)
Definition is_high_surrogate (c : char16) : bool := in_range 55296 56319 c.
Definition is_low_surrogate (c : char16) : bool := in_range 56320 57343 c.

(** [Buffer.from(s).toString()]: the UTF-8 bytes of [s], read back.  A
    high surrogate followed by a low one is one code point and comes back
    as it was; a surrogate outside such a pair is encoded as U+FFFD. *)
Fixpoint bufferText (s : jsstring) : jsstring :=
  match s with
  | [] => []
  | c :: t =>
      if is_high_surrogate c then
        match t with
        | d :: t' =>
            if is_low_surrogate d then c :: d :: bufferText t'
            else 65533 :: bufferText t
        | [] => [65533]
        end
      else if is_low_surrogate c then 65533 :: bufferText t
      else c :: bufferText t
  end.

(** [chunks.map(chunk => chunk.toString()).join('')] *)
Definition join (chunks : list jsstring) : jsstring := concat chunks.

(* ================================================================== *)
(** ** Regular expressions *)

Inductive regex : Type :=
| Chr (p : char16 -> bool)   (* a character or a class *)
| Eps                        (* the empty pattern *)
| Eos                        (* [$] without the [m] flag *)
| Cat (a b : regex)
| Alt (a b : regex)          (* ordered alternation *)
| Star (a : regex).          (* greedy [*] *)

Definition Plus (a : regex) : regex := Cat a (Star a).
Definition Opt (a : regex) : regex := Alt a Eps.
Definition Lit1 (c : char16) : regex := Chr (N.eqb c).

Fixpoint Lits (s : jsstring) : regex :=
  match s with
  | [] => Eps
  | c :: t => Cat (Lit1 c) (Lits t)
  end.

(** A literal under the [i] flag. *)
Fixpoint ILits (s : jsstring) : regex :=
  match s with
  | [] => Eps
  | c :: t => Cat (Chr (fun x => canonicalize x =? canonicalize c)) (ILits t)
  end.

(** The iteration of a greedy [*]: try one more round of the body, which
    must consume something (an empty round is rejected, as in ECMAScript's
    RepeatMatcher), else go on with [k].  Every round shortens the input,
    so [length s] rounds are enough; [n] bounds the rounds left. *)
Fixpoint star_loop {A : Type}
         (body : jsstring -> (jsstring -> option A) -> option A)
         (k : jsstring -> option A) (n : nat) (s : jsstring) : option A :=
  match n with
  | O => k s
  | S n' =>
      match body s (fun s' =>
              if (length s' <? length s)%nat then star_loop body k n' s' else None) with
      | Some x => Some x
      | None => k s
      end
  end.

(** The backtracking matcher, in continuation-passing style: [exec r s k]
    matches [r] at the head of [s] and hands the rest of the input to [k];
    when [k] fails the matcher backtracks. *)
Fixpoint exec {A : Type} (r : regex) (s : jsstring)
         (k : jsstring -> option A) {struct r} : option A :=
  match r with
  | Chr p =>
      match s with
      | c :: t => if p c then k t else None
      | [] => None
      end
  | Eps => k s
  | Eos => match s with [] => k s | _ :: _ => None end
  | Cat a b => exec a s (fun s' => exec b s' k)
  | Alt a b =>
      match exec a s k with
      | Some x => Some x
      | None => exec b s k
      end
  | Star a => star_loop (fun s' k' => exec a s' k') k (length s) s
  end.

(** The rest of the input after the match of [r] at the head of [s]. *)
Definition match_at (r : regex) (s : jsstring) : option jsstring :=
  exec r s (fun rest => Some rest).

(** [r.test(s)]: the leftmost position at which [r] matches. *)
Fixpoint test (r : regex) (s : jsstring) : bool :=
  match match_at r s with
  | Some _ => true
  | None => match s with [] => false | _ :: t => test r t end
  end.

(** [s.replace(/r/g, rep)]: matches are looked for from left to right and
    do not overlap; [skip] counts the code units of the current match that
    are still to be dropped. *)
Fixpoint replaceAll_from (r : regex) (rep : jsstring) (skip : nat)
         (s : jsstring) : jsstring :=
  match s with
  | [] =>
      match skip, match_at r [] with
      | O, Some _ => rep
      | _, _ => []
      end
  | c :: t =>
      match skip with
      | S n => replaceAll_from r rep n t
      | O =>
          match match_at r s with
          | Some rest =>
              match (length s - length rest)%nat with
              | S n => rep ++ replaceAll_from r rep n t
              | O => rep ++ c :: replaceAll_from r rep 0 t
              end
          | None => c :: replaceAll_from r rep 0 t
          end
      end
  end.

Definition replaceAll (r : regex) (rep s : jsstring) : jsstring :=
  replaceAll_from r rep 0 s.

(** [s.replace(/^r/g, rep)]: without the [m] flag [^] holds at index 0
    only, so at most one match is replaced. *)
Definition replaceAtStart (r : regex) (rep s : jsstring) : jsstring :=
  match match_at r s with
  | Some rest => rep ++ rest
  | None => s
  end.

(** [s.match(/(g)tail/)[1]]: the text captured by the group at the
    leftmost match, [None] when there is no match. *)
Fixpoint match_group1 (g tail : regex) (s : jsstring) : option jsstring :=
  match exec g s (fun s1 =>
          exec tail s1 (fun _ => Some (firstn (length s - length s1) s))) with
  | Some cap => Some cap
  | None => match s with [] => None | _ :: t => match_group1 g tail t end
  end.

(* ================================================================== *)
(** ** The patterns of the source *)

(** [/\u0001\u0000\u0000\u0000\u0000\u0000\u0000[\u0000-\uffff]/], used
    behind [^]: the 8-byte frame header of a multiplexed stdout chunk. *)
Definition frameHeader : regex :=
  Cat (Lit1 1) (Cat (Lit1 0) (Cat (Lit1 0) (Cat (Lit1 0)
  (Cat (Lit1 0) (Cat (Lit1 0) (Cat (Lit1 0) (Chr (in_range 0 65535)))))))).

Definition crlf : regex := Cat (Lit1 CR) (Lit1 LF).

Definition controlChar : regex := Chr is_stripped_control.

Definition quoted (s : string) : jsstring := DQ :: lit s ++ [DQ].

(** [{"stream":true,"stdin":true,"stdout":true,"stderr":true,"hijack":true,"demux":true}] *)
Definition attachOptionsText : jsstring :=
  lit "{" ++ quoted "stream" ++ lit ":true," ++ quoted "stdin" ++ lit ":true,"
  ++ quoted "stdout" ++ lit ":true," ++ quoted "stderr" ++ lit ":true,"
  ++ quoted "hijack" ++ lit ":true," ++ quoted "demux" ++ lit ":true}".

Definition attachOptions : regex := Lits attachOptionsText.

(** [(stream|stdin|stdout|stderr|hijack|demux)] *)
Definition flagName : regex :=
  Alt (Lits (lit "stream")) (Alt (Lits (lit "stdin")) (Alt (Lits (lit "stdout"))
  (Alt (Lits (lit "stderr")) (Alt (Lits (lit "hijack")) (Lits (lit "demux")))))).

(** ["(stream|...)":(true|false)] *)
Definition flagPair : regex :=
  Cat (Lit1 DQ) (Cat flagName (Cat (Lit1 DQ) (Cat (Lits (lit ":"))
  (Alt (Lits (lit "true")) (Lits (lit "false")))))).

(** [/\{"(...)":(true|false)(,"(...)":(true|false))*\}/] *)
Definition flagObject : regex :=
  Cat (Lits (lit "{")) (Cat flagPair
  (Cat (Star (Cat (Lits (lit ",")) flagPair)) (Lits (lit "}")))).

(** [/[\w\s]+\?(?:\s* )$/] (the source has no blank before the
    closing parenthesis). *)
Definition questionPrompt : regex :=
  Cat (Plus (Chr (fun c => is_word c || is_space c)))
      (Cat (Lits (lit "?")) (Cat (Star (Chr is_space)) Eos)).

(** [/[\w\s]+:(?:\s* )$/] (likewise). *)
Definition colonPrompt : regex :=
  Cat (Plus (Chr (fun c => is_word c || is_space c)))
      (Cat (Lits (lit ":")) (Cat (Star (Chr is_space)) Eos)).

(** The lexicon of [commonInputPatterns], each under the [i] flag. *)
Definition commonInputPatterns : list regex :=
  map (fun w => ILits (lit w))
    ["Enter"; "Input"; "Type"; "Name"; "ID"; "Age";
     "Number"; "Value"; "choice"; "select"; "provide";
     "password"; "username"; "email"; "address"; "phone";
     "continue"; "proceed"; "option"; "answer"; "response"]%string.

(** [/(?:>|\$|:|») ?$/]; [»] is U+00BB. *)
Definition promptChar : regex :=
  Cat (Alt (Lits (lit ">")) (Alt (Lits (lit "$")) (Alt (Lits (lit ":")) (Lit1 187))))
      (Cat (Opt (Lits (lit " "))) Eos).

(** [[^.!?:]] and [[?:]] *)
Definition notSentenceEnd (c : char16) : bool :=
  negb ((c =? 46) || (c =? 33) || (c =? 63) || (c =? 58)).
Definition questionOrColon (c : char16) : bool := (c =? 63) || (c =? 58).

(** [/([^.!?:]+[?:])\s*$/]: the group, and what follows it. *)
Definition promptGroup : regex := Cat (Plus (Chr notSentenceEnd)) (Chr questionOrColon).
Definition promptTail : regex := Cat (Star (Chr is_space)) Eos.

(* ================================================================== *)
(** ** Output sanitizer *)

Definition stripFrameHeader (s : jsstring) : jsstring :=
  replaceAtStart frameHeader [] s.

Definition stripControl (s : jsstring) : jsstring := replaceAll controlChar [] s.

Definition normalizeCRLF (s : jsstring) : jsstring := replaceAll crlf [LF] s.

Definition stripAttachOptions (s : jsstring) : jsstring := replaceAll attachOptions [] s.

Definition stripFlagObjects (s : jsstring) : jsstring := replaceAll flagObject [] s.

(** [cleanDockerOutput] *)
Definition cleanDockerOutput (output : jsstring) : jsstring :=
  stripFlagObjects
    (stripAttachOptions
       (stripControl
          (normalizeCRLF
             (stripFrameHeader output)))).

(** The cleaning written out in the stream handlers ([cleanChunk]):
    header, control characters, attach options; no CRLF step. *)
Definition cleanChunk (chunkStr : jsstring) : jsstring :=
  stripAttachOptions (stripControl (stripFrameHeader chunkStr)).

(** The cleaning written out in the request handler before a response is
    sent ([cleanedOutput]). *)
Definition cleanForResponse (s : jsstring) : jsstring :=
  stripAttachOptions (stripControl (normalizeCRLF (stripFrameHeader s))).

(* ================================================================== *)
(** ** Input-wait heuristic *)

(** [lines.filter(line => line.trim().length > 0).pop() || ''] *)
Definition lastNonEmptyLine (lines : list jsstring) : jsstring :=
  last (filter (fun line => (0 <? length (trim line))%nat) lines) [].

(** [output.replace(/\r/g, '').replace(/^\u0001...[\u0000-\uffff]/g, '')] *)
Definition cleanForDetection (output : jsstring) : jsstring :=
  stripFrameHeader (replaceAll (Lit1 CR) [] output).

Definition hasQuestionPrompt (line : jsstring) : bool := test questionPrompt line.
Definition hasColonPrompt (line : jsstring) : bool := test colonPrompt line.
Definition hasInputKeyword (line : jsstring) : bool :=
  existsb (fun pattern => test pattern line) commonInputPatterns.
Definition endsWithPromptChar (line : jsstring) : bool := test promptChar line.

Definition hasStalled (cleanOutput line : jsstring) : bool :=
  (0 <? length line)%nat && negb (endsWith cleanOutput [LF; LF]).

Definition isShortOutput (cleanOutput : jsstring) : bool :=
  (length cleanOutput <? 100)%nat && (length (split_nl cleanOutput) <=? 3)%nat.

(** The decision of [isWaitingForInput] from the last non-empty line and
    the cleaned output. *)
Definition inputDetection (cleanOutput line : jsstring) : bool :=
  hasQuestionPrompt line || hasColonPrompt line || hasInputKeyword line
  || endsWithPromptChar line
  || (hasStalled cleanOutput line && (isShortOutput cleanOutput || hasInputKeyword line)).

Definition isWaitingForInput (output : jsstring) : bool :=
  match output with
  | [] => false
  | _ =>
      let cleanOutput := cleanForDetection output in
      let lines := split_nl cleanOutput in
      inputDetection cleanOutput (lastNonEmptyLine lines)
  end.

(** The cleaning of [extractInputPrompt]. *)
Definition cleanForPrompt (output : jsstring) : jsstring :=
  stripControl (stripFrameHeader (replaceAll (Lit1 CR) [] output)).

(** What [extractInputPrompt] returns for a given last non-empty line. *)
Definition promptOfLine (line : jsstring) : jsstring :=
  if (50 <? length line)%nat then
    match match_group1 promptGroup promptTail line with
    | Some cap => trim cap
    | None => line
    end
  else line.

Definition extractInputPrompt (output : jsstring) : jsstring :=
  match output with
  | [] => []
  | _ => promptOfLine (lastNonEmptyLine (split_nl (cleanForPrompt output)))
  end.

(* ================================================================== *)
(** ** Sessions, the registry and the container daemon *)

Definition container_id := N.
Definition timer_id := N.

(** The value stored by [activeSessions.set]: the container handle (with
    its attached stream), the two chunk arrays, the creation time and the
    handle of the five-minute timer.  The arrays are the ones the stream
    handlers push to: a chunk array stored here is the shared object.
    The arrays hold [Buffer]s; a chunk is kept here as the text
    [chunk.toString()] gives back. *)
Record session : Type := mkSession {
  container : container_id;
  stdoutChunks : list jsstring;
  stderrChunks : list jsstring;
  createdAt : Z;
  timeout : timer_id
}.

(** [activeSessions], a JavaScript [Map]: keys are unique and iteration
    follows insertion order. *)
Definition registry := list (string * session).

Fixpoint map_get (m : registry) (k : string) : option session :=
  match m with
  | [] => None
  | (k', v) :: m' => if String.eqb k' k then Some v else map_get m' k
  end.

Fixpoint map_set (m : registry) (k : string) (v : session) : registry :=
  match m with
  | [] => [(k, v)]
  | (k', v') :: m' =>
      if String.eqb k' k then (k', v) :: m' else (k', v') :: map_set m' k v
  end.

Definition map_delete (m : registry) (k : string) : registry :=
  filter (fun e => negb (String.eqb (fst e) k)) m.

Inductive cstate : Type := Created | Running | Exited.

Inductive docker_call : Type :=
| CallCreate (c : container_id)
| CallStart (c : container_id)
| CallAttach (c : container_id)
| CallInspect (c : container_id)
| CallLogs (c : container_id)
| CallStop (c : container_id)
| CallRemove (c : container_id).

(** The process state the handlers act on: the registry, the containers
    the daemon holds, the requests sent to the daemon (oldest first) and
    the timers cleared so far. *)
Record world : Type := mkWorld {
  activeSessions : registry;
  containers : list (container_id * cstate);
  calls : list docker_call;
  clearedTimers : list timer_id
}.

Definition set_sessions (r : registry) (w : world) : world :=
  mkWorld r (containers w) (calls w) (clearedTimers w).

Definition log_call (d : docker_call) (w : world) : world :=
  mkWorld (activeSessions w) (containers w) (calls w ++ [d]) (clearedTimers w).

Definition log_calls (ds : list docker_call) (w : world) : world :=
  mkWorld (activeSessions w) (containers w) (calls w ++ ds) (clearedTimers w).

Definition set_containers (cs : list (container_id * cstate)) (w : world) : world :=
  mkWorld (activeSessions w) cs (calls w) (clearedTimers w).

Definition clearTimeout (t : timer_id) (w : world) : world :=
  mkWorld (activeSessions w) (containers w) (calls w) (clearedTimers w ++ [t]).

Definition set_cstate (c : container_id) (st : cstate)
           (cs : list (container_id * cstate)) : list (container_id * cstate) :=
  map (fun e => if fst e =? c then (c, st) else e) cs.

Definition drop_container (c : container_id)
           (cs : list (container_id * cstate)) : list (container_id * cstate) :=
  filter (fun e => negb (fst e =? c)) cs.

Definition is_running (c : container_id) (w : world) : bool :=
  existsb (fun e => (fst e =? c)
                    && match snd e with Running => true | _ => false end)
          (containers w).

Definition count_calls (d : docker_call -> bool) (w : world) : nat :=
  List.length (filter d (calls w)).

Definition is_stop_of (c : container_id) (d : docker_call) : bool :=
  match d with CallStop c' => c' =? c | _ => false end.

Definition docker_call_eq_dec (a b : docker_call) : {a = b} + {a <> b}.
Proof. decide equality; apply N.eq_dec. Defined.

Section Daemon.

(** Whether the daemon honours a stop, respectively a forced removal, of
    a container. *)
Variable stop_ok : container_id -> bool.
Variable remove_ok : container_id -> bool.

(** [container.remove({ force: true })] *)
Definition docker_remove (c : container_id) (w : world) : bool * world :=
  let w1 := log_call (CallRemove c) w in
  if remove_ok c then (true, set_containers (drop_container c (containers w1)) w1)
  else (false, w1).

(** [container.stop()] *)
Definition docker_stop (c : container_id) (w : world) : bool * world :=
  let w1 := log_call (CallStop c) w in
  if stop_ok c then (true, set_containers (set_cstate c Exited (containers w1)) w1)
  else (false, w1).

(** The promise chain started by [cleanupSession]:
    [stop().then(remove).then(log).catch(() => remove().catch(() => {}))].
    [teardownRest] is what runs once the daemon has answered the stop:
    the removal, which the [catch] tries again when it is refused, or the
    removal of the [catch] alone when the stop was refused. *)
Definition teardownRest (c : container_id) (stopped : bool) (w : world) : world :=
  if stopped then
    let (removed, w2) := docker_remove c w in
    if removed then w2 else snd (docker_remove c w2)
  else snd (docker_remove c w).

(** One chain from its first request to its last.  The continuations run
    after [cleanupSession] has returned; they act on the daemon only,
    never on the registry. *)
Definition teardownContainer (c : container_id) (w : world) : world :=
  let (stopped, w1) := docker_stop c w in
  teardownRest c stopped w1.

(** [cleanupSession], together with the chain it starts: what one call
    has done once the event loop has run the chain to its end.  The guard
    [if (session.container)] always holds: the only [activeSessions.set]
    stores the handle that [docker.createContainer] returned.
    [container.stop()] returns a promise, so the surrounding [try] has
    nothing to catch. *)
Definition cleanupSession (sessionId : string) (w : world) : world :=
  match map_get (activeSessions w) sessionId with
  | Some session =>
      let w1 := clearTimeout (timeout session) w in
      let w2 := teardownContainer (container session) w1 in
      set_sessions (map_delete (activeSessions w2) sessionId) w2
  | None => w
  end.

(** [cleanupSession] up to its return, for a caller that goes on before
    the event loop runs again: the timer is cleared, [container.stop()]
    is called, which queues the request and returns the promise, and the
    entry is deleted.  [queued] lists the containers whose stop request
    waits to be written, oldest first.  A single call followed by its
    chain is [cleanupSession] above (lemma [cleanupSession_staged]). *)
Definition cleanupSessionBody (sessionId : string)
           (st : world * list container_id) : world * list container_id :=
  let (w, queued) := st in
  match map_get (activeSessions w) sessionId with
  | Some session =>
      let w1 := clearTimeout (timeout session) w in
      (set_sessions (map_delete (activeSessions w1) sessionId) w1,
       queued ++ [container session])
  | None => st
  end.

(** The queued stop requests are written in the order they were queued;
    each answer is kept with its container. *)
Definition answerStops (queued : list container_id) (w : world)
  : world * list (container_id * bool) :=
  fold_left
    (fun st c =>
       let (stopped, w') := docker_stop c (fst st) in
       (w', snd st ++ [(c, stopped)]))
    queued (w, []).

(** The event loop after the synchronous code has returned: the stops
    are written and answered, then every chain runs its continuations.
    The chains are taken in the order of their stop requests; in which
    order the daemon answers is not fixed by the code. *)
Definition settleTeardowns (st : world * list container_id) : world :=
  let (w1, answered) := answerStops (snd st) (fst st) in
  fold_left (fun w a => teardownRest (fst a) (snd a) w) answered w1.

(** The body of the [setInterval] callback.  Deleting the entry being
    visited does not disturb a [Map] iterator, so every entry present
    when the sweep starts is visited once.  The loop is synchronous: the
    chains of the sessions it cleans up run after it has returned. *)
Definition expirySweep (now : Z) (w : world) : world :=
  settleTeardowns
    (fold_left
       (fun st e =>
          if (now - createdAt (snd e) >? 5 * 60 * 1000)%Z
          then cleanupSessionBody (fst e) st else st)
       (activeSessions w) (w, [])).

(** [cleanupSession] called [n] times in a row. *)
Fixpoint cleanupTimes (n : nat) (sessionId : string) (w : world) : world :=
  match n with
  | O => w
  | S n' => cleanupTimes n' sessionId (cleanupSession sessionId w)
  end.

End Daemon.

(** The [SIGINT] handler: [cleanupSession] for every session, in
    iteration order, and then [process.exit(0)].  The exit follows the
    loop synchronously, before the event loop runs again: the stop
    requests the loop has queued are never written and no continuation of
    a chain runs.  The result is the state at the exit. *)
Definition shutdown (w : world) : world :=
  fst (fold_left (fun st e => cleanupSessionBody (fst e) st)
                 (activeSessions w) (w, [])).

(* ================================================================== *)
(** ** The always-on stream handler of a session *)

(** The second argument of the ['data'] callback: ['stdout'], ['stderr']
    or anything else.  A Node stream calls its ['data'] listeners with the
    chunk alone, so a chunk of the attached stream comes with [undefined]
    ([Untyped]) and still carries the 8-byte header of its frame. *)
Inductive stream_type : Type := Stdout | Stderr | Untyped.

(** [stream.on('data', (chunk, type) => ...)] of the request handler: the
    state is the session (whose arrays the closure shares) and the closure
    variable [currentOutput].  The array gets [Buffer.from(cleanChunk)],
    the variable the string itself. *)
Definition sessionDataHandler (type : stream_type) (chunk : jsstring)
           (st : session * jsstring) : session * jsstring :=
  let (s, currentOutput) := st in
  match type with
  | Stderr =>
      (mkSession (container s) (stdoutChunks s) (stderrChunks s ++ [chunk])
                 (createdAt s) (timeout s), currentOutput)
  | Stdout | Untyped =>
      let clean := cleanChunk chunk in
      (mkSession (container s) (stdoutChunks s ++ [bufferText clean])
                 (stderrChunks s) (createdAt s) (timeout s),
       currentOutput ++ clean)
  end.

Definition deliver (events : list (stream_type * jsstring))
           (st : session * jsstring) : session * jsstring :=
  fold_left (fun st e => sessionDataHandler (fst e) (snd e) st) events st.

(* ================================================================== *)
(** ** The request handler: a new run *)

Inductive body : Type :=
| ErrorBody (error : jsstring) (output : option jsstring)
| RunBody (output : jsstring) (sessionId : string)
          (waitingForInput : bool) (inputPrompt : jsstring).

Record response : Type := mkResponse { status : N; json : body }.

(** What the collaborators of one new-run request do: the two uuids, the
    file write, the daemon's answers to create, start and attach (a
    message when the call throws), the timer handle, the clock, and the
    chunks the stream delivers during the one-second initial wait. *)
Record run_env : Type := mkRunEnv {
  fileId : string;
  newSessionId : string;
  write_ok : bool;
  create_result : jsstring + container_id;
  start_error : option jsstring;
  attach_error : option jsstring;
  sessionTimeout : timer_id;
  now : Z;
  delivered : list (stream_type * jsstring)
}.

(** [err.message || 'An error occurred during execution'] *)
Definition messageOrDefault (message : jsstring) : jsstring :=
  match message with
  | [] => lit "An error occurred during execution"
  | _ => message
  end.

Section Handler.

Variable stop_ok : container_id -> bool.
Variable remove_ok : container_id -> bool.

(** The [catch (err)] block of the new-run path. *)
Definition runFailed (env : run_env) (message : jsstring) (w : world)
  : world * response :=
  (cleanupSession stop_ok remove_ok (newSessionId env) w,
   mkResponse 200 (ErrorBody (messageOrDefault message) (Some []))).

(** The new-run path of [app.post('/api/execute')] (no [sessionId] in
    the request). *)
Definition executeNew (env : run_env) (code language : jsstring) (w : world)
  : world * response :=
  match code with
  | [] => (w, mkResponse 400 (ErrorBody (lit "No code provided") None))
  | _ =>
    if negb (jseqb language (lit "python")) then
      (w, mkResponse 400
            (ErrorBody (lit "Unsupported language. Currently only Python is supported.") None))
    else if negb (write_ok env) then
      (w, mkResponse 500 (ErrorBody (lit "Failed to save code to file") None))
    else
      match create_result env with
      | inl message => runFailed env message w
      | inr c =>
        let w1 := log_call (CallCreate c)
                    (set_containers (containers w ++ [(c, Created)]) w) in
        let w2 := log_call (CallStart c) w1 in
        match start_error env with
        | Some message => runFailed env message w2
        | None =>
          let w3 := set_containers (set_cstate c Running (containers w2)) w2 in
          let w4 := log_call (CallAttach c) w3 in
          match attach_error env with
          | Some message => runFailed env message w4
          | None =>
            let s0 := mkSession c [] [] (now env) (sessionTimeout env) in
            let w5 := set_sessions
                        (map_set (activeSessions w4) (newSessionId env) s0) w4 in
            (* the chunks of the one-second wait; the stored session holds
               the very arrays the handler pushes to *)
            let (s1, currentOutput) := deliver (delivered env) (s0, []) in
            let w6 := set_sessions
                        (map_set (activeSessions w5) (newSessionId env) s1) w5 in
            let waitingForInput := isWaitingForInput currentOutput in
            let inputPrompt :=
              if waitingForInput then extractInputPrompt currentOutput else [] in
            (w6, mkResponse 200
                   (RunBody (cleanForResponse currentOutput) (newSessionId env)
                            waitingForInput inputPrompt))
          end
        end
      end
  end.

End Handler.

(* ================================================================== *)
(** ** The quiescence waiter [waitForOutput] *)

(** What [session.container.inspect()] answers: [State.Running] and
    [State.ExitCode], or a rejected promise. *)
Inductive inspect_result : Type :=
| Inspected (running : bool) (exitCode : N)
| InspectFailed.

Inductive outcome : Type :=
| Resolved (output : jsstring)
| Rejected (message : jsstring).

(** The variables of one [waitForOutput] call: the accumulator [output],
    [dataReceived], whether the quiet timer and the absolute timer are
    pending, whether [dataHandler] and [errorHandler] are still attached,
    how the promise was settled (the first [resolve] or [reject] wins) and
    how many times the container was inspected. *)
Record waiter : Type := mkWaiter {
  output : jsstring;
  dataReceived : bool;
  quietTimer : bool;
  timeoutPending : bool;
  listening : bool;
  settled : option outcome;
  inspections : nat
}.

Definition newWaiter : waiter := mkWaiter [] false false true true None 0.

(** [cleanup()] *)
Definition cleanup (w : waiter) : waiter :=
  mkWaiter (output w) (dataReceived w) false false false (settled w) (inspections w).

Definition settle (o : outcome) (w : waiter) : waiter :=
  match settled w with
  | Some _ => w
  | None =>
      mkWaiter (output w) (dataReceived w) (quietTimer w) (timeoutPending w)
               (listening w) (Some o) (inspections w)
  end.

Definition inspected (w : waiter) : waiter :=
  mkWaiter (output w) (dataReceived w) (quietTimer w) (timeoutPending w)
           (listening w) (settled w) (S (inspections w)).

Definition push_stdout (chunk : jsstring) (s : session) : session :=
  mkSession (container s) (stdoutChunks s ++ [chunk]) (stderrChunks s)
            (createdAt s) (timeout s).

(** The decimal numeral of [`${info.State.ExitCode}`]. *)
Definition decimal (n : N) : jsstring := lit (NilEmpty.string_of_uint (N.to_uint n)).

Definition msgStillRunning : jsstring :=
  lit "Program is running but not producing output. It may be performing a long calculation or waiting for more input.".
Definition msgNoOutput : jsstring :=
  lit "Program completed successfully but produced no output.".
Definition msgExited (code : N) : jsstring :=
  lit "Program exited with code " ++ decimal code.
Definition msgInspectFailed : jsstring :=
  lit "Execution timed out and failed to check program status.".

(** [dataHandler], while it is attached to the stream. *)
Definition dataHandler (chunk : jsstring) (st : session * waiter) : session * waiter :=
  let (s, w) := st in
  if negb (listening w) then st
  else
    let clean := cleanChunk chunk in
    let s' := push_stdout (bufferText clean) s in
    let out1 := output w ++ clean in
    let out2 := match out1 with [] => out1 | _ => cleanDockerOutput out1 end in
    let w1 := mkWaiter out2 true false (timeoutPending w) (listening w)
                       (settled w) (inspections w) in
    if isWaitingForInput out2 then (s', settle (Resolved out2) (cleanup w1))
    else (s', mkWaiter out2 true true (timeoutPending w) (listening w)
                       (settled w) (inspections w)).

(** The callback of the quiet timer, [sinceLastData] being
    [Date.now() - lastDataTime] when it runs. *)
Definition quietElapsed (sinceLastData : Z) (st : session * waiter) : session * waiter :=
  let (s, w) := st in
  if negb (quietTimer w) then st
  else
    let w1 := mkWaiter (output w) (dataReceived w) false (timeoutPending w)
                       (listening w) (settled w) (inspections w) in
    match output w with
    | [] => if (sinceLastData >? 2000)%Z
            then (s, settle (Resolved (output w)) (cleanup w1)) else (s, w1)
    | _ => (s, settle (Resolved (output w)) (cleanup w1))
    end.

(** The callback of the absolute timer ([timeoutMs]); [info] is what the
    inspection answers when the callback asks for one. *)
Definition timeoutElapsed (info : inspect_result) (st : session * waiter)
  : session * waiter :=
  let (s, w) := st in
  if negb (timeoutPending w) then st
  else
    let w0 := mkWaiter (output w) (dataReceived w) (quietTimer w) false
                       (listening w) (settled w) (inspections w) in
    match join (stdoutChunks s) with
    | (_ :: _) as existingOutput => (s, settle (Resolved existingOutput) (cleanup w0))
    | [] =>
        let w1 := inspected w0 in
        match info with
        | Inspected true _ => (s, settle (Resolved msgStillRunning) (cleanup w1))
        | Inspected false exitCode =>
            if exitCode =? 0
            then (s, settle (Resolved msgNoOutput) (cleanup w1))
            else (s, settle (Rejected (msgExited exitCode)) (cleanup w1))
        | InspectFailed => (s, settle (Rejected msgInspectFailed) (cleanup w1))
        end
    end.

(** The callback of the five-second timer, which [cleanup] does not
    clear. *)
Definition initialCheck (info : inspect_result) (st : session * waiter)
  : session * waiter :=
  let (s, w) := st in
  if dataReceived w then st
  else
    let w1 := inspected w in
    match info with
    | Inspected running exitCode =>
        if negb running && (exitCode =? 0) then
          let existingOutput := join (stdoutChunks s) in
          (s, settle (Resolved (match existingOutput with
                                | [] => lit "Program completed."
                                | _ => existingOutput
                                end)) (cleanup w1))
        else
          let priorOutput := join (stdoutChunks s) in
          if isWaitingForInput priorOutput
          then (s, settle (Resolved priorOutput) (cleanup w1))
          else (s, w1)
    | InspectFailed =>
        (s, settle (Resolved (lit "Unable to determine program status.")) (cleanup w1))
    end.

(** [errorHandler], while it is attached. *)
Definition errorHandler (message : jsstring) (st : session * waiter) : session * waiter :=
  let (s, w) := st in
  if negb (listening w) then st
  else (s, settle (Rejected message) (cleanup w)).

(** One ['data'] event on the stream of a session on which
    [waitForOutput] is subscribed: the listeners run in the order they
    were attached, the session's handler first. *)
Definition emitData (type : stream_type) (chunk : jsstring)
           (st : (session * jsstring) * waiter) : (session * jsstring) * waiter :=
  let (sc, w) := st in
  let (s1, currentOutput) := sessionDataHandler type chunk sc in
  let (s2, w') := dataHandler chunk (s1, w) in
  ((s2, currentOutput), w').

(** The events a [waitForOutput] call reacts to. *)
Inductive wait_event : Type :=
| EvData (type : stream_type) (chunk : jsstring)
| EvQuiet (sinceLastData : Z)
| EvInitialCheck (info : inspect_result)
| EvTimeout (info : inspect_result)
| EvError (message : jsstring).

Definition wait_step (e : wait_event) (st : (session * jsstring) * waiter)
  : (session * jsstring) * waiter :=
  match e with
  | EvData type chunk => emitData type chunk st
  | EvQuiet d => let (sc, w) := st in
                 let (s', w') := quietElapsed d (fst sc, w) in ((s', snd sc), w')
  | EvInitialCheck info =>
      let (sc, w) := st in
      let (s', w') := initialCheck info (fst sc, w) in ((s', snd sc), w')
  | EvTimeout info =>
      let (sc, w) := st in
      let (s', w') := timeoutElapsed info (fst sc, w) in ((s', snd sc), w')
  | EvError message =>
      let (sc, w) := st in
      let (s', w') := errorHandler message (fst sc, w) in ((s', snd sc), w')
  end.

(** [waitForOutput(session)] run against a sequence of events. *)
Definition waitForOutput (s : session) (currentOutput : jsstring)
           (events : list wait_event) : (session * jsstring) * waiter :=
  fold_left (fun st e => wait_step e st) events ((s, currentOutput), newWaiter).

(* ================================================================== *)
(** ** Predicates used in the statements *)

(** Every carriage return of [s] is immediately followed by a line feed. *)
Fixpoint everyCRbeforeLF (s : jsstring) : bool :=
  match s with
  | [] => true
  | c :: t =>
      (negb (c =? CR) || match t with c' :: _ => c' =? LF | [] => false end)
      && everyCRbeforeLF t
  end.

(** [s] contains a CR immediately followed by LF. *)
Fixpoint hasCRLF (s : jsstring) : bool :=
  match s with
  | [] => false
  | c :: t =>
      ((c =? CR) && match t with c' :: _ => c' =? LF | [] => false end)
      || hasCRLF t
  end.

Definition LBRACE : char16 := 123.

(** The reference for the CRLF step of the sanitizer, in the words of the
    claim: reading from the left, a carriage return immediately followed
    by a line feed becomes that line feed, and every other code unit is
    kept. *)
Fixpoint crlfPairsToLF (s : jsstring) : jsstring :=
  match s with
  | [] => []
  | c :: t =>
      match t with
      | d :: t' =>
          if (c =? CR) && (d =? LF) then LF :: crlfPairsToLF t'
          else c :: crlfPairsToLF t
      | [] => [c]
      end
  end.

(** The white space a text begins with, and the white space it ends
    with: what follows its last code unit that is not white space. *)
Fixpoint leadingSpace (s : jsstring) : jsstring :=
  match s with
  | [] => []
  | c :: t => if is_space c then c :: leadingSpace t else []
  end.

Definition trailingSpace (s : jsstring) : jsstring :=
  rev (leadingSpace (rev s)).

(** The test of the sweep: the session was created more than five minutes
    before [now]. *)
Definition expired (now : Z) (e : string * session) : bool :=
  (now - createdAt (snd e) >? 5 * 60 * 1000)%Z.

(** The chunks the session's own handler files under [stderrChunks]. *)
Definition is_stderr (type : stream_type) : bool :=
  match type with Stderr => true | _ => false end.

(** A flag object written inside another one:
    [{"stream":tr{"stdin":true}ue}]. *)
Definition splicedFlagObject : jsstring :=
  lit "{" ++ quoted "stream" ++ lit ":tr{" ++ quoted "stdin" ++ lit ":true}ue}".

(** The source text of Scenario A, [print("hi")]. *)
Definition printHi : jsstring := lit "print(" ++ quoted "hi" ++ lit ")".

(* ================================================================== *)
(** ** The input path of the request handler *)

(** [waitForInputResult], from how the promise of [waitForOutput] was
    settled and what [session.container.logs(...)] answers when asked
    ([None]: the call throws).  A resolved output is cleaned when it is not
    empty; after a rejection the logs of the container stand in for the
    output, and the original error is thrown again only when they cannot
    be fetched. *)
Definition waitForInputResult (result : outcome) (logs : option jsstring) : outcome :=
  match result with
  | Resolved out =>
      Resolved (match out with [] => out | _ => cleanDockerOutput out end)
  | Rejected message =>
      match logs with
      | Some text => Resolved (cleanDockerOutput text)
      | None => Rejected message
      end
  end.

(** The JSON bodies the input path sends. *)
Inductive input_body : Type :=
| InputError (error : jsstring)
| InputFailed (error : jsstring) (waitingForInput : bool)
| InputResult (output : jsstring) (waitingForInput : bool)
              (inputPrompt : jsstring) (sessionId : string).

Record input_response : Type := mkInputResponse {
  input_status : N;
  input_json : input_body
}.

(** What happens around one input request: the events [waitForOutput]
    sees, the answer of the logs call when it is made, and the
    [currentOutput] variable of the session's own handler. *)
Record input_env : Type := mkInputEnv {
  wait_events : list wait_event;
  container_logs : option jsstring;
  handler_output : jsstring
}.

(** The result of one input request: the state, the text written to the
    standard input of the container, and the response ([None] while the
    promise of [waitForOutput] is still pending). *)
Record input_turn : Type := mkInputTurn {
  turn_world : world;
  turn_written : option jsstring;
  turn_reply : option input_response
}.

Definition msgSessionNotFound : jsstring :=
  lit "Session not found or expired. Please run your code again.".
Definition msgInvalidSession : jsstring := lit "Invalid session request".
Definition msgInputErrorPrefix : jsstring := lit "Error processing input: ".

Section InputHandler.

Variable stop_ok : container_id -> bool.
Variable remove_ok : container_id -> bool.

(** The branch [if (sessionId)] of [app.post('/api/execute')]; [input] is
    [None] when the request has no [input] field.  The session entry is
    written back after the wait because the chunk arrays the handlers push
    to are the ones the registry entry holds.  The inspections the timers
    of the wait have asked for are requests to the daemon, and so is the
    logs call [waitForInputResult] makes when the wait was rejected; the
    inspections are listed first, also one that the five-second timer
    asks for after the promise has settled. *)
Definition executeInput (env : input_env) (sessionId : string)
           (input : option jsstring) (w : world) : input_turn :=
  match map_get (activeSessions w) sessionId with
  | None => mkInputTurn w None
              (Some (mkInputResponse 404 (InputError msgSessionNotFound)))
  | Some session =>
    match input with
    | None => mkInputTurn w None
                (Some (mkInputResponse 400 (InputError msgInvalidSession)))
    | Some text =>
      let written := text ++ [LF] in
      let final := waitForOutput session (handler_output env) (wait_events env) in
      let w1 := log_calls
                  (repeat (CallInspect (container session)) (inspections (snd final)))
                  (set_sessions
                     (map_set (activeSessions w) sessionId (fst (fst final))) w) in
      match settled (snd final) with
      | None => mkInputTurn w1 (Some written) None
      | Some result =>
        let w2 := match result with
                  | Resolved _ => w1
                  | Rejected _ => log_call (CallLogs (container session)) w1
                  end in
        match waitForInputResult result (container_logs env) with
        | Resolved out =>
            let out' := match out with [] => out | _ => cleanForResponse out end in
            let waitingForInput := isWaitingForInput out' in
            let inputPrompt :=
              if waitingForInput then extractInputPrompt out' else [] in
            mkInputTurn w2 (Some written)
              (Some (mkInputResponse 200
                       (InputResult out' waitingForInput inputPrompt sessionId)))
        | Rejected message =>
            mkInputTurn (cleanupSession stop_ok remove_ok sessionId w2) (Some written)
              (Some (mkInputResponse 200
                       (InputFailed (msgInputErrorPrefix ++ message) false)))
        end
      end
    end
  end.

End InputHandler.

(* ================================================================== *)
(** ** The client: what the editor and the terminal do with a response *)

Fixpoint startsWith (s prefix : jsstring) : bool :=
  match prefix, s with
  | [], _ => true
  | p :: prefix', c :: s' => (c =? p) && startsWith s' prefix'
  | _ :: _, [] => false
  end.

(** [s.includes(search)] *)
Fixpoint includes (s search : jsstring) : bool :=
  startsWith s search
  || match s with
     | [] => false
     | _ :: t => includes t search
     end.

(** [lines.join('\n')] *)
Fixpoint join_nl (lines : list jsstring) : jsstring :=
  match lines with
  | [] => []
  | [l] => l
  | l :: ls => l ++ LF :: join_nl ls
  end.

(** The cleaning [handleRunCode] and [handleInput] apply to
    [response.output]: the five replacements of [cleanDockerOutput]. *)
Definition editorCleanOutput (output : jsstring) : jsstring :=
  stripFlagObjects
    (stripAttachOptions
       (stripControl (normalizeCRLF (stripFrameHeader output)))).

(** [newOutputWithoutDuplicates] of [handleInput]. *)
Definition newOutputWithoutDuplicates (updatedOutput newOutputFromServer : jsstring)
  : jsstring :=
  let lastLineOfCurrent := last (split_nl updatedOutput) [] in
  let firstLineOfNew := hd [] (split_nl newOutputFromServer) in
  if includes lastLineOfCurrent firstLineOfNew
     && (0 <? length (trim firstLineOfNew))%nat
  then join_nl (tl (split_nl newOutputFromServer))
  else newOutputFromServer.

(** What the terminal shows after [handleInput] got a response without an
    error: the previous output, the echoed input line, and the new output
    of the server. *)
Definition outputAfterInput (output input responseOutput : jsstring) : jsstring :=
  let updatedOutput := output ++ input ++ [LF] in
  let newOutputFromServer :=
    match responseOutput with [] => [] | _ => editorCleanOutput responseOutput end in
  updatedOutput ++ newOutputWithoutDuplicates updatedOutput newOutputFromServer.

(** [/\\\\\\/g] of the terminal: three backslashes in a row. *)
Definition tripleBackslash : regex := Lits [92; 92; 92].

(** [cleanInputPrompt] of the terminal component. *)
Definition cleanInputPrompt (inputPrompt : jsstring) : jsstring :=
  match stripControl (stripFrameHeader inputPrompt) with
  | [] => lit "> "
  | p => p
  end.

(** [cleanOutput] of the terminal component. *)
Definition terminalCleanOutput (output : jsstring) : jsstring :=
  trim
    (stripFlagObjects
       (stripAttachOptions
          (replaceAll tripleBackslash [92]
             (stripControl (stripFrameHeader output))))).

(** [promptAlreadyInOutput] of the terminal component, as a truth value. *)
Definition promptAlreadyInOutput (output inputPrompt : jsstring) : bool :=
  let lastLine := last (split_nl (terminalCleanOutput output)) [] in
  let shown := trim (cleanInputPrompt inputPrompt) in
  (0 <? length shown)%nat && includes lastLine shown.

(* ================================================================== *)
(** ** Further predicates used in the statements *)

(** Text the cleaning steps have nothing to do on: no code unit of the
    stripped class, no carriage return, no opening brace. *)
Definition plainChar (c : char16) : bool :=
  negb (is_stripped_control c) && negb (c =? CR) && negb (c =? LBRACE).

Definition plainText (s : jsstring) : bool := forallb plainChar s.

(** The 8-byte header the daemon puts before a stdout payload of fewer
    than 256 bytes. *)
Definition stdoutFrame (size : char16) (payload : jsstring) : jsstring :=
  [1; 0; 0; 0; 0; 0; 0; size] ++ payload.

(** The same for a payload the program wrote to its standard error: the
    first byte of the header is 2. *)
Definition stderrFrame (size : char16) (payload : jsstring) : jsstring :=
  [2; 0; 0; 0; 0; 0; 0; size] ++ payload.

(** What the stream handlers keep of a stderr frame: the payload, behind
    the size byte when that is not a stripped control character. *)
Definition stderrShown (size : char16) (payload : jsstring) : jsstring :=
  (if is_stripped_control size then [] else [size]) ++ payload.

Definition is_data (e : wait_event) : bool :=
  match e with EvData _ _ => true | _ => false end.

(** The words of [commonInputPatterns]. *)
Definition lexicon : list string :=
  ["Enter"; "Input"; "Type"; "Name"; "ID"; "Age";
   "Number"; "Value"; "choice"; "select"; "provide";
   "password"; "username"; "email"; "address"; "phone";
   "continue"; "proceed"; "option"; "answer"; "response"]%string.

(** The prompt glyphs of [endsWithPromptChar]: [>], [$], [:] and [»]. *)
Definition promptGlyphs : list char16 := [62; 36; 58; 187].

(** [cleanedPrompt] of [handleInput]: the prompt of the response, cleaned
    of a frame header and of control characters when it is not empty. *)
Definition inputTurnPrompt (inputPrompt : jsstring) : jsstring :=
  match inputPrompt with
  | [] => []
  | _ => stripControl (stripFrameHeader inputPrompt)
  end.

(** [s] holds no code unit of the stripped control class. *)
Definition noStrippedControl (s : jsstring) : bool :=
  forallb (fun c => negb (is_stripped_control c)) s.

(** A wait that has settled has released its listeners and its timers. *)
Definition released (w : waiter) : Prop :=
  settled w = None
  \/ (listening w = false /\ timeoutPending w = false /\ quietTimer w = false).

(** [s'] is [s] with chunks appended, and nothing else changed. *)
Definition extends (s s' : session) : Prop :=
  (exists more, stdoutChunks s' = stdoutChunks s ++ more)
  /\ (exists more, stderrChunks s' = stderrChunks s ++ more)
  /\ container s' = container s /\ createdAt s' = createdAt s
  /\ timeout s' = timeout s.

(** The state of a wait in which every text is clean: the chunks of the
    session, the accumulator, and the output the promise was resolved
    with. *)
Definition cleanWait (st : (session * jsstring) * waiter) : Prop :=
  (forall chunk, In chunk (stdoutChunks (fst (fst st))) ->
                 noStrippedControl chunk = true)
  /\ noStrippedControl (output (snd st)) = true
  /\ (forall o, settled (snd st) = Some (Resolved o) -> noStrippedControl o = true).

(** [s] without its carriage returns. *)
Definition withoutCR (s : jsstring) : jsstring :=
  filter (fun c => negb (c =? CR)) s.

(* ================================================================== *)
(** * Properties *)

(** ** The matcher *)

Lemma star_loop_ext {A : Type}
      (body : jsstring -> (jsstring -> option A) -> option A)
      (k1 k2 : jsstring -> option A) :
  (forall s (j1 j2 : jsstring -> option A),
      (forall s', j1 s' = j2 s') -> body s j1 = body s j2) ->
  (forall s, k1 s = k2 s) ->
  forall n s, star_loop body k1 n s = star_loop body k2 n s.
Proof.
  intros Hb Hk n. induction n as [|n IH]; intros s; cbn [star_loop].
  - apply Hk.
  - rewrite (Hb s _ (fun s' => if (length s' <? length s)%nat
                               then star_loop body k2 n s' else None)).
    + now rewrite Hk.
    + intros s'. destruct (length s' <? length s)%nat; [apply IH | reflexivity].
Qed.

Lemma exec_ext {A : Type} (r : regex) :
  forall (s : jsstring) (k1 k2 : jsstring -> option A),
    (forall s', k1 s' = k2 s') -> exec r s k1 = exec r s k2.
Proof.
  induction r as [p| | |a IHa b IHb|a IHa b IHb|a IHa]; intros s k1 k2 H; cbn [exec].
  - destruct s as [|c t]; [reflexivity|]. destruct (p c); [apply H | reflexivity].
  - apply H.
  - destruct s; [apply H | reflexivity].
  - apply IHa. intros s'. now apply IHb.
  - now rewrite (IHa s k1 k2 H), (IHb s k1 k2 H).
  - apply star_loop_ext; [|exact H]. intros s0 j1 j2 Hj. now apply IHa.
Qed.

Lemma exec_none {A : Type} (r : regex) :
  forall (s : jsstring) (k : jsstring -> option A),
    (forall s', k s' = None) -> exec r s k = None.
Proof.
  induction r as [p| | |a IHa b IHb|a IHa b IHb|a IHa]; intros s k H; cbn [exec].
  - destruct s as [|c t]; [reflexivity|]. destruct (p c); [apply H | reflexivity].
  - apply H.
  - destruct s; [apply H | reflexivity].
  - apply IHa. intros s'. now apply IHb.
  - now rewrite (IHa s k H), (IHb s k H).
  - generalize (length s) as n. intros n. revert s.
    induction n as [|n IHn]; intros s; cbn [star_loop]; [apply H|].
    rewrite IHa; [apply H|].
    intros s'. destruct (length s' <? length s)%nat; [apply IHn | reflexivity].
Qed.

(** The bound on the rounds never cuts an iteration short: any bound of at
    least the length of the input gives the same result. *)
Lemma star_loop_enough {A : Type} (a : regex) (k : jsstring -> option A) :
  forall n s, (length s <= n)%nat ->
    star_loop (fun s' k' => exec a s' k') k n s
    = star_loop (fun s' k' => exec a s' k') k (length s) s.
Proof.
  induction n as [n IH] using (well_founded_induction lt_wf).
  intros s Hn. destruct n as [|n].
  - destruct s; [reflexivity | cbn [length] in Hn; lia].
  - destruct s as [|c t].
    + cbn [star_loop length]. rewrite exec_none; [reflexivity|].
      intros s'. reflexivity.
    + cbn [length star_loop]. erewrite exec_ext; [reflexivity|].
      intros s'. cbn beta.
      destruct (length s' <? S (length t))%nat eqn:E; [|reflexivity].
      apply Nat.ltb_lt in E. cbn [length] in Hn.
      rewrite (IH n ltac:(lia) s' ltac:(lia)).
      now rewrite (IH (length t) ltac:(lia) s' ltac:(lia)).
Qed.

(** The equation of ECMAScript's RepeatMatcher for a greedy star. *)
Lemma exec_Star {A : Type} (a : regex) (s : jsstring) (k : jsstring -> option A) :
  exec (Star a) s k
  = match exec a s (fun s' =>
            if (length s' <? length s)%nat then exec (Star a) s' k else None) with
    | Some x => Some x
    | None => k s
    end.
Proof.
  cbn [exec]. destruct s as [|c t].
  - cbn [length star_loop]. rewrite exec_none; [reflexivity|].
    intros s'. reflexivity.
  - cbn [length star_loop]. erewrite exec_ext; [reflexivity|].
    intros s'. cbn beta.
    destruct (length s' <? S (length t))%nat eqn:E; [|reflexivity].
    apply Nat.ltb_lt in E. apply star_loop_enough. lia.
Qed.

(** ** Replacement by the empty string *)

Lemma replaceAll_from_incl (r : regex) (s : jsstring) :
  forall (skip : nat) (c : char16),
    In c (replaceAll_from r [] skip s) -> In c s.
Proof.
  induction s as [|a t IH]; intros skip c.
  - simpl. destruct skip; [destruct (match_at r [])|]; simpl; tauto.
  - cbn [replaceAll_from]. destruct skip as [|n].
    + destruct (match_at r (a :: t)) as [rest|].
      * destruct (length (a :: t) - length rest)%nat; cbn [app]; intros H.
        -- destruct H as [H|H]; [now left | right; eauto].
        -- right; eauto.
      * intros [H|H]; [now left | right; eauto].
    + intros H. right. eauto.
Qed.

Lemma replaceAll_incl (r : regex) (s : jsstring) (c : char16) :
  In c (replaceAll r [] s) -> In c s.
Proof. apply replaceAll_from_incl. Qed.

Lemma stripControl_filter (s : jsstring) :
  stripControl s = filter (fun c => negb (is_stripped_control c)) s.
Proof.
  unfold stripControl, replaceAll, controlChar.
  induction s as [|a t IH]; [reflexivity|].
  cbn [replaceAll_from filter]. unfold match_at. cbn [exec].
  destruct (is_stripped_control a); cbn [negb].
  - replace (length (a :: t) - length t)%nat with 1%nat by (cbn [length]; lia).
    cbn [app replaceAll_from]. destruct t; [reflexivity|]. exact IH.
  - now rewrite IH.
Qed.

(** ** The frame header *)

Lemma stripFrameHeader_cases (s : jsstring) :
  stripFrameHeader s = s \/ stripFrameHeader s = skipn 8 s.
Proof.
  unfold stripFrameHeader, replaceAtStart, match_at, frameHeader, Lit1.
  do 8 (destruct s as [|? s]; [left; reflexivity|]; cbn [exec];
        match goal with |- context [if ?b then _ else _] => destruct b end;
        [|left; reflexivity]).
  right. reflexivity.
Qed.

Lemma stripFrameHeader_other_head (c : char16) (t : jsstring) :
  c <> 1 -> stripFrameHeader (c :: t) = c :: t.
Proof.
  intros H. unfold stripFrameHeader, replaceAtStart, match_at, frameHeader, Lit1.
  cbn [exec]. destruct (N.eqb_spec 1 c) as [E|_]; [congruence | reflexivity].
Qed.

Lemma skipn_incl {A : Type} (n : nat) (l : list A) (x : A) :
  In x (skipn n l) -> In x l.
Proof.
  revert l. induction n as [|n IH]; intros [|a l]; simpl; auto.
Qed.

Lemma stripFrameHeader_incl (s : jsstring) (c : char16) :
  In c (stripFrameHeader s) -> In c s.
Proof.
  destruct (stripFrameHeader_cases s) as [E|E]; rewrite E; [auto | apply skipn_incl].
Qed.

(** ** CRLF normalisation *)

Lemma normalizeCRLF_pair (t : jsstring) :
  normalizeCRLF (CR :: LF :: t) = LF :: normalizeCRLF t.
Proof.
  unfold normalizeCRLF, replaceAll. cbn [replaceAll_from].
  unfold match_at, crlf, Lit1. cbn [exec N.eqb CR LF Pos.eqb].
  cbn [length]. replace (S (S (length t)) - length t)%nat with 2%nat by lia.
  cbn [app replaceAll_from]. destruct t; reflexivity.
Qed.

Lemma normalizeCRLF_other (c : char16) (t : jsstring) :
  (c =? CR) && match t with c' :: _ => c' =? LF | [] => false end = false ->
  normalizeCRLF (c :: t) = c :: normalizeCRLF t.
Proof.
  intros H. unfold normalizeCRLF, replaceAll. cbn [replaceAll_from].
  unfold match_at, crlf, Lit1. cbn [exec].
  rewrite (N.eqb_sym CR c).
  destruct (c =? CR); [|reflexivity].
  destruct t as [|c' t]; [reflexivity|].
  rewrite (N.eqb_sym LF c'). cbn [andb] in H. now rewrite H.
Qed.

Lemma normalizeCRLF_incl (s : jsstring) (c : char16) :
  In c (normalizeCRLF s) -> In c s.
Proof.
  revert c.
  induction s as [s IH] using (well_founded_induction
                                  (Wf_nat.well_founded_ltof _ (@length char16))).
  unfold Wf_nat.ltof in IH.
  intros c. destruct s as [|a t]; [auto|].
  destruct ((a =? CR) && match t with c' :: _ => c' =? LF | [] => false end) eqn:E.
  - apply andb_prop in E. destruct E as [Ea Et].
    destruct t as [|b t]; [discriminate|].
    apply N.eqb_eq in Ea, Et. subst a b.
    rewrite normalizeCRLF_pair. intros [H|H].
    + right; now left.
    + right; right. apply IH; [cbn [length]; lia | exact H].
  - rewrite normalizeCRLF_other by exact E. intros [H|H].
    + now left.
    + right. apply IH; [cbn [length]; lia | exact H].
Qed.

Lemma normalizeCRLF_no_lone_CR (s : jsstring) :
  everyCRbeforeLF s = true -> ~ In CR (normalizeCRLF s).
Proof.
  induction s as [s IH] using (well_founded_induction
                                  (Wf_nat.well_founded_ltof _ (@length char16))).
  unfold Wf_nat.ltof in IH.
  destruct s as [|a t]; [intros _ []|].
  cbn [everyCRbeforeLF]. intros H. apply andb_prop in H. destruct H as [Ha Ht].
  destruct (a =? CR) eqn:Ea.
  - cbn [negb orb] in Ha. destruct t as [|b t]; [discriminate|].
    apply N.eqb_eq in Ea, Ha. subst a b. rewrite normalizeCRLF_pair.
    cbn [everyCRbeforeLF] in Ht. apply andb_prop in Ht. destruct Ht as [_ Ht].
    intros [H|H]; [discriminate|].
    revert H. apply IH; [cbn [length]; lia | exact Ht].
  - rewrite normalizeCRLF_other by (now rewrite Ea).
    intros [H|H].
    + subst a. discriminate.
    + revert H. apply IH; [cbn [length]; lia | exact Ht].
Qed.

Lemma normalizeCRLF_id (s : jsstring) :
  hasCRLF s = false -> normalizeCRLF s = s.
Proof.
  induction s as [|a t IH]; [reflexivity|].
  cbn [hasCRLF]. intros H. apply orb_false_iff in H. destruct H as [Ha Ht].
  rewrite normalizeCRLF_other by exact Ha. now rewrite IH.
Qed.

Lemma everyCRbeforeLF_skipn (n : nat) (s : jsstring) :
  everyCRbeforeLF s = true -> everyCRbeforeLF (skipn n s) = true.
Proof.
  revert s. induction n as [|n IH]; intros [|a t]; cbn [skipn]; auto.
  cbn [everyCRbeforeLF]. intros H. apply andb_prop in H. apply IH, H.
Qed.

(** ** The configuration-echo patterns *)

Lemma replaceAll_unmatched (r : regex) (rep s : jsstring) :
  match_at r [] = None ->
  (forall c t, In c s -> match_at r (c :: t) = None) ->
  replaceAll r rep s = s.
Proof.
  unfold replaceAll. intros H0. induction s as [|a t IH]; intros H.
  - cbn [replaceAll_from]. now rewrite H0.
  - cbn [replaceAll_from]. rewrite H by now left.
    f_equal. apply IH. intros c t' Hc. apply H. now right.
Qed.

Lemma attachOptions_head (c : char16) (t : jsstring) :
  c <> LBRACE -> match_at attachOptions (c :: t) = None.
Proof.
  intros H. unfold match_at.
  change attachOptions with (Cat (Lit1 LBRACE) (Lits (tl attachOptionsText))).
  cbn [exec Lit1]. destruct (N.eqb_spec LBRACE c); [congruence | reflexivity].
Qed.

Lemma flagObject_head (c : char16) (t : jsstring) :
  c <> LBRACE -> match_at flagObject (c :: t) = None.
Proof.
  intros H. unfold match_at, flagObject.
  change (Lits (lit "{")) with (Cat (Lit1 LBRACE) Eps).
  cbn [exec Lit1]. destruct (N.eqb_spec LBRACE c); [congruence | reflexivity].
Qed.

Lemma stripAttachOptions_id (s : jsstring) :
  ~ In LBRACE s -> stripAttachOptions s = s.
Proof.
  intros H. apply replaceAll_unmatched; [reflexivity|].
  intros c t Hc. apply attachOptions_head. intros ->. contradiction.
Qed.

Lemma stripFlagObjects_id (s : jsstring) :
  ~ In LBRACE s -> stripFlagObjects s = s.
Proof.
  intros H. apply replaceAll_unmatched; [reflexivity|].
  intros c t Hc. apply flagObject_head. intros ->. contradiction.
Qed.

Lemma stripControl_id (s : jsstring) :
  (forall c, In c s -> is_stripped_control c = false) -> stripControl s = s.
Proof.
  intros H. rewrite stripControl_filter.
  induction s as [|a t IH]; [reflexivity|].
  cbn [filter]. rewrite (H a) by now left. cbn [negb]. f_equal.
  apply IH. intros c Hc. apply H. now right.
Qed.

(** ** The sanitizer *)

Lemma cleanDockerOutput_no_stripped_control (x : jsstring) (c : char16) :
  In c (cleanDockerOutput x) -> is_stripped_control c = false.
Proof.
  unfold cleanDockerOutput, stripFlagObjects, stripAttachOptions. intros H.
  apply replaceAll_incl, replaceAll_incl in H.
  rewrite stripControl_filter in H. apply filter_In in H.
  now apply negb_true_iff.
Qed.

Lemma cleanDockerOutput_fixed (y : jsstring) :
  (forall c, In c y -> is_stripped_control c = false) ->
  hasCRLF y = false -> ~ In LBRACE y ->
  cleanDockerOutput y = y.
Proof.
  intros Hctl Hcrlf Hbrace. unfold cleanDockerOutput.
  assert (Hh : stripFrameHeader y = y).
  { destruct y as [|a t]; [reflexivity|].
    apply stripFrameHeader_other_head. intros ->.
    specialize (Hctl 1 (or_introl eq_refl)). discriminate. }
  rewrite Hh, (normalizeCRLF_id _ Hcrlf), (stripControl_id _ Hctl),
    (stripAttachOptions_id _ Hbrace).
  now apply stripFlagObjects_id.
Qed.

Lemma normalizeCRLF_pairs (s : jsstring) :
  normalizeCRLF s = crlfPairsToLF s.
Proof.
  induction s as [s IH] using (well_founded_induction
                                  (Wf_nat.well_founded_ltof _ (@length char16))).
  unfold Wf_nat.ltof in IH.
  destruct s as [|a [|b t]]; [reflexivity| |].
  - rewrite normalizeCRLF_other by apply andb_false_r. reflexivity.
  - cbn [crlfPairsToLF]. destruct ((a =? CR) && (b =? LF)) eqn:E.
    + apply andb_prop in E. destruct E as [Ea Eb].
      apply N.eqb_eq in Ea, Eb. subst a b.
      rewrite normalizeCRLF_pair. f_equal. apply IH. cbn [length]. lia.
    + rewrite normalizeCRLF_other by exact E. f_equal. apply IH. cbn [length]. lia.
Qed.

(** C6 (as amended): the output of [cleanDockerOutput] contains no code
    unit of the stripped class 0x00-0x08, 0x0B-0x0C, 0x0E-0x1F (carriage
    return 0x0D and DEL 0x7F are not in that class); CRLF pairs are
    rewritten to LF in one pass from the left, so when every carriage
    return of the input is immediately followed by a line feed, no
    carriage return is left in the output.  The CRLF step of the pipeline
    is the rewriting [crlfPairsToLF], and on a text without stripped
    control characters and without an opening brace the whole sanitizer
    is that rewriting: every CRLF pair has become one LF and nothing else
    has changed. *)
Theorem sanitizer_output_characters (x : jsstring) :
  (forall c, In c (cleanDockerOutput x) -> is_stripped_control c = false)
  /\ (everyCRbeforeLF x = true -> ~ In CR (cleanDockerOutput x))
  /\ cleanDockerOutput x
     = stripFlagObjects
         (stripAttachOptions (stripControl (crlfPairsToLF (stripFrameHeader x))))
  /\ ((forall c, In c x -> is_stripped_control c = false) -> ~ In LBRACE x ->
      cleanDockerOutput x = crlfPairsToLF x).
Proof.
  split; [|split; [|split]].
  - apply cleanDockerOutput_no_stripped_control.
  - intros Hx H. unfold cleanDockerOutput, stripFlagObjects, stripAttachOptions in H.
    apply replaceAll_incl, replaceAll_incl in H.
    rewrite stripControl_filter in H. apply filter_In in H. destruct H as [H _].
    revert H. apply normalizeCRLF_no_lone_CR.
    destruct (stripFrameHeader_cases x) as [E|E]; rewrite E;
      [exact Hx | now apply everyCRbeforeLF_skipn].
  - unfold cleanDockerOutput. now rewrite normalizeCRLF_pairs.
  - intros Hc Hb. unfold cleanDockerOutput.
    assert (Hh : stripFrameHeader x = x).
    { destruct x as [|a t]; [reflexivity|].
      apply stripFrameHeader_other_head. intros ->.
      specialize (Hc 1 (or_introl eq_refl)). discriminate. }
    rewrite Hh.
    assert (Hc' : forall c, In c (normalizeCRLF x) -> is_stripped_control c = false)
      by (intros c H; now apply Hc, normalizeCRLF_incl).
    assert (Hb' : ~ In LBRACE (normalizeCRLF x))
      by (intros H; now apply Hb, normalizeCRLF_incl).
    rewrite (stripControl_id _ Hc'), (stripAttachOptions_id _ Hb'),
      (stripFlagObjects_id _ Hb').
    apply normalizeCRLF_pairs.
Qed.

Lemma sanitizer_output_characters_witness :
  ~ In CR (cleanDockerOutput (lit "a" ++ [CR; LF] ++ lit "b" ++ [CR; LF]))
  /\ cleanDockerOutput (lit "a" ++ [CR; LF] ++ lit "b" ++ [CR; LF])
     = lit "a" ++ [LF] ++ lit "b" ++ [LF].
Proof.
  destruct (sanitizer_output_characters (lit "a" ++ [CR; LF] ++ lit "b" ++ [CR; LF]))
    as (_ & H2 & _ & H4).
  split; [apply H2; reflexivity|].
  apply H4.
  - intros c [<-|[<-|[<-|[<-|[<-|[<-|[]]]]]]]; reflexivity.
  - intros [H|[H|[H|[H|[H|[H|[]]]]]]]; discriminate H.
Defined.

(** C6 (counterexample): a lone carriage return passes the sanitizer, a
    CRLF pair can be left behind by the single pass, and DEL is kept. *)
Lemma sanitizer_keeps_carriage_return :
  In CR (cleanDockerOutput (lit "a" ++ [CR] ++ lit "b"))
  /\ is_ascii_control CR = true /\ CR <> LF /\ CR <> TAB
  /\ cleanDockerOutput [CR; CR; LF] = [CR; LF]
  /\ cleanDockerOutput [127] = [127] /\ is_ascii_control 127 = true.
Proof.
  repeat split; try discriminate.
  vm_compute. right. now left.
Qed.

(** C7 (as amended): a second pass of [cleanDockerOutput] changes nothing
    whenever the result of the first pass contains no CRLF pair and no
    opening brace. *)
Theorem sanitizer_idempotent_when_settled (x : jsstring) :
  hasCRLF (cleanDockerOutput x) = false ->
  ~ In LBRACE (cleanDockerOutput x) ->
  cleanDockerOutput (cleanDockerOutput x) = cleanDockerOutput x.
Proof.
  intros Hcrlf Hbrace. apply cleanDockerOutput_fixed; auto.
  intros c. apply cleanDockerOutput_no_stripped_control.
Qed.

Lemma sanitizer_idempotent_when_settled_witness :
  cleanDockerOutput (cleanDockerOutput ([1; 0; 0; 0; 0; 0; 0; 3] ++ lit "hi" ++ [CR; LF; 7]))
  = cleanDockerOutput ([1; 0; 0; 0; 0; 0; 0; 3] ++ lit "hi" ++ [CR; LF; 7]).
Proof.
  apply sanitizer_idempotent_when_settled.
  - reflexivity.
  - vm_compute. intuition discriminate.
Defined.

(** C7 (counterexample): the sanitizer is not idempotent.  The first pass
    can leave a CRLF pair behind, which the second pass rewrites; and
    removing a flag object can join the text around it into a new one. *)
Lemma sanitizer_second_pass_differs :
  cleanDockerOutput (cleanDockerOutput [CR; CR; LF]) <> cleanDockerOutput [CR; CR; LF]
  /\ cleanDockerOutput (cleanDockerOutput splicedFlagObject)
     <> cleanDockerOutput splicedFlagObject.
Proof. split; vm_compute; discriminate. Qed.

(** ** Blank text *)

Lemma trimStart_nil_iff (s : jsstring) :
  trimStart s = [] <-> forallb is_space s = true.
Proof.
  induction s as [|c t IH]; [now split|].
  cbn [trimStart forallb]. destruct (is_space c); cbn [andb]; [exact IH|].
  split; discriminate.
Qed.

Lemma forallb_trimStart (s : jsstring) :
  forallb is_space (trimStart s) = forallb is_space s.
Proof.
  induction s as [|c t IH]; [reflexivity|].
  cbn [trimStart]. destruct (is_space c) eqn:E.
  - cbn [forallb]. now rewrite E.
  - reflexivity.
Qed.

Lemma forallb_rev (p : char16 -> bool) (s : jsstring) :
  forallb p (rev s) = forallb p s.
Proof.
  induction s as [|c t IH]; [reflexivity|].
  cbn [rev forallb]. rewrite forallb_app, IH. cbn [forallb].
  rewrite andb_true_r. apply andb_comm.
Qed.

Lemma trim_nil_iff (s : jsstring) :
  trim s = [] <-> forallb is_space s = true.
Proof.
  unfold trim, trimEnd.
  rewrite <- (forallb_trimStart s), <- (forallb_rev is_space (trimStart s)),
    <- trimStart_nil_iff.
  split; intros H.
  - apply (f_equal (@rev char16)) in H. now rewrite rev_involutive in H.
  - now rewrite H.
Qed.

Lemma split_nl_nonempty (s : jsstring) : split_nl s <> [].
Proof.
  induction s as [|c t IH]; [discriminate|].
  cbn [split_nl]. destruct (c =? LF); [discriminate|].
  destruct (split_nl t); discriminate.
Qed.

Lemma split_nl_blank (s : jsstring) :
  Forall (fun line => trim line = []) (split_nl s) <-> forallb is_space s = true.
Proof.
  induction s as [|c t IH].
  - split; [reflexivity | intros _; now constructor].
  - cbn [split_nl forallb]. destruct (N.eqb_spec c LF) as [->|Hc].
    + change (is_space LF) with true. cbn [andb]. rewrite <- IH.
      split; intros H; [now inversion H | now constructor].
    + destruct (split_nl t) as [|l ls] eqn:E; [now destruct (split_nl_nonempty t)|].
      rewrite andb_true_iff, <- IH. split.
      * intros H. inversion H as [|? ? H1 H2]; subst.
        apply trim_nil_iff in H1. cbn [forallb] in H1.
        apply andb_prop in H1. destruct H1 as [H1 H3].
        split; [exact H1|]. constructor; [now apply trim_nil_iff | exact H2].
      * intros [H1 H]. inversion H as [|? ? H2 H3]; subst.
        constructor; [|exact H3]. apply trim_nil_iff. cbn [forallb].
        apply trim_nil_iff in H2. now rewrite H1, H2.
Qed.

Lemma lastNonEmptyLine_blank (s : jsstring) :
  forallb is_space s = true -> lastNonEmptyLine (split_nl s) = [].
Proof.
  intros H. apply split_nl_blank in H. unfold lastNonEmptyLine.
  induction H as [|l ls Hl _ IH]; [reflexivity|].
  cbn [filter]. now rewrite Hl.
Qed.

Lemma forallb_incl (p : char16 -> bool) (s s' : jsstring) :
  (forall c, In c s' -> In c s) -> forallb p s = true -> forallb p s' = true.
Proof.
  intros Hi H. apply forallb_forall. intros c Hc.
  exact (proj1 (forallb_forall p s) H c (Hi c Hc)).
Qed.

Lemma cleanForDetection_incl (x : jsstring) (c : char16) :
  In c (cleanForDetection x) -> In c x.
Proof.
  unfold cleanForDetection. intros H.
  now apply stripFrameHeader_incl, replaceAll_incl in H.
Qed.

Lemma cleanForPrompt_incl (x : jsstring) (c : char16) :
  In c (cleanForPrompt x) -> In c x.
Proof.
  unfold cleanForPrompt, stripControl. intros H.
  now apply replaceAll_incl, stripFrameHeader_incl, replaceAll_incl in H.
Qed.

Lemma inputDetection_empty_line (cleanOutput : jsstring) :
  inputDetection cleanOutput [] = false.
Proof. reflexivity. Qed.

(** C10: for the empty string, and for any text all of whose lines are
    blank, [isWaitingForInput] is [false] and [extractInputPrompt] is the
    empty string. *)
Theorem blank_output_not_waiting (x : jsstring) :
  Forall (fun line => trim line = []) (split_nl x) ->
  isWaitingForInput x = false /\ extractInputPrompt x = [].
Proof.
  intros H. apply split_nl_blank in H.
  destruct x as [|a t] eqn:Ex; [split; reflexivity|]. rewrite <- Ex in *.
  assert (Hd : isWaitingForInput x
               = inputDetection (cleanForDetection x)
                   (lastNonEmptyLine (split_nl (cleanForDetection x))))
    by (now rewrite Ex).
  assert (Hp : extractInputPrompt x
               = promptOfLine (lastNonEmptyLine (split_nl (cleanForPrompt x))))
    by (now rewrite Ex).
  rewrite Hd, Hp. clear Hd Hp Ex. split.
  - rewrite lastNonEmptyLine_blank; [apply inputDetection_empty_line|].
    exact (forallb_incl _ _ _ (cleanForDetection_incl x) H).
  - rewrite lastNonEmptyLine_blank; [reflexivity|].
    exact (forallb_incl _ _ _ (cleanForPrompt_incl x) H).
Qed.

Lemma blank_output_not_waiting_witness :
  isWaitingForInput [32; LF; TAB; CR; LF] = false
  /\ extractInputPrompt [32; LF; TAB; CR; LF] = [].
Proof.
  apply (blank_output_not_waiting [32; LF; TAB; CR; LF]).
  repeat constructor.
Defined.

(** ** The heuristic and the last non-empty line *)

Lemma endsWith_LFLF (s : jsstring) :
  endsWith s [LF; LF]
  = match rev s with
    | a :: b :: _ => (a =? LF) && (b =? LF)
    | _ => false
    end.
Proof.
  rewrite <- (rev_involutive s) at 1. generalize (rev s). intros r.
  unfold endsWith. rewrite length_rev.
  destruct r as [|a [|b r]]; [reflexivity | reflexivity |].
  rewrite skipn_rev. cbn [length].
  replace (S (S (length r)) - (S (S (length r)) - 2))%nat with 2%nat by lia.
  cbn [firstn rev app jseqb Nat.leb andb]. now rewrite andb_true_r, andb_comm.
Qed.

(** Whether a text ends in two line feeds can be read off the white
    space it ends with. *)
Lemma endsWith_LFLF_trailingSpace (s s' : jsstring) :
  trailingSpace s = trailingSpace s' ->
  endsWith s [LF; LF] = endsWith s' [LF; LF].
Proof.
  intros H. unfold trailingSpace in H.
  apply (f_equal (@rev char16)) in H. rewrite !rev_involutive in H.
  assert (E : forall r,
             match r with
             | a :: b :: _ => (a =? LF) && (b =? LF)
             | _ => false
             end
             = match leadingSpace r with
               | a :: b :: _ => (a =? LF) && (b =? LF)
               | _ => false
               end).
  { intros [|a [|b r]]; [reflexivity | |].
    - cbn [leadingSpace]. now destruct (is_space a).
    - cbn [leadingSpace]. destruct (N.eqb_spec a LF) as [->|Ha].
      + change (is_space LF) with true. cbv iota.
        destruct (N.eqb_spec b LF) as [->|Hb].
        * change (is_space LF) with true. reflexivity.
        * apply N.eqb_neq in Hb.
          destruct (is_space b); cbv iota; now rewrite ?Hb.
      + apply N.eqb_neq in Ha.
        destruct (is_space a), (is_space b); cbv iota; now rewrite ?Ha. }
  rewrite !endsWith_LFLF.
  etransitivity; [apply (E (rev s))|]. rewrite H. symmetry. apply (E (rev s')).
Qed.

(** C4 (as amended): [isWaitingForInput] is determined by the last
    non-empty line of the cleaned text together with two facts about the
    whole cleaned text: whether it is short (under 100 code units and at
    most 3 lines) and, when it is short, the white space it ends with.
    For a text that is not short the last non-empty line alone decides.
    [extractInputPrompt] is determined by the last non-empty line of its
    own cleaned text. *)
Theorem heuristic_determined_by_last_line (x y : jsstring) :
  (lastNonEmptyLine (split_nl (cleanForDetection x))
   = lastNonEmptyLine (split_nl (cleanForDetection y)) ->
   isShortOutput (cleanForDetection x) = isShortOutput (cleanForDetection y) ->
   (isShortOutput (cleanForDetection x) = true ->
    trailingSpace (cleanForDetection x) = trailingSpace (cleanForDetection y)) ->
   isWaitingForInput x = isWaitingForInput y)
  /\ (lastNonEmptyLine (split_nl (cleanForPrompt x))
      = lastNonEmptyLine (split_nl (cleanForPrompt y)) ->
      extractInputPrompt x = extractInputPrompt y).
Proof.
  assert (Hd : forall z, isWaitingForInput z
               = inputDetection (cleanForDetection z)
                   (lastNonEmptyLine (split_nl (cleanForDetection z))))
    by (intros [|? ?]; reflexivity).
  assert (Hp : forall z, extractInputPrompt z
               = promptOfLine (lastNonEmptyLine (split_nl (cleanForPrompt z))))
    by (intros [|? ?]; reflexivity).
  split.
  - intros Hl Hs Ht. rewrite !Hd. unfold inputDetection, hasStalled.
    rewrite <- Hl, <- Hs.
    destruct (isShortOutput (cleanForDetection x)).
    + now rewrite (endsWith_LFLF_trailingSpace _ _ (Ht eq_refl)).
    + destruct (hasInputKeyword (lastNonEmptyLine (split_nl (cleanForDetection x))));
        cbn [orb andb]; now rewrite ?orb_true_r, ?andb_false_r.
  - intros Hl. rewrite !Hp. now rewrite Hl.
Qed.

Lemma heuristic_determined_by_last_line_witness :
  isWaitingForInput (lit "Name? ") = isWaitingForInput (lit "ok" ++ [LF] ++ lit "Name? ")
  /\ extractInputPrompt (lit "Name? ") = extractInputPrompt (lit "ok" ++ [LF] ++ lit "Name? ").
Proof.
  destruct (heuristic_determined_by_last_line
              (lit "Name? ") (lit "ok" ++ [LF] ++ lit "Name? ")) as [H1 H2].
  split; [apply H1; [reflexivity | reflexivity | intros _; reflexivity]
         | apply H2; reflexivity].
Defined.

(** C4 (counterexample): two texts with the same last non-empty line
    (before cleaning and after either cleaning) on which
    [isWaitingForInput] differs: the first has no line feed after the
    line, the second ends in a blank line. *)
Lemma heuristic_depends_on_how_text_ends :
  lastNonEmptyLine (split_nl (lit "hi"))
  = lastNonEmptyLine (split_nl (lit "hi" ++ [LF; LF]))
  /\ lastNonEmptyLine (split_nl (cleanForDetection (lit "hi")))
  = lastNonEmptyLine (split_nl (cleanForDetection (lit "hi" ++ [LF; LF])))
  /\ lastNonEmptyLine (split_nl (cleanForPrompt (lit "hi")))
     = lastNonEmptyLine (split_nl (cleanForPrompt (lit "hi" ++ [LF; LF])))
  /\ isWaitingForInput (lit "hi") = true
  /\ isWaitingForInput (lit "hi" ++ [LF; LF]) = false.
Proof. repeat split. Qed.

(** ** The registry *)

Lemma map_get_none_iff (m : registry) (k : string) :
  map_get m k = None <-> forall e, In e m -> fst e <> k.
Proof.
  induction m as [|[k' v] m IH]; cbn [map_get].
  - split; [intros _ e [] | reflexivity].
  - destruct (String.eqb_spec k' k) as [->|Hk].
    + split; [discriminate|]. intros H. now destruct (H (k, v) (or_introl eq_refl)).
    + rewrite IH. split.
      * intros H e [<-|He]; [exact Hk | now apply H].
      * intros H e He. apply H. now right.
Qed.

Lemma map_delete_in (m : registry) (k : string) (e : string * session) :
  In e (map_delete m k) <-> In e m /\ fst e <> k.
Proof.
  unfold map_delete. rewrite filter_In, negb_true_iff.
  destruct (String.eqb_spec (fst e) k); intuition congruence.
Qed.

Lemma map_get_delete_same (m : registry) (k : string) :
  map_get (map_delete m k) k = None.
Proof.
  apply map_get_none_iff. intros e He. now apply map_delete_in in He.
Qed.

Lemma map_get_delete_other (m : registry) (k k' : string) :
  k' <> k -> map_get (map_delete m k) k' = map_get m k'.
Proof.
  intros Hk. induction m as [|[k0 v] m IH]; [reflexivity|].
  cbn [map_delete filter fst map_get]. fold (map_delete m k).
  destruct (String.eqb_spec k0 k) as [->|H0]; cbn [negb].
  - destruct (String.eqb_spec k k'); [congruence | exact IH].
  - cbn [map_get]. now rewrite IH.
Qed.

Lemma map_delete_absent (m : registry) (k : string) :
  map_get m k = None -> map_delete m k = m.
Proof.
  induction m as [|[k' v] m IH]; [reflexivity|].
  cbn [map_get map_delete filter fst]. fold (map_delete m k).
  destruct (String.eqb_spec k' k); [discriminate|].
  intros H. cbn [negb]. now rewrite IH.
Qed.

Lemma map_get_in_nodup (m : registry) (k : string) (v : session) :
  NoDup (map fst m) -> In (k, v) m -> map_get m k = Some v.
Proof.
  induction m as [|[k' v'] m IH]; [intros _ []|].
  cbn [map fst map_get]. intros Hn [He|He].
  - inversion He; subst. now rewrite String.eqb_refl.
  - inversion Hn as [|? ? Hnot Hn']; subst.
    destruct (String.eqb_spec k' k) as [->|_]; [|now apply IH].
    destruct Hnot. apply (in_map fst) in He. exact He.
Qed.

Lemma map_delete_NoDup (m : registry) (k : string) :
  NoDup (map fst m) -> NoDup (map fst (map_delete m k)).
Proof.
  unfold map_delete. induction m as [|[k' v'] m IH]; [auto|].
  cbn [map fst filter]. intros H. inversion H as [|? ? Hn Hd]; subst.
  destruct (negb (String.eqb k' k)); [|auto].
  cbn [map fst]. constructor; [|auto].
  intros Hin. apply Hn. apply in_map_iff in Hin. destruct Hin as (e & He & Hin).
  apply filter_In in Hin. apply in_map_iff. exists e. tauto.
Qed.

(** ** Teardown of a container *)

Section DaemonFacts.

Variable stop_ok : container_id -> bool.
Variable remove_ok : container_id -> bool.

Local Notation "'teardown'" := (teardownContainer stop_ok remove_ok).
Local Notation "'cleanupS'" := (cleanupSession stop_ok remove_ok).

Lemma teardown_sessions (c : container_id) (w : world) :
  activeSessions (teardown c w) = activeSessions w.
Proof.
  unfold teardownContainer, teardownRest, docker_stop, docker_remove.
  destruct (stop_ok c), (remove_ok c); reflexivity.
Qed.

Lemma teardown_timers (c : container_id) (w : world) :
  clearedTimers (teardown c w) = clearedTimers w.
Proof.
  unfold teardownContainer, teardownRest, docker_stop, docker_remove.
  destruct (stop_ok c), (remove_ok c); reflexivity.
Qed.

(** The requests one teardown sends: one stop, then one removal, and a
    second removal when the container stopped but the first removal was
    refused. *)
Lemma teardown_calls (c : container_id) (w : world) :
  calls (teardown c w)
  = calls w ++ CallStop c :: CallRemove c
      :: (if stop_ok c && negb (remove_ok c) then [CallRemove c] else []).
Proof.
  unfold teardownContainer, teardownRest, docker_stop, docker_remove.
  destruct (stop_ok c), (remove_ok c); cbn -[app]; now rewrite <- ?app_assoc.
Qed.

Lemma set_cstate_not_running (c c' : container_id) (cs : list (container_id * cstate)) :
  existsb (fun e => (fst e =? c')
                    && match snd e with Running => true | _ => false end) cs = false ->
  existsb (fun e => (fst e =? c')
                    && match snd e with Running => true | _ => false end)
          (set_cstate c Exited cs) = false.
Proof.
  induction cs as [|[c0 st] cs IH]; [reflexivity|].
  cbn [set_cstate map existsb fst snd]. intros H.
  apply orb_false_iff in H. destruct H as [H0 H].
  apply orb_false_iff. split; [|now apply IH].
  destruct (c0 =? c); cbn [fst snd]; [apply andb_false_r | exact H0].
Qed.

Lemma set_cstate_stops (c : container_id) (cs : list (container_id * cstate)) :
  existsb (fun e => (fst e =? c)
                    && match snd e with Running => true | _ => false end)
          (set_cstate c Exited cs) = false.
Proof.
  induction cs as [|[c0 st] cs IH]; [reflexivity|].
  cbn [set_cstate map existsb fst snd]. apply orb_false_iff. split; [|exact IH].
  destruct (N.eqb_spec c0 c) as [->|Hc]; cbn [fst snd].
  - apply andb_false_r.
  - now apply N.eqb_neq in Hc; rewrite Hc.
Qed.

Lemma drop_container_not_running (c c' : container_id) (cs : list (container_id * cstate)) :
  existsb (fun e => (fst e =? c')
                    && match snd e with Running => true | _ => false end) cs = false ->
  existsb (fun e => (fst e =? c')
                    && match snd e with Running => true | _ => false end)
          (drop_container c cs) = false.
Proof.
  induction cs as [|[c0 st] cs IH]; [reflexivity|].
  cbn [drop_container filter existsb fst snd]. intros H.
  apply orb_false_iff in H. destruct H as [H0 H].
  destruct (c0 =? c); cbn [negb]; [now apply IH|].
  cbn [existsb fst snd]. apply orb_false_iff. split; [exact H0 | now apply IH].
Qed.

Lemma drop_container_gone (c : container_id) (cs : list (container_id * cstate)) :
  existsb (fun e => (fst e =? c)
                    && match snd e with Running => true | _ => false end)
          (drop_container c cs) = false.
Proof.
  induction cs as [|[c0 st] cs IH]; [reflexivity|].
  cbn [drop_container filter fst]. destruct (c0 =? c) eqn:E; cbn [negb]; [exact IH|].
  cbn [existsb fst snd]. rewrite E. cbn [andb orb]. exact IH.
Qed.

Lemma teardown_not_running (c c' : container_id) (w : world) :
  is_running c' w = false -> is_running c' (teardown c w) = false.
Proof.
  unfold is_running, teardownContainer, teardownRest, docker_stop, docker_remove.
  intros H.
  destruct (stop_ok c), (remove_ok c); cbn [containers set_containers log_call snd];
    auto using set_cstate_not_running, drop_container_not_running.
Qed.

Lemma teardown_stops (c : container_id) (w : world) :
  stop_ok c = true \/ remove_ok c = true -> is_running c (teardown c w) = false.
Proof.
  unfold is_running, teardownContainer, teardownRest, docker_stop, docker_remove.
  intros H.
  destruct (stop_ok c), (remove_ok c); cbn [containers set_containers log_call snd];
    auto using set_cstate_stops, drop_container_gone.
  destruct H; discriminate.
Qed.

(** ** [cleanupSession] *)

Lemma cleanup_absent (sid : string) (w : world) :
  map_get (activeSessions w) sid = None -> cleanupS sid w = w.
Proof. unfold cleanupSession. now intros ->. Qed.

Lemma cleanup_sessions (sid : string) (w : world) :
  activeSessions (cleanupS sid w) = map_delete (activeSessions w) sid.
Proof.
  unfold cleanupSession.
  destruct (map_get (activeSessions w) sid) eqn:E.
  - cbn [activeSessions set_sessions].
    now rewrite (teardown_sessions (container s) (clearTimeout (timeout s) w)).
  - now rewrite map_delete_absent.
Qed.

Lemma cleanup_present (sid : string) (s : session) (w : world) :
  map_get (activeSessions w) sid = Some s ->
  cleanupS sid w
  = set_sessions (map_delete (activeSessions w) sid)
      (teardown (container s) (clearTimeout (timeout s) w)).
Proof.
  intros E. unfold cleanupSession. rewrite E.
  now rewrite (teardown_sessions (container s) (clearTimeout (timeout s) w)).
Qed.

Lemma cleanup_calls_mono (sid : string) (w : world) (d : docker_call) :
  In d (calls w) -> In d (calls (cleanupS sid w)).
Proof.
  intros H. destruct (map_get (activeSessions w) sid) as [s|] eqn:E.
  - rewrite (cleanup_present _ _ _ E). cbn [calls set_sessions].
    rewrite (teardown_calls (container s)). apply in_or_app. now left.
  - now rewrite cleanup_absent.
Qed.

Lemma cleanup_not_running (sid : string) (w : world) (c : container_id) :
  is_running c w = false -> is_running c (cleanupS sid w) = false.
Proof.
  intros H. destruct (map_get (activeSessions w) sid) as [s|] eqn:E.
  - rewrite (cleanup_present _ _ _ E).
    change (is_running c (teardown (container s) (clearTimeout (timeout s) w)) = false).
    now apply teardown_not_running.
  - now rewrite cleanup_absent.
Qed.

Lemma cleanup_twice (sid : string) (w : world) :
  cleanupS sid (cleanupS sid w) = cleanupS sid w.
Proof.
  apply cleanup_absent. rewrite cleanup_sessions. apply map_get_delete_same.
Qed.

Lemma cleanupTimes_once (n : nat) (sid : string) (w : world) :
  cleanupTimes stop_ok remove_ok (S n) sid w = cleanupS sid w.
Proof.
  revert w. induction n as [|n IH]; intros w; [reflexivity|].
  change (cleanupTimes stop_ok remove_ok (S n) sid (cleanupS sid w) = cleanupS sid w).
  rewrite IH. apply cleanup_twice.
Qed.

Lemma count_stop_app (c : container_id) (l1 l2 : list docker_call) :
  List.length (filter (is_stop_of c) (l1 ++ l2))
  = (List.length (filter (is_stop_of c) l1) + List.length (filter (is_stop_of c) l2))%nat.
Proof. now rewrite filter_app, length_app. Qed.

End DaemonFacts.

(** C8: calling [cleanupSession] any number of times [n >= 1] for the
    same id is the same as calling it once: after the first call the id
    has no registry entry and every further call changes nothing.  For a
    registered session the calls together send exactly one teardown chain
    to the daemon (one stop), clear the session timer and delete the one
    registry entry. *)
Theorem cleanupSession_idempotent
        (stop_ok remove_ok : container_id -> bool)
        (sid : string) (w : world) (n : nat) :
  (1 <= n)%nat ->
  let w' := cleanupTimes stop_ok remove_ok n sid w in
  w' = cleanupSession stop_ok remove_ok sid w
  /\ map_get (activeSessions w') sid = None
  /\ cleanupSession stop_ok remove_ok sid w' = w'
  /\ (forall s, map_get (activeSessions w) sid = Some s ->
        activeSessions w' = map_delete (activeSessions w) sid
        /\ calls w' = calls w ++ CallStop (container s) :: CallRemove (container s)
                        :: (if stop_ok (container s) && negb (remove_ok (container s))
                            then [CallRemove (container s)] else [])
        /\ count_calls (is_stop_of (container s)) w'
           = S (count_calls (is_stop_of (container s)) w)
        /\ clearedTimers w' = clearedTimers w ++ [timeout s])
  /\ (map_get (activeSessions w) sid = None -> w' = w).
Proof.
  intros Hn w'. destruct n as [|n]; [lia|].
  assert (E : w' = cleanupSession stop_ok remove_ok sid w)
    by apply cleanupTimes_once.
  rewrite E. split; [reflexivity|]. split; [|split; [|split]].
  - rewrite cleanup_sessions. apply map_get_delete_same.
  - apply cleanup_twice.
  - intros s Hs. rewrite (cleanup_present _ _ _ _ _ Hs).
    cbn [activeSessions set_sessions calls clearedTimers].
    rewrite teardown_calls, teardown_timers. cbn [calls clearTimeout clearedTimers].
    repeat split.
    unfold count_calls. cbn [calls set_sessions]. rewrite teardown_calls.
    cbn [calls clearTimeout]. rewrite count_stop_app.
    cbn [filter is_stop_of]. rewrite N.eqb_refl.
    destruct (stop_ok (container s) && negb (remove_ok (container s)));
      cbn [filter is_stop_of length]; lia.
  - apply cleanup_absent.
Qed.

Lemma cleanupSession_idempotent_witness :
  let s := mkSession 7 [lit "hi"] [] 0 3 in
  let w := mkWorld [("a"%string, s)] [(7, Running)] [] [] in
  let w' := cleanupTimes (fun _ => true) (fun _ => true) 3 "a"%string w in
  w' = cleanupSession (fun _ => true) (fun _ => true) "a"%string w
  /\ activeSessions w' = []
  /\ calls w' = [CallStop 7; CallRemove 7].
Proof.
  intros s w w'.
  destruct (cleanupSession_idempotent (fun _ => true) (fun _ => true)
              "a"%string w 3 ltac:(lia)) as (H1 & _ & _ & H4 & _).
  destruct (H4 s eq_refl) as (H5 & H6 & _).
  split; [exact H1|]. split; [exact H5 | exact H6].
Defined.

(** ** Teardown chains that run after their caller has returned *)

Section StagedTeardown.

Variable stop_ok : container_id -> bool.
Variable remove_ok : container_id -> bool.

Local Notation "'stopOf'" :=
  (fun (w : world) (c : container_id) => snd (docker_stop stop_ok c w)).
Local Notation "'restOf'" :=
  (fun (w : world) (a : container_id * bool) =>
     teardownRest remove_ok (fst a) (snd a) w).
Local Notation "'answered'" := (map (fun c : container_id => (c, stop_ok c))).

Lemma docker_stop_answer (c : container_id) (w : world) :
  fst (docker_stop stop_ok c w) = stop_ok c.
Proof. unfold docker_stop. now destruct (stop_ok c). Qed.

Lemma stop_step (c : container_id) (w : world) :
  activeSessions (stopOf w c) = activeSessions w
  /\ clearedTimers (stopOf w c) = clearedTimers w
  /\ calls (stopOf w c) = calls w ++ [CallStop c]
  /\ (forall c', is_running c' w = false -> is_running c' (stopOf w c) = false)
  /\ (stop_ok c = true -> is_running c (stopOf w c) = false).
Proof.
  unfold docker_stop, is_running.
  destruct (stop_ok c); cbn [snd activeSessions clearedTimers calls containers
                             set_containers log_call];
    repeat split; auto using set_cstate_not_running, set_cstate_stops.
  discriminate.
Qed.

Lemma rest_step (c : container_id) (b : bool) (w : world) :
  activeSessions (teardownRest remove_ok c b w) = activeSessions w
  /\ clearedTimers (teardownRest remove_ok c b w) = clearedTimers w
  /\ (forall d, In d (calls w) -> In d (calls (teardownRest remove_ok c b w)))
  /\ (forall c', is_running c' w = false ->
                 is_running c' (teardownRest remove_ok c b w) = false)
  /\ (remove_ok c = true -> is_running c (teardownRest remove_ok c b w) = false).
Proof.
  unfold teardownRest, docker_remove, is_running.
  destruct b, (remove_ok c);
    cbn [snd activeSessions clearedTimers calls containers set_containers log_call];
    (split; [reflexivity|]); (split; [reflexivity|]);
    (split; [intros d Hd; rewrite ?in_app_iff; auto|]);
    (split; [auto using drop_container_not_running|]);
    auto using drop_container_gone; discriminate.
Qed.

Lemma answerStops_eq (queued : list container_id) (w : world)
      (acc : list (container_id * bool)) :
  fold_left
    (fun st c =>
       let (stopped, w') := docker_stop stop_ok c (fst st) in
       (w', snd st ++ [(c, stopped)]))
    queued (w, acc)
  = (fold_left stopOf queued w, acc ++ answered queued).
Proof.
  revert w acc. induction queued as [|c q IH]; intros w acc.
  - cbn. now rewrite app_nil_r.
  - cbn [fold_left fst snd map].
    pose proof (docker_stop_answer c w) as Hf.
    destruct (docker_stop stop_ok c w) as [stopped w'].
    cbn [fst snd] in *. subst stopped.
    rewrite IH. now rewrite <- app_assoc.
Qed.

Lemma settleTeardowns_eq (queued : list container_id) (w : world) :
  settleTeardowns stop_ok remove_ok (w, queued)
  = fold_left restOf (answered queued) (fold_left stopOf queued w).
Proof.
  unfold settleTeardowns, answerStops. cbn [fst snd].
  now rewrite answerStops_eq.
Qed.

Lemma stops_facts (queued : list container_id) (w : world) :
  activeSessions (fold_left stopOf queued w) = activeSessions w
  /\ clearedTimers (fold_left stopOf queued w) = clearedTimers w
  /\ calls (fold_left stopOf queued w) = calls w ++ map CallStop queued
  /\ (forall c, is_running c w = false ->
                is_running c (fold_left stopOf queued w) = false)
  /\ (forall c, In c queued -> stop_ok c = true ->
                is_running c (fold_left stopOf queued w) = false).
Proof.
  revert w. induction queued as [|c0 q IH]; intros w.
  - cbn [fold_left map]. rewrite app_nil_r. repeat split; auto. intros c [].
  - cbn [fold_left map].
    destruct (IH (stopOf w c0)) as (I1 & I2 & I3 & I4 & I5).
    destruct (stop_step c0 w) as (S1 & S2 & S3 & S4 & S5).
    split; [congruence|]. split; [congruence|].
    split; [rewrite I3, S3; now rewrite <- app_assoc|].
    split; [auto|].
    intros c [<-|Hin] Hok; auto.
Qed.

Lemma rests_facts (l : list (container_id * bool)) (w : world) :
  activeSessions (fold_left restOf l w) = activeSessions w
  /\ clearedTimers (fold_left restOf l w) = clearedTimers w
  /\ (forall d, In d (calls w) -> In d (calls (fold_left restOf l w)))
  /\ (forall c, is_running c w = false ->
                is_running c (fold_left restOf l w) = false)
  /\ (forall c b, In (c, b) l -> remove_ok c = true ->
                  is_running c (fold_left restOf l w) = false).
Proof.
  revert w. induction l as [|[c0 b0] l IH]; intros w.
  - cbn [fold_left]. repeat split; auto. intros c b [].
  - cbn [fold_left fst snd].
    destruct (IH (teardownRest remove_ok c0 b0 w)) as (I1 & I2 & I3 & I4 & I5).
    destruct (rest_step c0 b0 w) as (R1 & R2 & R3 & R4 & R5).
    split; [congruence|]. split; [congruence|].
    split; [auto|]. split; [auto|].
    intros c b [E|Hin] Hok; [|eauto].
    injection E as <- <-. auto.
Qed.

(** What the event loop leaves once it has run the chains of the queued
    stops: the registry and the timers are as they were, every queued
    container got its stop request, and it is not running when the daemon
    honours the stop or the removal. *)
Lemma settleTeardowns_facts (queued : list container_id) (w : world) :
  let w' := settleTeardowns stop_ok remove_ok (w, queued) in
  activeSessions w' = activeSessions w
  /\ clearedTimers w' = clearedTimers w
  /\ (forall d, In d (calls w) -> In d (calls w'))
  /\ (forall c, In c queued -> In (CallStop c) (calls w'))
  /\ (forall c, is_running c w = false -> is_running c w' = false)
  /\ (forall c, In c queued -> stop_ok c = true \/ remove_ok c = true ->
                is_running c w' = false).
Proof.
  cbv zeta. rewrite settleTeardowns_eq.
  destruct (stops_facts queued w) as (S1 & S2 & S3 & S4 & S5).
  destruct (rests_facts (answered queued) (fold_left stopOf queued w))
    as (R1 & R2 & R3 & R4 & R5).
  split; [congruence|]. split; [congruence|].
  split; [intros d Hd; apply R3; rewrite S3; apply in_or_app; now left|].
  split; [intros c Hc; apply R3; rewrite S3; apply in_or_app; right;
          now apply in_map|].
  split; [auto|].
  intros c Hc [Hok|Hok]; [now apply R4, S5|].
  apply (R5 c (stop_ok c)); [|exact Hok].
  apply in_map_iff. now exists c.
Qed.

(** A call of [cleanupSession] alone: its body, then its chain. *)
Lemma cleanupSession_staged (sid : string) (w : world) :
  cleanupSession stop_ok remove_ok sid w
  = settleTeardowns stop_ok remove_ok (cleanupSessionBody sid (w, [])).
Proof.
  unfold cleanupSession, cleanupSessionBody.
  destruct (map_get (activeSessions w) sid) as [s|]; [|reflexivity].
  rewrite settleTeardowns_eq. cbn [app map fold_left fst snd].
  unfold teardownContainer, docker_stop, teardownRest, docker_remove.
  destruct (stop_ok (container s)), (remove_ok (container s)); reflexivity.
Qed.

Lemma body_facts (sid : string) (w : world) (queued : list container_id) :
  let st := cleanupSessionBody sid (w, queued) in
  activeSessions (fst st) = map_delete (activeSessions w) sid
  /\ calls (fst st) = calls w /\ containers (fst st) = containers w
  /\ (forall c, In c queued -> In c (snd st))
  /\ (forall t, In t (clearedTimers w) -> In t (clearedTimers (fst st)))
  /\ (forall s, map_get (activeSessions w) sid = Some s ->
                In (container s) (snd st)
                /\ In (timeout s) (clearedTimers (fst st))).
Proof.
  cbv zeta. unfold cleanupSessionBody.
  destruct (map_get (activeSessions w) sid) as [s|] eqn:E;
    cbn [fst snd activeSessions calls containers clearedTimers set_sessions
         clearTimeout].
  - split; [reflexivity|]. split; [reflexivity|]. split; [reflexivity|].
    split; [intros c Hc; apply in_or_app; now left|].
    split; [intros t Ht; apply in_or_app; now left|].
    intros s' Hs'. injection Hs' as <-.
    split; apply in_or_app; right; now left.
  - rewrite (map_delete_absent _ _ E).
    split; [reflexivity|]. split; [reflexivity|]. split; [reflexivity|].
    split; [auto|]. split; [auto|]. discriminate.
Qed.

Section Selected.

(** The loop of the sweep and the loop of the shutdown handler: the body
    of [cleanupSession] for the entries picked by [sel]. *)
Variable sel : string * session -> bool.

Local Notation "'pick'" :=
  (fun (st : world * list container_id) (e : string * session) =>
     if sel e then cleanupSessionBody (fst e) st else st).

Lemma loop_sessions (es : list (string * session)) (w : world)
      (queued : list container_id) :
  forall e, In e (activeSessions (fst (fold_left pick es (w, queued))))
            <-> In e (activeSessions w)
                /\ forall e', In e' es -> sel e' = true -> fst e <> fst e'.
Proof.
  revert w queued. induction es as [|e0 es IH]; intros w queued e.
  - cbn [fold_left fst]. split; [intros H; split; [exact H | intros ? []] | tauto].
  - cbn [fold_left]. destruct (sel e0) eqn:E0.
    + destruct (cleanupSessionBody (fst e0) (w, queued)) as [w1 q1] eqn:E1.
      rewrite IH.
      pose proof (body_facts (fst e0) w queued) as H. cbv zeta in H.
      rewrite E1 in H. cbn [fst snd] in H. destruct H as (H & _).
      rewrite H, map_delete_in. split.
      * intros [[H1 H2] H3]. split; [exact H1|].
        intros e' [<-|He']; [intros _; exact H2 | now apply H3].
      * intros [H1 H2]. split; [split; [exact H1|]|].
        -- apply H2; [now left | exact E0].
        -- intros e' He'. apply H2. now right.
    + rewrite IH. split.
      * intros [H1 H2]. split; [exact H1|].
        intros e' [<-|He']; [congruence | now apply H2].
      * intros [H1 H2]. split; [exact H1|].
        intros e' He'. apply H2. now right.
Qed.

Lemma loop_daemon (es : list (string * session)) (w : world)
      (queued : list container_id) :
  calls (fst (fold_left pick es (w, queued))) = calls w
  /\ containers (fst (fold_left pick es (w, queued))) = containers w
  /\ (forall c, In c queued -> In c (snd (fold_left pick es (w, queued))))
  /\ (forall t, In t (clearedTimers w) ->
                In t (clearedTimers (fst (fold_left pick es (w, queued))))).
Proof.
  revert w queued. induction es as [|e0 es IH]; intros w queued.
  - cbn [fold_left fst snd]. auto.
  - cbn [fold_left]. destruct (sel e0); [|apply IH].
    pose proof (body_facts (fst e0) w queued) as H. cbv zeta in H.
    destruct (cleanupSessionBody (fst e0) (w, queued)) as [w1 q1].
    cbn [fst snd] in H. destruct H as (_ & H2 & H3 & H4 & H5 & _).
    destruct (IH w1 q1) as (I1 & I2 & I3 & I4).
    split; [congruence|]. split; [congruence|]. split; auto.
Qed.

Lemma loop_queues (es : list (string * session)) (w : world)
      (queued : list container_id) (sid : string) (s : session) :
  NoDup (map fst es) ->
  (forall e, In e es -> map_get (activeSessions w) (fst e) = Some (snd e)) ->
  In (sid, s) es -> sel (sid, s) = true ->
  In (container s) (snd (fold_left pick es (w, queued)))
  /\ In (timeout s) (clearedTimers (fst (fold_left pick es (w, queued)))).
Proof.
  revert w queued. induction es as [|e0 es IH]; intros w queued Hn Hget Hin Hsel;
    [destruct Hin|].
  cbn [map] in Hn. inversion Hn as [|? ? Hnot Hn']; subst.
  cbn [fold_left]. destruct Hin as [->|Hin].
  - rewrite Hsel. cbn [fst].
    assert (Hs : map_get (activeSessions w) sid = Some s)
      by (apply (Hget (sid, s)); now left).
    pose proof (body_facts sid w queued) as H. cbv zeta in H.
    destruct (cleanupSessionBody sid (w, queued)) as [w1 q1].
    cbn [fst snd] in H. destruct H as (_ & _ & _ & _ & _ & H).
    destruct (H s Hs) as [Hq Ht].
    destruct (loop_daemon es w1 q1) as (_ & _ & L3 & L4). auto.
  - assert (Hrest : forall w1 q1,
               activeSessions w1 = activeSessions w
               \/ activeSessions w1 = map_delete (activeSessions w) (fst e0) ->
               In (container s) (snd (fold_left pick es (w1, q1)))
               /\ In (timeout s) (clearedTimers (fst (fold_left pick es (w1, q1))))).
    { intros w1 q1 Hw1. apply IH; auto.
      intros e He.
      assert (Hne : fst e <> fst e0).
      { intros Heq. apply Hnot. rewrite <- Heq. now apply in_map. }
      destruct Hw1 as [-> | ->].
      - apply Hget. now right.
      - rewrite map_get_delete_other by exact Hne. apply Hget. now right. }
    destruct (sel e0).
    + pose proof (body_facts (fst e0) w queued) as H. cbv zeta in H.
      destruct (cleanupSessionBody (fst e0) (w, queued)) as [w1 q1].
      cbn [fst snd] in H. destruct H as (H & _).
      apply Hrest. now right.
    + apply Hrest. now left.
Qed.

Lemma loop_NoDup (es : list (string * session)) (w : world)
      (queued : list container_id) :
  NoDup (map fst (activeSessions w)) ->
  NoDup (map fst (activeSessions (fst (fold_left pick es (w, queued))))).
Proof.
  revert w queued. induction es as [|e0 es IH]; intros w queued H; [exact H|].
  cbn [fold_left]. destruct (sel e0); [|now apply IH].
  pose proof (body_facts (fst e0) w queued) as Hb. cbv zeta in Hb.
  destruct (cleanupSessionBody (fst e0) (w, queued)) as [w1 q1].
  cbn [fst snd] in Hb. destruct Hb as (Hb & _).
  apply IH. rewrite Hb. now apply map_delete_NoDup.
Qed.

End Selected.

End StagedTeardown.

(** ** The expiry sweep *)

(** C9: after the expiry sweep no session created more than five minutes
    before [now] is left in the registry, whatever chunks it has received;
    a stop request has been sent for the container of every such session,
    which is no longer running when the daemon honours the stop or the
    forced removal; younger sessions are kept. *)
Theorem expirySweep_removes_expired
        (stop_ok remove_ok : container_id -> bool) (now : Z) (w : world) :
  NoDup (map fst (activeSessions w)) ->
  let w' := expirySweep stop_ok remove_ok now w in
  (forall sid s, In (sid, s) (activeSessions w') ->
                 (now - createdAt s <= 5 * 60 * 1000)%Z)
  /\ (forall sid s, In (sid, s) (activeSessions w) ->
                    (now - createdAt s > 5 * 60 * 1000)%Z ->
        map_get (activeSessions w') sid = None
        /\ In (CallStop (container s)) (calls w')
        /\ (stop_ok (container s) = true \/ remove_ok (container s) = true ->
            is_running (container s) w' = false))
  /\ (forall sid s, In (sid, s) (activeSessions w) ->
                    (now - createdAt s <= 5 * 60 * 1000)%Z ->
        In (sid, s) (activeSessions w')).
Proof.
  intros Hn w'.
  assert (E : w' = settleTeardowns stop_ok remove_ok
                     (fold_left
                        (fun st e => if expired now e
                                     then cleanupSessionBody (fst e) st else st)
                        (activeSessions w) (w, []))) by reflexivity.
  clearbody w'.
  pose proof (loop_sessions (expired now) (activeSessions w) w []) as Ls.
  pose proof (fun sid s => loop_queues (expired now) (activeSessions w) w [] sid s Hn)
    as Lq.
  destruct (fold_left _ (activeSessions w) (w, [])) as [w1 queued].
  cbn [fst snd] in Ls, Lq.
  pose proof (settleTeardowns_facts stop_ok remove_ok queued w1) as Hf.
  cbv zeta in Hf. rewrite <- E in Hf.
  destruct Hf as (F1 & _ & _ & F4 & _ & F6).
  assert (Hget : forall e, In e (activeSessions w) ->
                           map_get (activeSessions w) (fst e) = Some (snd e))
    by (intros [k v] He; now apply map_get_in_nodup).
  split; [|split].
  - intros sid s H. rewrite F1 in H. apply Ls in H. destruct H as [H1 H2].
    destruct (now - createdAt s >? 5 * 60 * 1000)%Z eqn:Eg.
    + now destruct (H2 (sid, s) H1 Eg).
    + rewrite Z.gtb_ltb in Eg. apply Z.ltb_ge in Eg. lia.
  - intros sid s Hin Hage.
    assert (Hexp : expired now (sid, s) = true).
    { unfold expired. cbn [snd]. rewrite Z.gtb_ltb. apply Z.ltb_lt. lia. }
    destruct (Lq sid s Hget Hin Hexp) as [Hq _].
    split; [|split].
    + apply map_get_none_iff. intros e He. rewrite F1 in He. apply Ls in He.
      destruct He as [_ He]. exact (He (sid, s) Hin Hexp).
    + now apply F4.
    + now apply F6.
  - intros sid s Hin Hage. rewrite F1. apply Ls. split; [exact Hin|].
    intros [k v] He Hexp Heq. cbn [fst] in Heq. subst k.
    assert (v = s).
    { pose proof (map_get_in_nodup _ _ _ Hn Hin) as H1.
      pose proof (map_get_in_nodup _ _ _ Hn He) as H2. congruence. }
    subst v. unfold expired in Hexp. cbn [snd] in Hexp.
    rewrite Z.gtb_ltb in Hexp. apply Z.ltb_lt in Hexp. lia.
Qed.

Lemma expirySweep_removes_expired_witness :
  let old := mkSession 1 [lit "tick"] [] 0 11 in
  let young := mkSession 2 [] [] 200000 12 in
  let w := mkWorld [("old"%string, old); ("young"%string, young)]
                   [(1, Running); (2, Running)] [] [] in
  let w' := expirySweep (fun _ => true) (fun _ => false) 400000 w in
  map_get (activeSessions w') "old"%string = None
  /\ In (CallStop 1) (calls w')
  /\ is_running 1 w' = false
  /\ In ("young"%string, young) (activeSessions w').
Proof.
  intros old young w w'.
  assert (Hn : NoDup (map fst (activeSessions w))).
  { cbn. repeat constructor; cbn; intuition discriminate. }
  destruct (expirySweep_removes_expired (fun _ => true) (fun _ => false) 400000 w Hn)
    as (_ & H2 & H3).
  destruct (H2 "old"%string old (or_introl eq_refl) eq_refl) as (Ha & Hb & Hc).
  split; [exact Ha | split; [exact Hb | split; [apply Hc; now left|]]].
  apply H3; [right; now left | cbn; lia].
Defined.

(** ** The stream handlers and the history *)

(** With the session's own handler alone (the new-run path), every chunk
    that is not typed [stderr] is appended once, cleaned, in arrival
    order. *)
Lemma deliver_history (events : list (stream_type * jsstring))
      (s : session) (currentOutput : jsstring) :
  stdoutChunks (fst (deliver events (s, currentOutput)))
  = stdoutChunks s
    ++ map (fun e => bufferText (cleanChunk (snd e)))
           (filter (fun e => negb (is_stderr (fst e))) events).
Proof.
  unfold deliver. revert s currentOutput.
  induction events as [|[ty ch] events IH]; intros s cur.
  - cbn. now rewrite app_nil_r.
  - cbn [fold_left fst snd]. destruct ty; cbn [sessionDataHandler];
      rewrite IH; cbn [stdoutChunks filter is_stderr negb fst snd map];
      now rewrite <- ?app_assoc.
Qed.

(** While [waitForOutput] is subscribed, its [dataHandler] appends the
    cleaned chunk as well, after the session's handler has. *)
Lemma emitData_history (type : stream_type) (chunk : jsstring)
      (s : session) (currentOutput : jsstring) (w : waiter) :
  listening w = true ->
  stdoutChunks (fst (fst (emitData type chunk ((s, currentOutput), w))))
  = stdoutChunks s
    ++ (if is_stderr type then [] else [bufferText (cleanChunk chunk)])
    ++ [bufferText (cleanChunk chunk)].
Proof.
  intros Hl. unfold emitData, dataHandler.
  destruct type; cbn [sessionDataHandler listening]; rewrite Hl; cbn [negb];
    match goal with |- context [if ?b then _ else _] => destruct b end;
    cbn [fst stdoutChunks push_stdout is_stderr app];
    now rewrite <- ?app_assoc.
Qed.

(** C2 (the code at the failing input): one stdout chunk delivered while
    [waitForOutput] is subscribed ends up twice in [stdoutChunks]. *)
Theorem waitForOutput_records_chunk_twice (s : session) (currentOutput : jsstring) :
  stdoutChunks
    (fst (fst (waitForOutput s currentOutput [EvData Stdout (lit "42" ++ [LF])])))
  = stdoutChunks s ++ [lit "42" ++ [LF]; lit "42" ++ [LF]].
Proof.
  unfold waitForOutput. cbn [fold_left wait_step].
  now rewrite emitData_history.
Qed.

(** ** The new-run path *)

(** C1 (the code at the failing input): for [print("hi")], whose only
    output is the chunk "hi" and a line feed (delivered as a stdout chunk,
    or unlabelled behind its 8-byte frame header), the response carries
    that output but reports [waitingForInput] with the prompt "hi". *)
Theorem scenario_A_reports_waiting
        (stop_ok remove_ok : container_id -> bool) (fid sid : string)
        (c : container_id) (t : timer_id) (now : Z) (w : world) :
  snd (executeNew stop_ok remove_ok
         (mkRunEnv fid sid true (inr c) None None t now [(Stdout, lit "hi" ++ [LF])])
         printHi (lit "python") w)
  = mkResponse 200 (RunBody (lit "hi" ++ [LF]) sid true (lit "hi"))
  /\ snd (executeNew stop_ok remove_ok
            (mkRunEnv fid sid true (inr c) None None t now
               [(Untyped, [1; 0; 0; 0; 0; 0; 0; 3] ++ lit "hi" ++ [LF])])
            printHi (lit "python") w)
     = mkResponse 200 (RunBody (lit "hi" ++ [LF]) sid true (lit "hi")).
Proof. split; reflexivity. Qed.

(** When the daemon refuses to create the container, nothing is added to
    the daemon or to the registry and the response carries the error. *)
Lemma create_failure_leaves_nothing
      (stop_ok remove_ok : container_id -> bool) (env : run_env)
      (message : jsstring) (w : world) :
  write_ok env = true -> create_result env = inl message ->
  map_get (activeSessions w) (newSessionId env) = None ->
  executeNew stop_ok remove_ok env printHi (lit "python") w
  = (w, mkResponse 200 (ErrorBody (messageOrDefault message) (Some []))).
Proof.
  intros Hw Hc Hs. unfold executeNew.
  change printHi with (112 :: tl printHi). cbv iota.
  change (jseqb (lit "python") (lit "python")) with true. cbn [negb].
  rewrite Hw, Hc. cbn [negb]. unfold runFailed. now rewrite cleanup_absent.
Qed.

Lemma is_running_started (c : container_id) (cs : list (container_id * cstate)) :
  existsb (fun e => (fst e =? c)
                    && match snd e with Running => true | _ => false end)
          (set_cstate c Running (cs ++ [(c, Created)])) = true.
Proof.
  unfold set_cstate. rewrite map_app, existsb_app. cbn [map existsb fst snd].
  rewrite N.eqb_refl. cbn [fst snd]. rewrite N.eqb_refl. cbn.
  apply orb_true_r.
Qed.

(** Whatever the state of the server, when the attach call throws on a
    freshly created and started container, no stop or removal is sent:
    the container is left running and outside the registry. *)
Lemma attach_failure_never_tears_down
      (stop_ok remove_ok : container_id -> bool) (env : run_env)
      (c : container_id) (message : jsstring) (w : world) :
  write_ok env = true -> create_result env = inr c ->
  start_error env = None -> attach_error env = Some message ->
  map_get (activeSessions w) (newSessionId env) = None ->
  let result := executeNew stop_ok remove_ok env printHi (lit "python") w in
  snd result = mkResponse 200 (ErrorBody (messageOrDefault message) (Some []))
  /\ calls (fst result) = calls w ++ [CallCreate c; CallStart c; CallAttach c]
  /\ is_running c (fst result) = true
  /\ activeSessions (fst result) = activeSessions w.
Proof.
  intros Hw Hc Hs Ha Hr. unfold executeNew.
  change printHi with (112 :: tl printHi). cbv iota.
  change (jseqb (lit "python") (lit "python")) with true. cbn [negb].
  rewrite Hw, Hc, Hs, Ha. cbn [negb]. unfold runFailed.
  rewrite cleanup_absent by exact Hr.
  cbn [fst snd].
  split; [reflexivity|]. split; [|split; [|reflexivity]].
  - cbn [calls log_call set_containers]. now rewrite <- !app_assoc.
  - apply is_running_started.
Qed.

(** C3 (the code at the failing input): the container was created and
    started and the attach call throws; the error response is sent, the
    registry has no entry for the new id, so [cleanupSession] does
    nothing: no stop or removal is sent and the container keeps
    running. *)
Theorem attach_failure_leaves_container_running
        (stop_ok remove_ok : container_id -> bool) (fid sid : string)
        (c : container_id) (t : timer_id) (now : Z) (message : jsstring) :
  let env := mkRunEnv fid sid true (inr c) None (Some message) t now [] in
  let result := executeNew stop_ok remove_ok env printHi (lit "python")
                  (mkWorld [] [] [] []) in
  snd result = mkResponse 200 (ErrorBody (messageOrDefault message) (Some []))
  /\ calls (fst result) = [CallCreate c; CallStart c; CallAttach c]
  /\ containers (fst result) = [(c, Running)]
  /\ is_running c (fst result) = true
  /\ activeSessions (fst result) = [].
Proof.
  cbn. rewrite N.eqb_refl. cbn. now rewrite N.eqb_refl.
Qed.

(** ** The absolute timeout of [waitForOutput] *)

Example msgExited_two : msgExited 2 = lit "Program exited with code 2".
Proof. reflexivity. Qed.

(** C5 (as amended): when the absolute timer fires on a pending wait, the
    session's accumulated stdout history decides first.  If it is empty,
    the container is inspected once and its status gives the outcome:
    running resolves with the still-running message, exit code 0 resolves
    with the completed-without-output message, any other exit code rejects
    with a message carrying that code (a failed inspection rejects too).
    If the history is not empty the wait resolves with the history and the
    container is not inspected, whether or not a chunk arrived during this
    wait.  In every case the listeners and timers are released. *)
Theorem timeout_outcome (info : inspect_result) (s : session) (w : waiter) :
  timeoutPending w = true -> settled w = None ->
  let s' := fst (timeoutElapsed info (s, w)) in
  let w' := snd (timeoutElapsed info (s, w)) in
  s' = s
  /\ listening w' = false /\ timeoutPending w' = false /\ quietTimer w' = false
  /\ match join (stdoutChunks s) with
     | [] =>
         inspections w' = S (inspections w)
         /\ settled w'
            = Some match info with
                   | Inspected true _ => Resolved msgStillRunning
                   | Inspected false N0 => Resolved msgNoOutput
                   | Inspected false (Npos p) => Rejected (msgExited (Npos p))
                   | InspectFailed => Rejected msgInspectFailed
                   end
     | (_ :: _) as history =>
         inspections w' = inspections w /\ settled w' = Some (Resolved history)
     end.
Proof.
  intros Hp Hs. unfold timeoutElapsed. rewrite Hp. cbn [negb].
  destruct (join (stdoutChunks s)) as [|a h].
  - destruct info as [[|] [|p]|]; cbn; unfold settle; cbn; rewrite Hs; cbn;
      repeat split.
  - cbn. unfold settle. cbn. rewrite Hs. cbn. repeat split.
Qed.

Lemma timeout_outcome_witness :
  let s := mkSession 1 [] [] 0 0 in
  settled (snd (timeoutElapsed (Inspected false 2) (s, newWaiter)))
  = Some (Rejected (lit "Program exited with code 2"))
  /\ inspections (snd (timeoutElapsed (Inspected false 2) (s, newWaiter))) = 1%nat.
Proof.
  intros s.
  destruct (timeout_outcome (Inspected false 2) s newWaiter eq_refl eq_refl)
    as (_ & _ & _ & _ & H).
  cbn [join stdoutChunks s concat] in H. destruct H as [H1 H2].
  split; [exact H2 | exact H1].
Defined.

(** C5 (counterexample): a wait during which no chunk arrives, on a session whose earlier
    history is not empty: the five-second check finds the container
    running, then the container exits with code 1 and the absolute timer
    fires.  The wait resolves with the earlier history; the timer does
    not inspect the container and no error carries the exit code. *)
Lemma timeout_with_history_ignores_status :
  let history := lit "done." ++ [LF; LF] in
  let s := mkSession 1 [history] [] 0 0 in
  let before := snd (waitForOutput s [] [EvInitialCheck (Inspected true 0)]) in
  let after := snd (waitForOutput s []
                      [EvInitialCheck (Inspected true 0); EvTimeout (Inspected false 1)]) in
  dataReceived after = false /\ output after = []
  /\ settled before = None /\ timeoutPending before = true
  /\ inspections after = inspections before
  /\ settled after = Some (Resolved history)
  /\ settled after <> Some (Rejected (msgExited 1)).
Proof.
  cbv zeta. repeat split.
  intros H. vm_compute in H. discriminate H.
Qed.

(* ================================================================== *)
(** * Further properties *)

(** ** The sanitizer: length and plain text *)

Lemma replaceAll_from_length (r : regex) (s : jsstring) :
  forall skip, (length (replaceAll_from r [] skip s) <= length s)%nat.
Proof.
  induction s as [|a t IH]; intros skip.
  - cbn [replaceAll_from]. destruct skip; [destruct (match_at r [])|]; cbn; lia.
  - cbn [replaceAll_from]. destruct skip as [|n].
    + destruct (match_at r (a :: t)) as [rest|].
      * destruct (length (a :: t) - length rest)%nat; cbn [app length].
        -- specialize (IH 0%nat). lia.
        -- specialize (IH n). lia.
      * cbn [length]. specialize (IH 0%nat). lia.
    + specialize (IH n). cbn [length]. lia.
Qed.

Lemma stripFrameHeader_length (s : jsstring) :
  (length (stripFrameHeader s) <= length s)%nat.
Proof.
  destruct (stripFrameHeader_cases s) as [E|E]; rewrite E; [lia|].
  rewrite length_skipn. lia.
Qed.

Lemma normalizeCRLF_length (s : jsstring) :
  (length (normalizeCRLF s) <= length s)%nat.
Proof.
  induction s as [s IH] using (well_founded_induction
                                  (Wf_nat.well_founded_ltof _ (@length char16))).
  unfold Wf_nat.ltof in IH.
  destruct s as [|a t]; [cbn; lia|].
  destruct ((a =? CR) && match t with c' :: _ => c' =? LF | [] => false end) eqn:E.
  - apply andb_prop in E. destruct E as [Ea Et].
    destruct t as [|b t]; [discriminate|].
    apply N.eqb_eq in Ea, Et. subst a b.
    rewrite normalizeCRLF_pair. cbn [length].
    specialize (IH t ltac:(cbn [length]; lia)). lia.
  - rewrite normalizeCRLF_other by exact E. cbn [length].
    specialize (IH t ltac:(cbn [length]; lia)). lia.
Qed.

Lemma plainText_forall (s : jsstring) :
  plainText s = true ->
  (forall c, In c s -> is_stripped_control c = false) /\ ~ In CR s /\ ~ In LBRACE s.
Proof.
  unfold plainText. rewrite forallb_forall. intros H. repeat split.
  - intros c Hc. specialize (H c Hc). unfold plainChar in H.
    apply andb_prop in H. destruct H as [H _]. apply andb_prop in H.
    destruct H as [H _]. now apply negb_true_iff.
  - intros Hc. specialize (H CR Hc). discriminate.
  - intros Hc. specialize (H LBRACE Hc). discriminate.
Qed.

Lemma hasCRLF_without_CR (s : jsstring) : ~ In CR s -> hasCRLF s = false.
Proof.
  induction s as [|a t IH]; [reflexivity|]. intros H.
  cbn [hasCRLF]. rewrite IH by (intros Ht; apply H; now right).
  destruct (N.eqb_spec a CR) as [->|_]; [destruct H; now left | reflexivity].
Qed.

Lemma stripFrameHeader_plain (s : jsstring) :
  (forall c, In c s -> is_stripped_control c = false) -> stripFrameHeader s = s.
Proof.
  intros H. destruct s as [|a t]; [reflexivity|].
  apply stripFrameHeader_other_head. intros ->.
  specialize (H 1 (or_introl eq_refl)). discriminate.
Qed.

Lemma cleanChunk_plain (s : jsstring) : plainText s = true -> cleanChunk s = s.
Proof.
  intros H. apply plainText_forall in H. destruct H as (Hc & _ & Hb).
  unfold cleanChunk.
  now rewrite (stripFrameHeader_plain _ Hc), (stripControl_id _ Hc),
    (stripAttachOptions_id _ Hb).
Qed.

Lemma cleanForResponse_plain (s : jsstring) :
  plainText s = true -> cleanForResponse s = s.
Proof.
  intros H. apply plainText_forall in H. destruct H as (Hc & Hr & Hb).
  unfold cleanForResponse.
  now rewrite (stripFrameHeader_plain _ Hc), (normalizeCRLF_id _ (hasCRLF_without_CR _ Hr)),
    (stripControl_id _ Hc), (stripAttachOptions_id _ Hb).
Qed.

(** X1: none of the cleaning pipelines ever makes a text longer:
    [cleanDockerOutput], the per-chunk cleaning of the stream handlers and
    the cleaning applied before a response only delete code units or
    replace two by one. *)
Theorem sanitizers_never_lengthen (x : jsstring) :
  (length (cleanDockerOutput x) <= length x)%nat
  /\ (length (cleanChunk x) <= length x)%nat
  /\ (length (cleanForResponse x) <= length x)%nat.
Proof.
  pose proof (stripFrameHeader_length x) as Hh.
  pose proof (normalizeCRLF_length (stripFrameHeader x)) as Hn.
  unfold cleanDockerOutput, cleanChunk, cleanForResponse,
    stripFlagObjects, stripAttachOptions, stripControl, replaceAll.
  repeat match goal with
         | |- context [replaceAll_from ?r [] 0 ?s] =>
             lazymatch goal with
             | _ : (length (replaceAll_from r [] 0 s) <= length s)%nat |- _ => fail
             | _ => pose proof (replaceAll_from_length r s 0)
             end
         end.
  repeat split; lia.
Qed.

(** X2: text made of code units the cleaning steps do not look for (none
    of the stripped control class, no carriage return, no opening brace)
    comes out of every cleaning pipeline unchanged. *)
Theorem plain_text_is_untouched (x : jsstring) :
  plainText x = true ->
  cleanDockerOutput x = x /\ cleanChunk x = x /\ cleanForResponse x = x
  /\ editorCleanOutput x = x.
Proof.
  intros H. pose proof (plainText_forall _ H) as (Hc & Hr & Hb).
  assert (E : cleanDockerOutput x = x)
    by (apply cleanDockerOutput_fixed; auto using hasCRLF_without_CR).
  repeat split; auto using cleanChunk_plain, cleanForResponse_plain.
Qed.

Lemma plain_text_is_untouched_witness :
  cleanDockerOutput (lit "total: 42" ++ [LF; TAB] ++ lit "done") 
  = lit "total: 42" ++ [LF; TAB] ++ lit "done".
Proof.
  apply (plain_text_is_untouched (lit "total: 42" ++ [LF; TAB] ++ lit "done")).
  reflexivity.
Defined.

(** X3: a chunk that arrives behind the 8-byte header of a stdout frame
    (stream type 1, six zero bytes, then a size byte) is recorded without
    the header: for a plain payload the stream handler stores exactly the
    payload, whatever the size byte is. *)
Theorem framed_chunk_is_unframed (size : char16) (payload : jsstring) :
  size <= 65535 -> plainText payload = true ->
  cleanChunk (stdoutFrame size payload) = payload
  /\ cleanDockerOutput (stdoutFrame size payload) = payload.
Proof.
  intros Hs H.
  assert (Hh : stripFrameHeader (stdoutFrame size payload) = payload).
  { unfold stripFrameHeader, replaceAtStart, match_at, frameHeader, Lit1, stdoutFrame.
    cbn [app exec N.eqb Pos.eqb]. unfold in_range.
    destruct (N.leb_spec 0 size); [|lia].
    destruct (N.leb_spec size 65535); [reflexivity | lia]. }
  pose proof (plainText_forall _ H) as (Hc & Hr & Hb).
  unfold cleanChunk, cleanDockerOutput. rewrite Hh.
  rewrite (normalizeCRLF_id _ (hasCRLF_without_CR _ Hr)), (stripControl_id _ Hc),
    (stripAttachOptions_id _ Hb), (stripFlagObjects_id _ Hb).
  now split.
Qed.

Lemma framed_chunk_is_unframed_witness :
  cleanChunk (stdoutFrame 3 (lit "hi" ++ [LF])) = lit "hi" ++ [LF].
Proof.
  apply (framed_chunk_is_unframed 3 (lit "hi" ++ [LF])); [cbv; discriminate | reflexivity].
Defined.

(** ** The heuristic: what is always classified as waiting *)

Lemma exec_Chr_cons {A : Type} (p : char16 -> bool) (c : char16) (t : jsstring)
      (k : jsstring -> option A) :
  exec (Chr p) (c :: t) k = if p c then k t else None.
Proof. reflexivity. Qed.

Lemma exec_Cat {A : Type} (a b : regex) (s : jsstring) (k : jsstring -> option A) :
  exec (Cat a b) s k = exec a s (fun s' => exec b s' k).
Proof. reflexivity. Qed.

Lemma exec_Eps {A : Type} (s : jsstring) (k : jsstring -> option A) :
  exec Eps s k = k s.
Proof. reflexivity. Qed.

Lemma test_here (r : regex) (s rest : jsstring) :
  match_at r s = Some rest -> test r s = true.
Proof. intros H. destruct s; cbn [test]; now rewrite H. Qed.

Lemma test_app (r : regex) (s1 s2 : jsstring) :
  test r s2 = true -> test r (s1 ++ s2) = true.
Proof.
  intros H. induction s1 as [|a s1 IH]; [exact H|].
  cbn [app test]. destruct (match_at r (a :: s1 ++ s2)); [reflexivity | exact IH].
Qed.

Lemma isWaitingForInput_eq (z : jsstring) :
  isWaitingForInput z
  = inputDetection (cleanForDetection z)
      (lastNonEmptyLine (split_nl (cleanForDetection z))).
Proof. destruct z; reflexivity. Qed.

(** Trailing white space up to the end of the line is matched by [\s*$]. *)
Lemma spaces_to_end {A : Type} (ws : jsstring) (k : jsstring -> option A) :
  forallb is_space ws = true ->
  exec (Star (Chr is_space)) ws (fun s => exec Eos s k) = k [].
Proof.
  induction ws as [|c t IH]; intros H.
  - reflexivity.
  - cbn [forallb] in H. apply andb_prop in H. destruct H as [Hc Ht].
    rewrite exec_Star, exec_Chr_cons, Hc.
    replace (length t <? length (c :: t))%nat with true
      by (symmetry; apply Nat.ltb_lt; cbn [length]; lia).
    rewrite (IH Ht). now destruct (k []).
Qed.

Lemma punctuation_matches (cls : char16 -> bool) (w q : char16) (ws : jsstring) :
  cls w = true -> cls q = false -> forallb is_space ws = true ->
  match_at (Cat (Plus (Chr cls))
                (Cat (Cat (Lit1 q) Eps) (Cat (Star (Chr is_space)) Eos)))
           (w :: q :: ws) = Some [].
Proof.
  intros Hw Hq Hws. unfold match_at, Plus, Lit1.
  rewrite !exec_Cat, exec_Chr_cons, Hw, exec_Star, exec_Chr_cons, Hq.
  cbv beta iota. rewrite !exec_Cat, exec_Chr_cons, N.eqb_refl, exec_Eps, exec_Cat.
  now rewrite spaces_to_end.
Qed.

(** X4: output whose last non-empty line ends in a word character or a
    blank, then [?] or [:], then nothing but white space, is always
    classified as waiting for input. *)
Theorem prompt_punctuation_means_waiting
        (x pre : jsstring) (w q : char16) (ws : jsstring) :
  lastNonEmptyLine (split_nl (cleanForDetection x)) = pre ++ w :: q :: ws ->
  is_word w || is_space w = true ->
  q = 63 \/ q = 58 ->
  forallb is_space ws = true ->
  isWaitingForInput x = true.
Proof.
  intros Hl Hw Hq Hws. rewrite isWaitingForInput_eq.
  set (line := lastNonEmptyLine (split_nl (cleanForDetection x))) in *.
  unfold inputDetection. destruct Hq as [-> | ->].
  - assert (H : hasQuestionPrompt line = true).
    { rewrite Hl. unfold hasQuestionPrompt. apply test_app. apply (test_here _ _ []).
      exact (punctuation_matches (fun c => is_word c || is_space c)
               w 63 ws Hw eq_refl Hws). }
    now rewrite H.
  - assert (H : hasColonPrompt line = true).
    { rewrite Hl. unfold hasColonPrompt. apply test_app. apply (test_here _ _ []).
      exact (punctuation_matches (fun c => is_word c || is_space c)
               w 58 ws Hw eq_refl Hws). }
    rewrite H. now rewrite orb_true_r.
Qed.

Lemma prompt_punctuation_means_waiting_witness :
  isWaitingForInput (lit "Welcome." ++ [LF] ++ lit "How old are you?  " ++ [LF]) = true.
Proof.
  apply (prompt_punctuation_means_waiting
           (lit "Welcome." ++ [LF] ++ lit "How old are you?  " ++ [LF])
           (lit "How old are yo") 117 63 [32; 32]);
    [reflexivity | reflexivity | now left | reflexivity].
Defined.

(** X5: output whose last non-empty line ends in one of the prompt glyphs
    [>], [$], [:] or [»], optionally followed by one blank, is always
    classified as waiting for input, whatever stands before the glyph. *)
Theorem prompt_glyph_means_waiting (x pre : jsstring) (g : char16) (sp : jsstring) :
  lastNonEmptyLine (split_nl (cleanForDetection x)) = pre ++ g :: sp ->
  In g promptGlyphs ->
  sp = [] \/ sp = [32] ->
  isWaitingForInput x = true.
Proof.
  intros Hl Hg Hsp. rewrite isWaitingForInput_eq.
  set (line := lastNonEmptyLine (split_nl (cleanForDetection x))) in *.
  unfold inputDetection.
  assert (H : endsWithPromptChar line = true).
  { rewrite Hl. unfold endsWithPromptChar. apply test_app. apply (test_here _ _ []).
    unfold promptGlyphs in Hg. cbn [In] in Hg.
    destruct Hg as [<-|[<-|[<-|[<-|[]]]]]; destruct Hsp as [-> | ->]; reflexivity. }
  rewrite H. now rewrite !orb_true_r.
Qed.

Lemma prompt_glyph_means_waiting_witness :
  isWaitingForInput (lit "ready (y/n)> ") = true.
Proof.
  apply (prompt_glyph_means_waiting (lit "ready (y/n)> ") (lit "ready (y/n)") 62 [32]);
    [reflexivity | now left | now right].
Defined.

Lemma ILits_match (kw : jsstring) :
  forall (mid post : jsstring),
    map canonicalize mid = map canonicalize kw ->
    match_at (ILits kw) (mid ++ post) = Some post.
Proof.
  unfold match_at. induction kw as [|k kw IH]; intros [|c mid] post H;
    try discriminate; [reflexivity|].
  cbn [map] in H. injection H as Hc Hm.
  cbn [ILits app]. rewrite exec_Cat, exec_Chr_cons, Hc, N.eqb_refl.
  now apply IH.
Qed.

Lemma commonInputPatterns_lexicon :
  commonInputPatterns = map (fun w => ILits (lit w)) lexicon.
Proof. reflexivity. Qed.

(** X6: output whose last non-empty line contains one of the words of
    the lexicon, in any mix of upper and lower case and anywhere in the
    line (also inside a longer word), is always classified as waiting for
    input. *)
Theorem keyword_means_waiting (x pre mid post : jsstring) (kw : string) :
  lastNonEmptyLine (split_nl (cleanForDetection x)) = pre ++ mid ++ post ->
  In kw lexicon ->
  map canonicalize mid = map canonicalize (lit kw) ->
  isWaitingForInput x = true.
Proof.
  intros Hl Hk Hm. rewrite isWaitingForInput_eq.
  set (line := lastNonEmptyLine (split_nl (cleanForDetection x))) in *.
  unfold inputDetection.
  assert (H : hasInputKeyword line = true).
  { rewrite Hl. unfold hasInputKeyword. apply existsb_exists. exists (ILits (lit kw)). split.
    - rewrite commonInputPatterns_lexicon.
      exact (in_map (fun w => ILits (lit w)) lexicon kw Hk).
    - apply test_app. apply (test_here _ _ post). now apply ILits_match. }
  rewrite H. now rewrite !orb_true_r.
Qed.

Lemma keyword_means_waiting_witness :
  isWaitingForInput
    (lit "The computation finished and every result was written to disk; all values were VALIDATED and nothing else is left to do."
     ++ [LF; LF]) = true.
Proof.
  apply (keyword_means_waiting _
           (lit "The computation finished and every result was written to disk; all values were VAL")
           (lit "ID") (lit "ATED and nothing else is left to do.") "ID"%string);
    [reflexivity | right; right; right; right; now left | reflexivity].
Defined.

(** ** The extracted prompt *)

Lemma star_loop_some {A : Type}
      (body : jsstring -> (jsstring -> option A) -> option A)
      (k : jsstring -> option A) :
  (forall s j x, body s j = Some x -> exists s', j s' = Some x) ->
  forall n s x, star_loop body k n s = Some x -> exists s', k s' = Some x.
Proof.
  intros Hb n. induction n as [|n IH]; intros s x; cbn [star_loop]; [eauto|].
  destruct (body s _) as [y|] eqn:E; [|eauto].
  intros H. injection H as ->.
  apply Hb in E. destruct E as [s' E].
  destruct (length s' <? length s)%nat; [eauto | discriminate].
Qed.

(** A result of the matcher is a result of its continuation. *)
Lemma exec_some {A : Type} (r : regex) :
  forall (s : jsstring) (k : jsstring -> option A) (x : A),
    exec r s k = Some x -> exists s', k s' = Some x.
Proof.
  induction r as [p| | |a IHa b IHb|a IHa b IHb|a IHa]; intros s k x; cbn [exec].
  - destruct s as [|c t]; [discriminate|]. destruct (p c); [eauto | discriminate].
  - eauto.
  - destruct s; [eauto | discriminate].
  - intros H. apply IHa in H. destruct H as [s' H]. eauto.
  - destruct (exec a s k) as [y|] eqn:E; [|eauto].
    intros H. injection H as ->. eauto.
  - apply star_loop_some. intros s0 j y. apply IHa.
Qed.

Lemma firstn_incl {A : Type} (n : nat) (l : list A) (x : A) :
  In x (firstn n l) -> In x l.
Proof.
  intros H. rewrite <- (firstn_skipn n l). apply in_or_app. now left.
Qed.

Lemma match_group1_incl (g tail : regex) (s cap : jsstring) (c : char16) :
  match_group1 g tail s = Some cap -> In c cap -> In c s.
Proof.
  induction s as [|a t IH].
  - cbn [match_group1].
    destruct (exec g [] _) as [y|] eqn:E; [|discriminate].
    intros H. injection H as ->.
    apply exec_some in E. destruct E as [s1 E].
    apply exec_some in E. destruct E as [_ E]. injection E as <-.
    intros Hc. exact (firstn_incl (length (@nil char16) - length s1) [] c Hc).
  - cbn [match_group1].
    destruct (exec g (a :: t) _) as [y|] eqn:E.
    + intros H. injection H as ->.
      apply exec_some in E. destruct E as [s1 E].
      apply exec_some in E. destruct E as [_ E]. injection E as <-.
      intros Hc. exact (firstn_incl _ _ _ Hc).
    + intros H Hc. right. now apply IH.
Qed.

Lemma trimStart_incl (s : jsstring) (c : char16) : In c (trimStart s) -> In c s.
Proof.
  induction s as [|a t IH]; [auto|]. cbn [trimStart].
  destruct (is_space a); [intros H; right; auto | auto].
Qed.

Lemma trim_incl (s : jsstring) (c : char16) : In c (trim s) -> In c s.
Proof.
  unfold trim, trimEnd. intros H.
  apply in_rev, trimStart_incl, in_rev in H. now apply trimStart_incl.
Qed.

Lemma promptOfLine_incl (line : jsstring) (c : char16) :
  In c (promptOfLine line) -> In c line.
Proof.
  unfold promptOfLine. destruct (50 <? length line)%nat; [|auto].
  destruct (match_group1 promptGroup promptTail line) as [cap|] eqn:E; [|auto].
  intros H. apply trim_incl in H. exact (match_group1_incl _ _ _ _ _ E H).
Qed.

Lemma split_nl_In (s l : jsstring) (c : char16) :
  In l (split_nl s) -> In c l -> In c s /\ c <> LF.
Proof.
  revert l. induction s as [|a t IH]; intros l.
  - cbn. intros [<-|[]] [].
  - cbn [split_nl]. destruct (N.eqb_spec a LF) as [->|Ha].
    + intros [<-|Hl] Hc; [destruct Hc|].
      destruct (IH l Hl Hc). split; [now right | assumption].
    + destruct (split_nl t) as [|l0 ls] eqn:E; [now destruct (split_nl_nonempty t)|].
      intros [<-|Hl] Hc.
      * destruct Hc as [<-|Hc]; [split; [now left | exact Ha]|].
        destruct (IH l0 (or_introl eq_refl) Hc). split; [now right | assumption].
      * destruct (IH l (or_intror Hl) Hc). split; [now right | assumption].
Qed.

Lemma last_In {A : Type} (l : list A) (d : A) : l <> [] -> In (last l d) l.
Proof.
  induction l as [|a [|b l] IH]; [congruence | now left |].
  intros _. right. apply IH. discriminate.
Qed.

Lemma lastNonEmptyLine_In (lines : list jsstring) (c : char16) :
  In c (lastNonEmptyLine lines) -> In (lastNonEmptyLine lines) lines.
Proof.
  unfold lastNonEmptyLine. intros Hc.
  destruct (filter _ lines) as [|l ls] eqn:E; [destruct Hc|].
  assert (H : In (last (l :: ls) []) (l :: ls)) by (apply last_In; discriminate).
  rewrite <- E in H at 2. now apply filter_In in H.
Qed.

Lemma replaceAll_Chr_filter (p : char16 -> bool) (s : jsstring) :
  replaceAll (Chr p) [] s = filter (fun c => negb (p c)) s.
Proof.
  unfold replaceAll. induction s as [|a t IH]; [reflexivity|].
  cbn [replaceAll_from filter]. unfold match_at. cbn [exec].
  destruct (p a); cbn [negb].
  - replace (length (a :: t) - length t)%nat with 1%nat by (cbn [length]; lia).
    cbn [app replaceAll_from]. destruct t; [reflexivity|]. exact IH.
  - now rewrite IH.
Qed.

Lemma cleanForPrompt_chars (x : jsstring) (c : char16) :
  In c (cleanForPrompt x) -> c <> CR /\ is_stripped_control c = false.
Proof.
  unfold cleanForPrompt. intros H. split.
  - unfold stripControl in H. apply replaceAll_incl, stripFrameHeader_incl in H.
    unfold Lit1 in H. rewrite replaceAll_Chr_filter in H. apply filter_In in H.
    destruct H as [_ H]. apply negb_true_iff, N.eqb_neq in H. congruence.
  - rewrite stripControl_filter in H. apply filter_In in H.
    now apply negb_true_iff.
Qed.

Lemma extractInputPrompt_chars (x : jsstring) (c : char16) :
  In c (extractInputPrompt x) ->
  c <> LF /\ c <> CR /\ is_stripped_control c = false /\ In c x.
Proof.
  destruct x as [|a t] eqn:Ex; [intros []|]. rewrite <- Ex. clear Ex.
  intros H.
  assert (Hp : In c (lastNonEmptyLine (split_nl (cleanForPrompt x)))).
  { destruct x; [destruct H|]. now apply promptOfLine_incl. }
  pose proof (lastNonEmptyLine_In _ _ Hp) as Hl.
  destruct (split_nl_In _ _ _ Hl Hp) as [Hc Hlf].
  destruct (cleanForPrompt_chars _ _ Hc) as [Hcr Hctl].
  repeat split; auto. now apply cleanForPrompt_incl.
Qed.

(** X7: the prompt [extractInputPrompt] returns is a single clean line:
    it is made of code units of the output and contains no line feed, no
    carriage return and no code unit of the stripped control class. *)
Theorem extracted_prompt_is_one_clean_line (x : jsstring) (c : char16) :
  In c (extractInputPrompt x) ->
  c <> LF /\ c <> CR /\ is_stripped_control c = false /\ In c x.
Proof. apply extractInputPrompt_chars. Qed.

Lemma extracted_prompt_is_one_clean_line_witness :
  114 <> LF /\ 114 <> CR /\ is_stripped_control 114 = false
  /\ In 114 (lit "Hello" ++ [CR; LF; 7] ++ lit "Your name: " ++ [CR; LF]).
Proof.
  apply (extracted_prompt_is_one_clean_line
           (lit "Hello" ++ [CR; LF; 7] ++ lit "Your name: " ++ [CR; LF]) 114).
  vm_compute. right. right. right. now left.
Defined.

(** X8: in an input turn the terminal shows the prompt of the server
    verbatim: the cleaning of [handleInput] and the cleaning of the
    terminal component change nothing in a prompt that
    [extractInputPrompt] produced; only an empty prompt is replaced, by
    the default "> ". *)
Theorem terminal_shows_server_prompt (x : jsstring) :
  cleanInputPrompt (inputTurnPrompt (extractInputPrompt x))
  = match extractInputPrompt x with
    | [] => lit "> "
    | p => p
    end.
Proof.
  assert (Hc : forall c, In c (extractInputPrompt x) -> is_stripped_control c = false)
    by (intros c Hc; now apply extractInputPrompt_chars in Hc).
  assert (E : stripControl (stripFrameHeader (extractInputPrompt x))
              = extractInputPrompt x)
    by (now rewrite (stripFrameHeader_plain _ Hc), (stripControl_id _ Hc)).
  unfold inputTurnPrompt, cleanInputPrompt.
  destruct (extractInputPrompt x) as [|a p] eqn:Ep; [reflexivity|].
  now rewrite !E.
Qed.

(** ** [waitForOutput]: invariants of a wait *)

Lemma waitForOutput_invariant
      (P : (session * jsstring) * waiter -> Prop)
      (s : session) (currentOutput : jsstring) (events : list wait_event) :
  P ((s, currentOutput), newWaiter) ->
  (forall e st, P st -> P (wait_step e st)) ->
  P (waitForOutput s currentOutput events).
Proof.
  intros H0 Hstep. unfold waitForOutput.
  generalize ((s, currentOutput), newWaiter) H0.
  induction events as [|e events IH]; intros st Hst; [exact Hst|].
  cbn [fold_left]. apply IH. now apply Hstep.
Qed.

Ltac waiter_fields :=
  cbn [settled listening timeoutPending quietTimer output dataReceived
       inspections negb fst snd stdoutChunks stderrChunks container
       createdAt timeout] in *.

Lemma settle_cleanup_released (o : outcome) (w : waiter) :
  released (settle o (cleanup w)).
Proof.
  right. unfold settle, cleanup. waiter_fields.
  destruct (settled w); waiter_fields; auto.
Qed.

Lemma dataHandler_released (chunk : jsstring) (s : session) (w : waiter) :
  released w -> released (snd (dataHandler chunk (s, w))).
Proof.
  intros H. unfold dataHandler. destruct (listening w) eqn:El; waiter_fields; [|exact H].
  match goal with |- context [if ?b then _ else _] => destruct b end; waiter_fields.
  - apply settle_cleanup_released.
  - destruct H as [H|(H & _)]; [now left | congruence].
Qed.

Lemma quietElapsed_released (d : Z) (s : session) (w : waiter) :
  released w -> released (snd (quietElapsed d (s, w))).
Proof.
  intros H. unfold quietElapsed. destruct (quietTimer w) eqn:Eq; waiter_fields; [|exact H].
  assert (Hn : settled w = None) by (destruct H as [H|(_ & _ & H)]; [exact H | congruence]).
  destruct (output w); [destruct (d >? 2000)%Z|]; waiter_fields;
    try apply settle_cleanup_released.
  now left.
Qed.

Lemma timeoutElapsed_released (info : inspect_result) (s : session) (w : waiter) :
  released w -> released (snd (timeoutElapsed info (s, w))).
Proof.
  intros H. unfold timeoutElapsed.
  destruct (timeoutPending w) eqn:Et; waiter_fields; [|exact H].
  destruct (join (stdoutChunks s)); [destruct info as [[|] code|];
    [| destruct (code =? 0) |]|]; waiter_fields; apply settle_cleanup_released.
Qed.

Lemma initialCheck_released (info : inspect_result) (s : session) (w : waiter) :
  released w -> released (snd (initialCheck info (s, w))).
Proof.
  intros H. unfold initialCheck. destruct (dataReceived w); waiter_fields; [exact H|].
  destruct info as [running code|].
  - destruct (negb running && (code =? 0)); waiter_fields;
      [apply settle_cleanup_released|].
    destruct (isWaitingForInput (join (stdoutChunks s))); waiter_fields;
      [apply settle_cleanup_released | exact H].
  - apply settle_cleanup_released.
Qed.

Lemma errorHandler_released (message : jsstring) (s : session) (w : waiter) :
  released w -> released (snd (errorHandler message (s, w))).
Proof.
  intros H. unfold errorHandler. destruct (listening w); waiter_fields; [|exact H].
  apply settle_cleanup_released.
Qed.

Lemma wait_step_released (e : wait_event) (st : (session * jsstring) * waiter) :
  released (snd st) -> released (snd (wait_step e st)).
Proof.
  destruct st as [[s cur] w]. cbn [snd]. intros H. destruct e; cbn [wait_step fst snd].
  - unfold emitData. destruct (sessionDataHandler type chunk (s, cur)) as [s1 cur1].
    pose proof (dataHandler_released chunk s1 w H) as H1.
    destruct (dataHandler chunk (s1, w)). exact H1.
  - pose proof (quietElapsed_released sinceLastData s w H) as H1.
    destruct (quietElapsed sinceLastData (s, w)). exact H1.
  - pose proof (initialCheck_released info s w H) as H1.
    destruct (initialCheck info (s, w)). exact H1.
  - pose proof (timeoutElapsed_released info s w H) as H1.
    destruct (timeoutElapsed info (s, w)). exact H1.
  - pose proof (errorHandler_released message s w H) as H1.
    destruct (errorHandler message (s, w)). exact H1.
Qed.

(** X9: whatever events a [waitForOutput] call sees, once its promise is
    settled (by the heuristic, the quiet timer, the five-second check, the
    absolute timeout or a stream error), [dataHandler] and [errorHandler]
    are detached and the quiet and absolute timers are cleared: no exit
    path leaves a listener behind. *)
Theorem settled_wait_has_released_everything
        (s : session) (currentOutput : jsstring) (events : list wait_event) :
  let w := snd (waitForOutput s currentOutput events) in
  settled w = None
  \/ (listening w = false /\ timeoutPending w = false /\ quietTimer w = false).
Proof.
  apply (waitForOutput_invariant (fun st => released (snd st))).
  - now left.
  - intros e st. apply wait_step_released.
Qed.

(** ** [waitForOutput]: the session is only appended to *)

Lemma extends_refl (s : session) : extends s s.
Proof. repeat split; try (exists []; now rewrite app_nil_r). Qed.

Lemma extends_trans (s1 s2 s3 : session) :
  extends s1 s2 -> extends s2 s3 -> extends s1 s3.
Proof.
  intros ([m1 H1] & [e1 G1] & A1 & B1 & C1) ([m2 H2] & [e2 G2] & A2 & B2 & C2).
  repeat split; try congruence.
  - exists (m1 ++ m2). now rewrite H2, H1, app_assoc.
  - exists (e1 ++ e2). now rewrite G2, G1, app_assoc.
Qed.

Lemma sessionDataHandler_extends (type : stream_type) (chunk : jsstring)
      (s : session) (cur : jsstring) :
  extends s (fst (sessionDataHandler type chunk (s, cur))).
Proof.
  destruct type; cbn [sessionDataHandler fst]; repeat split; waiter_fields;
    try (now eexists); exists []; now rewrite app_nil_r.
Qed.

Lemma dataHandler_extends (chunk : jsstring) (s : session) (w : waiter) :
  extends s (fst (dataHandler chunk (s, w))).
Proof.
  unfold dataHandler. destruct (listening w); waiter_fields; [|apply extends_refl].
  match goal with |- context [if ?b then _ else _] => destruct b end; waiter_fields;
    (repeat split; [now eexists | exists []; now rewrite app_nil_r]).
Qed.

Lemma quietElapsed_session (d : Z) (s : session) (w : waiter) :
  fst (quietElapsed d (s, w)) = s.
Proof.
  unfold quietElapsed. destruct (quietTimer w); [|reflexivity]. cbn [negb].
  destruct (output w); [destruct (d >? 2000)%Z|]; reflexivity.
Qed.

Lemma timeoutElapsed_session (info : inspect_result) (s : session) (w : waiter) :
  fst (timeoutElapsed info (s, w)) = s.
Proof.
  unfold timeoutElapsed. destruct (timeoutPending w); [|reflexivity]. cbn [negb].
  destruct (join (stdoutChunks s)); [destruct info as [[|] code|];
    [| destruct (code =? 0) |]|]; reflexivity.
Qed.

Lemma initialCheck_session (info : inspect_result) (s : session) (w : waiter) :
  fst (initialCheck info (s, w)) = s.
Proof.
  unfold initialCheck. destruct (dataReceived w); [reflexivity|].
  destruct info as [running code|]; [|reflexivity].
  destruct (negb running && (code =? 0)); [reflexivity|].
  destruct (isWaitingForInput (join (stdoutChunks s))); reflexivity.
Qed.

Lemma errorHandler_session (message : jsstring) (s : session) (w : waiter) :
  fst (errorHandler message (s, w)) = s.
Proof. unfold errorHandler. destruct (listening w); reflexivity. Qed.

Lemma wait_step_extends (e : wait_event) (st : (session * jsstring) * waiter) :
  extends (fst (fst st)) (fst (fst (wait_step e st))).
Proof.
  destruct st as [[s cur] w]. cbn [fst]. destruct e; cbn [wait_step fst snd].
  - unfold emitData.
    pose proof (sessionDataHandler_extends type chunk s cur) as H1.
    destruct (sessionDataHandler type chunk (s, cur)) as [s1 cur1]. cbn [fst] in H1.
    pose proof (dataHandler_extends chunk s1 w) as H2.
    destruct (dataHandler chunk (s1, w)) as [s2 w2]. cbn [fst] in *.
    exact (extends_trans _ _ _ H1 H2).
  - pose proof (quietElapsed_session sinceLastData s w) as H1.
    destruct (quietElapsed sinceLastData (s, w)). cbn [fst] in *. subst. apply extends_refl.
  - pose proof (initialCheck_session info s w) as H1.
    destruct (initialCheck info (s, w)). cbn [fst] in *. subst. apply extends_refl.
  - pose proof (timeoutElapsed_session info s w) as H1.
    destruct (timeoutElapsed info (s, w)). cbn [fst] in *. subst. apply extends_refl.
  - pose proof (errorHandler_session message s w) as H1.
    destruct (errorHandler message (s, w)). cbn [fst] in *. subst. apply extends_refl.
Qed.

Lemma waitForOutput_extends
      (s : session) (currentOutput : jsstring) (events : list wait_event) :
  extends s (fst (fst (waitForOutput s currentOutput events))).
Proof.
  apply (waitForOutput_invariant (fun st => extends s (fst (fst st)))).
  - apply extends_refl.
  - intros e st H. exact (extends_trans _ _ _ H (wait_step_extends e st)).
Qed.

(** X10: whatever events a [waitForOutput] call sees, the session comes
    out with its earlier chunks in place: [stdoutChunks] and
    [stderrChunks] only grow at the end, and the container, the creation
    time and the timer of the session are not touched. *)
Theorem wait_only_appends_to_session
        (s : session) (currentOutput : jsstring) (events : list wait_event) :
  let s' := fst (fst (waitForOutput s currentOutput events)) in
  (exists more, stdoutChunks s' = stdoutChunks s ++ more)
  /\ (exists more, stderrChunks s' = stderrChunks s ++ more)
  /\ container s' = container s /\ createdAt s' = createdAt s
  /\ timeout s' = timeout s.
Proof. apply waitForOutput_extends. Qed.

(** ** [waitForOutput]: what a wait resolves with *)

Lemma noStrippedControl_iff (s : jsstring) :
  noStrippedControl s = true <-> forall c, In c s -> is_stripped_control c = false.
Proof.
  unfold noStrippedControl. rewrite forallb_forall.
  split; intros H c Hc; specialize (H c Hc); now apply negb_true_iff.
Qed.

Lemma noStrippedControl_join (chunks : list jsstring) :
  (forall chunk, In chunk chunks -> noStrippedControl chunk = true) ->
  noStrippedControl (join chunks) = true.
Proof.
  intros H. apply noStrippedControl_iff. intros c Hc.
  unfold join in Hc. apply in_concat in Hc. destruct Hc as (chunk & Hin & Hc).
  exact (proj1 (noStrippedControl_iff chunk) (H chunk Hin) c Hc).
Qed.

Lemma cleanChunk_noStrippedControl (chunk : jsstring) :
  noStrippedControl (cleanChunk chunk) = true.
Proof.
  apply noStrippedControl_iff. intros c H.
  unfold cleanChunk, stripAttachOptions in H. apply replaceAll_incl in H.
  rewrite stripControl_filter in H. apply filter_In in H.
  now apply negb_true_iff.
Qed.

Lemma cleanDockerOutput_noStrippedControl (x : jsstring) :
  noStrippedControl (cleanDockerOutput x) = true.
Proof.
  apply noStrippedControl_iff. intros c. apply cleanDockerOutput_no_stripped_control.
Qed.

Lemma cleanForResponse_noStrippedControl (x : jsstring) :
  noStrippedControl (cleanForResponse x) = true.
Proof.
  apply noStrippedControl_iff. intros c H.
  unfold cleanForResponse, stripAttachOptions in H. apply replaceAll_incl in H.
  rewrite stripControl_filter in H. apply filter_In in H.
  now apply negb_true_iff.
Qed.

Lemma settle_resolved_clean (o : jsstring) (w : waiter) :
  noStrippedControl o = true ->
  (forall o', settled w = Some (Resolved o') -> noStrippedControl o' = true) ->
  forall o', settled (settle (Resolved o) (cleanup w)) = Some (Resolved o') ->
             noStrippedControl o' = true.
Proof.
  intros Ho Hw o'. unfold settle, cleanup. waiter_fields.
  destruct (settled w) as [r|] eqn:E; waiter_fields.
  - intros H. apply Hw. congruence.
  - intros H. injection H as <-. exact Ho.
Qed.

Lemma settle_rejected_clean (m : jsstring) (w : waiter) :
  (forall o', settled w = Some (Resolved o') -> noStrippedControl o' = true) ->
  forall o', settled (settle (Rejected m) (cleanup w)) = Some (Resolved o') ->
             noStrippedControl o' = true.
Proof.
  intros Hw o'. unfold settle, cleanup. waiter_fields.
  destruct (settled w) as [r|] eqn:E; waiter_fields.
  - intros H. apply Hw. congruence.
  - discriminate.
Qed.

Lemma settle_output (o : outcome) (w : waiter) :
  output (settle o (cleanup w)) = output w.
Proof. unfold settle, cleanup. waiter_fields. now destruct (settled w). Qed.

(** What [Buffer.from(s).toString()] gives back is made of code units of
    [s] and of U+FFFD. *)
Lemma bufferText_chars (s : jsstring) (c : char16) :
  In c (bufferText s) -> In c s \/ c = 65533.
Proof.
  remember (length s) as n eqn:En.
  assert (Hl : (length s <= n)%nat) by lia. clear En.
  revert s Hl c. induction n as [|n IH]; intros s Hl c.
  - destruct s; [intros [] | cbn [length] in Hl; lia].
  - destruct s as [|a t]; [intros []|]. cbn [length] in Hl.
    cbn [bufferText]. destruct (is_high_surrogate a).
    + destruct t as [|d t']; [intros [<-|[]]; now right|].
      cbn [length] in Hl. destruct (is_low_surrogate d).
      * intros [<-|[<-|H]]; [left; now left | left; right; now left|].
        apply IH in H; [|lia]. destruct H; [left; right; now right | now right].
      * intros [<-|H]; [now right|].
        apply IH in H; [|cbn [length]; lia].
        destruct H; [left; now right | now right].
    + destruct (is_low_surrogate a).
      * intros [<-|H]; [now right|].
        apply IH in H; [|lia]. destruct H; [left; now right | now right].
      * intros [<-|H]; [left; now left|].
        apply IH in H; [|lia]. destruct H; [left; now right | now right].
Qed.

Lemma bufferText_noStrippedControl (s : jsstring) :
  noStrippedControl s = true -> noStrippedControl (bufferText s) = true.
Proof.
  rewrite !noStrippedControl_iff. intros H c Hc.
  apply bufferText_chars in Hc. destruct Hc as [Hc | ->]; [auto | reflexivity].
Qed.

Lemma wait_step_clean (e : wait_event) (st : (session * jsstring) * waiter) :
  cleanWait st -> cleanWait (wait_step e st).
Proof.
  destruct st as [[s cur] w]. unfold cleanWait. cbn [fst snd].
  intros (Hh & Ho & Hs). destruct e; cbn [wait_step fst snd].
  - (* data *)
    unfold emitData.
    assert (Hh1 : forall chunk0,
               In chunk0 (stdoutChunks (fst (sessionDataHandler type chunk (s, cur)))) ->
               noStrippedControl chunk0 = true).
    { destruct type; cbn [sessionDataHandler fst stdoutChunks]; auto;
        intros c0 Hc; apply in_app_or in Hc;
        (destruct Hc as [Hc|[<-|[]]];
         [auto | apply bufferText_noStrippedControl, cleanChunk_noStrippedControl]). }
    destruct (sessionDataHandler type chunk (s, cur)) as [s1 cur1]. cbn [fst] in Hh1.
    unfold dataHandler. destruct (listening w); cbn [negb fst snd]; [|auto].
    set (out2 := match output w ++ cleanChunk chunk with
                 | [] => output w ++ cleanChunk chunk
                 | _ :: _ => cleanDockerOutput (output w ++ cleanChunk chunk)
                 end).
    assert (Hout2 : noStrippedControl out2 = true).
    { subst out2. destruct (output w ++ cleanChunk chunk);
        [reflexivity | apply cleanDockerOutput_noStrippedControl]. }
    assert (Hh2 : forall chunk0,
               In chunk0 (stdoutChunks (push_stdout (bufferText (cleanChunk chunk)) s1)) ->
               noStrippedControl chunk0 = true).
    { cbn [push_stdout stdoutChunks]. intros c0 Hc. apply in_app_or in Hc.
      destruct Hc as [Hc|[<-|[]]];
        [auto | apply bufferText_noStrippedControl, cleanChunk_noStrippedControl]. }
    destruct (isWaitingForInput out2); cbn [fst snd].
    + split; [exact Hh2|]. split.
      * now rewrite settle_output.
      * apply settle_resolved_clean; [exact Hout2|]. exact Hs.
    + split; [exact Hh2|]. split; [exact Hout2 | exact Hs].
  - (* quiet timer *)
    unfold quietElapsed. cbv zeta. destruct (quietTimer w); cbn [negb fst snd]; [|auto].
    destruct (output w) as [|a o] eqn:Eo; [destruct (sinceLastData >? 2000)%Z|];
      cbn [fst snd]; (split; [exact Hh|]); split;
      try (rewrite settle_output; waiter_fields; now rewrite ?Eo);
      try (apply settle_resolved_clean; waiter_fields; [now rewrite ?Eo | exact Hs]);
      waiter_fields; auto; now rewrite ?Eo.
  - (* five-second check *)
    unfold initialCheck. cbv zeta. destruct (dataReceived w); cbn [fst snd]; [auto|].
    pose proof (noStrippedControl_join _ Hh) as Hj.
    destruct info as [running code|].
    + destruct (negb running && (code =? 0)); cbn [fst snd].
      * split; [exact Hh|]. split; [now rewrite settle_output|].
        apply settle_resolved_clean; [|exact Hs].
        destruct (join (stdoutChunks s)); [reflexivity | exact Hj].
      * destruct (isWaitingForInput (join (stdoutChunks s))); cbn [fst snd].
        -- split; [exact Hh|]. split; [now rewrite settle_output|].
           apply settle_resolved_clean; [exact Hj | exact Hs].
        -- auto.
    + cbn [fst snd]. split; [exact Hh|]. split; [now rewrite settle_output|].
      apply settle_resolved_clean; [reflexivity | exact Hs].
  - (* absolute timeout *)
    unfold timeoutElapsed. cbv zeta. destruct (timeoutPending w); cbn [negb fst snd]; [|auto].
    pose proof (noStrippedControl_join _ Hh) as Hj.
    destruct (join (stdoutChunks s)) as [|a h] eqn:Ej.
    + destruct info as [[|] code|]; [| destruct (code =? 0) |]; cbn [fst snd];
        (split; [exact Hh|]); (split; [now rewrite settle_output|]);
        first [ apply settle_resolved_clean; [reflexivity | exact Hs]
              | apply settle_rejected_clean; exact Hs ].
    + cbn [fst snd]. split; [exact Hh|]. split; [now rewrite settle_output|].
      apply settle_resolved_clean; [exact Hj | exact Hs].
  - (* stream error *)
    unfold errorHandler. destruct (listening w); cbn [negb fst snd]; [|auto].
    split; [exact Hh|]. split; [now rewrite settle_output|].
    apply settle_rejected_clean; exact Hs.
Qed.

(** X11: on a session whose stored chunks hold no code unit of the
    stripped control class, whatever a [waitForOutput] call resolves with
    (the accumulated output, the stored history or one of the fixed
    messages) holds none either. *)
Theorem resolved_output_has_no_control_characters
        (s : session) (currentOutput : jsstring) (events : list wait_event)
        (o : jsstring) :
  (forall chunk, In chunk (stdoutChunks s) -> noStrippedControl chunk = true) ->
  settled (snd (waitForOutput s currentOutput events)) = Some (Resolved o) ->
  forall c, In c o -> is_stripped_control c = false.
Proof.
  intros Hh Hs. apply noStrippedControl_iff. revert o Hs.
  apply (waitForOutput_invariant cleanWait s currentOutput events).
  - split; [exact Hh|]. split; [reflexivity|]. discriminate.
  - apply wait_step_clean.
Qed.

Lemma resolved_output_has_no_control_characters_witness :
  is_stripped_control 65 = false.
Proof.
  apply (resolved_output_has_no_control_characters
           (mkSession 1 [lit "Name: "] [] 0 0) []
           [EvData Stdout ([7] ++ lit "Age: ")] (lit "Age: ")).
  - intros chunk [<-|[]]. reflexivity.
  - reflexivity.
  - now left.
Defined.

(** ** [waitForOutput]: a wait without data *)

Lemma wait_step_without_data (e : wait_event) (s : session) (cur : jsstring) (w : waiter) :
  is_data e = false ->
  dataReceived w = false /\ output w = [] /\ quietTimer w = false ->
  let st' := wait_step e ((s, cur), w) in
  fst st' = (s, cur)
  /\ dataReceived (snd st') = false /\ output (snd st') = []
  /\ quietTimer (snd st') = false.
Proof.
  intros He (Hd & Ho & Hq). destruct e; [discriminate| | | |]; cbn [wait_step fst snd].
  - unfold quietElapsed. rewrite Hq. cbn. auto.
  - unfold initialCheck. rewrite Hd.
    destruct info as [running code|];
      [destruct (negb running && (code =? 0));
       [|destruct (isWaitingForInput (join (stdoutChunks s)))]|];
      cbn [fst snd]; unfold settle, cleanup, inspected; waiter_fields;
      try destruct (settled w); waiter_fields; auto.
  - unfold timeoutElapsed. destruct (timeoutPending w); cbn [negb fst snd]; [|auto].
    destruct (join (stdoutChunks s)); [destruct info as [[|] code|];
      [| destruct (code =? 0) |]|];
      cbn [fst snd]; unfold settle, cleanup, inspected; waiter_fields;
      try destruct (settled w); waiter_fields; auto.
  - unfold errorHandler. destruct (listening w); cbn [negb fst snd]; [|auto].
    unfold settle, cleanup; waiter_fields; destruct (settled w); waiter_fields; auto.
Qed.

(** X12: as long as no chunk arrives, a [waitForOutput] call changes
    nothing in the session, keeps its accumulator empty and never arms the
    quiet timer: without data a wait can end only through the five-second
    check, the absolute timeout or a stream error, never by quiescence. *)
Theorem wait_without_data_leaves_session_alone
        (s : session) (currentOutput : jsstring) (events : list wait_event) :
  forallb (fun e => negb (is_data e)) events = true ->
  let st := waitForOutput s currentOutput events in
  fst st = (s, currentOutput)
  /\ dataReceived (snd st) = false /\ output (snd st) = []
  /\ quietTimer (snd st) = false
  /\ forall d, wait_step (EvQuiet d) st = st.
Proof.
  intros Hev.
  assert (H : let st := waitForOutput s currentOutput events in
              fst st = (s, currentOutput)
              /\ dataReceived (snd st) = false /\ output (snd st) = []
              /\ quietTimer (snd st) = false).
  { unfold waitForOutput.
    assert (H0 : fst ((s, currentOutput), newWaiter) = (s, currentOutput)
                 /\ dataReceived (snd ((s, currentOutput), newWaiter)) = false
                 /\ output (snd ((s, currentOutput), newWaiter)) = []
                 /\ quietTimer (snd ((s, currentOutput), newWaiter)) = false)
      by (repeat split).
    revert H0. generalize ((s, currentOutput), newWaiter).
    induction events as [|e events IH]; intros st H0; [exact H0|].
    cbn [forallb] in Hev. apply andb_prop in Hev. destruct Hev as [He Hev].
    cbn [fold_left]. apply (IH Hev).
    destruct st as [[s0 cur0] w0]. cbn [fst snd] in H0.
    destruct H0 as (Hf & Hrest). injection Hf as -> ->.
    apply wait_step_without_data; [now apply negb_true_iff | exact Hrest]. }
  cbv zeta in *. destruct H as (Hf & Hd & Ho & Hq).
  repeat split; auto.
  intros d. destruct (waitForOutput s currentOutput events) as [[s0 cur0] w0].
  cbn [fst snd] in *. cbn [wait_step fst snd]. unfold quietElapsed. now rewrite Hq.
Qed.

Lemma wait_without_data_leaves_session_alone_witness :
  let s := mkSession 1 [lit "working"] [] 0 0 in
  fst (waitForOutput s []
         [EvQuiet 500; EvInitialCheck (Inspected true 0); EvTimeout (Inspected true 0)])
  = (s, []).
Proof.
  intros s.
  apply (wait_without_data_leaves_session_alone s []
           [EvQuiet 500; EvInitialCheck (Inspected true 0); EvTimeout (Inspected true 0)]).
  reflexivity.
Defined.

(** ** The registry: lookup after update *)

Lemma map_get_set_same (m : registry) (k : string) (v : session) :
  map_get (map_set m k v) k = Some v.
Proof.
  induction m as [|[k' v'] m IH]; cbn [map_set map_get].
  - now rewrite String.eqb_refl.
  - destruct (String.eqb_spec k' k) as [->|Hk]; cbn [map_get].
    + now rewrite String.eqb_refl.
    + destruct (String.eqb_spec k' k); [congruence | exact IH].
Qed.

Lemma map_get_set_other (m : registry) (k k' : string) (v : session) :
  k' <> k -> map_get (map_set m k v) k' = map_get m k'.
Proof.
  intros Hk. induction m as [|[k0 v0] m IH]; cbn [map_set map_get].
  - destruct (String.eqb_spec k k'); [congruence | reflexivity].
  - destruct (String.eqb_spec k0 k) as [->|H0]; cbn [map_get]; [|now rewrite IH].
    destruct (String.eqb_spec k k'); [congruence | reflexivity].
Qed.

Lemma map_set_twice (m : registry) (k : string) (v1 v2 : session) :
  map_set (map_set m k v1) k v2 = map_set m k v2.
Proof.
  induction m as [|[k' v'] m IH]; cbn [map_set].
  - now rewrite String.eqb_refl.
  - destruct (String.eqb k' k) eqn:E; cbn [map_set]; rewrite E; [reflexivity|].
    now rewrite IH.
Qed.

Lemma map_set_keys (m : registry) (k : string) (v : session) :
  map fst (map_set m k v)
  = match map_get m k with
    | Some _ => map fst m
    | None => map fst m ++ [k]
    end.
Proof.
  induction m as [|[k' v'] m IH]; [reflexivity|].
  cbn [map_set map_get]. destruct (String.eqb k' k); [reflexivity|].
  cbn [map fst]. rewrite IH. now destruct (map_get m k).
Qed.

Lemma map_set_NoDup (m : registry) (k : string) (v : session) :
  NoDup (map fst m) -> NoDup (map fst (map_set m k v)).
Proof.
  intros H. rewrite map_set_keys. destruct (map_get m k) eqn:E; [exact H|].
  apply NoDup_app; [exact H | repeat constructor; intros [] |].
  intros x Hx [<-|[]]. apply in_map_iff in Hx. destruct Hx as (e & He & Hin).
  exact (proj1 (map_get_none_iff m k) E e Hin He).
Qed.

(** ** The new-run path: what a run records and returns *)

Lemma deliver_output (events : list (stream_type * jsstring))
      (s : session) (currentOutput : jsstring) :
  snd (deliver events (s, currentOutput))
  = currentOutput
    ++ concat (map (fun e => cleanChunk (snd e))
                   (filter (fun e => negb (is_stderr (fst e))) events)).
Proof.
  unfold deliver. revert s currentOutput.
  induction events as [|[ty ch] events IH]; intros s cur.
  - cbn. now rewrite app_nil_r.
  - cbn [fold_left fst snd]. destruct ty; cbn [sessionDataHandler];
      rewrite IH; cbn [filter is_stderr negb fst snd map concat];
      now rewrite <- ?app_assoc.
Qed.

Lemma deliver_session (events : list (stream_type * jsstring))
      (s : session) (currentOutput : jsstring) :
  let s' := fst (deliver events (s, currentOutput)) in
  stderrChunks s'
  = stderrChunks s ++ map snd (filter (fun e => is_stderr (fst e)) events)
  /\ container s' = container s /\ createdAt s' = createdAt s
  /\ timeout s' = timeout s.
Proof.
  unfold deliver. revert s currentOutput.
  induction events as [|[ty ch] events IH]; intros s cur; cbv zeta.
  - cbn. now rewrite app_nil_r.
  - cbn [fold_left fst snd].
    specialize (IH (fst (sessionDataHandler ty ch (s, cur)))
                   (snd (sessionDataHandler ty ch (s, cur)))).
    rewrite <- surjective_pairing in IH. cbv zeta in IH.
    destruct IH as (H1 & H2 & H3 & H4). rewrite H1, H2, H3, H4.
    destruct ty; cbn [sessionDataHandler fst snd filter is_stderr map];
      waiter_fields; rewrite <- ?app_assoc; auto.
Qed.

Lemma session_eta (s : session) :
  s = mkSession (container s) (stdoutChunks s) (stderrChunks s)
                (createdAt s) (timeout s).
Proof. now destruct s. Qed.

Lemma deliver_from_empty (events : list (stream_type * jsstring))
      (c : container_id) (created : Z) (t : timer_id) :
  fst (deliver events (mkSession c [] [] created t, []))
  = mkSession c
      (map (fun e => bufferText (cleanChunk (snd e)))
           (filter (fun e => negb (is_stderr (fst e))) events))
      (map snd (filter (fun e => is_stderr (fst e)) events))
      created t.
Proof.
  pose proof (deliver_history events (mkSession c [] [] created t) []) as H1.
  destruct (deliver_session events (mkSession c [] [] created t) [])
    as (H2 & H3 & H4 & H5).
  cbn [app stdoutChunks stderrChunks container createdAt timeout] in *.
  match type of H3 with
  | container ?X = _ =>
      match goal with |- _ = ?R => change (X = R) end;
      rewrite (session_eta X)
  end.
  now rewrite H1, H2, H3, H4, H5.
Qed.

(** The new-run path once the request is accepted and the three daemon
    calls have succeeded. *)
Lemma executeNew_success
      (stop_ok remove_ok : container_id -> bool) (env : run_env)
      (c : container_id) (code : jsstring) (w : world) :
  code <> [] -> write_ok env = true -> create_result env = inr c ->
  start_error env = None -> attach_error env = None ->
  let started :=
    log_call (CallAttach c)
      (set_containers
         (set_cstate c Running (containers w ++ [(c, Created)]))
         (log_call (CallStart c)
            (log_call (CallCreate c)
               (set_containers (containers w ++ [(c, Created)]) w)))) in
  let final := deliver (delivered env)
                 (mkSession c [] [] (now env) (sessionTimeout env), []) in
  executeNew stop_ok remove_ok env code (lit "python") w
  = (set_sessions (map_set (activeSessions w) (newSessionId env) (fst final)) started,
     mkResponse 200
       (RunBody (cleanForResponse (snd final)) (newSessionId env)
                (isWaitingForInput (snd final))
                (if isWaitingForInput (snd final)
                 then extractInputPrompt (snd final) else []))).
Proof.
  intros Hcode Hw Hc Hs Ha. unfold executeNew.
  destruct code as [|a code]; [congruence|].
  change (jseqb (lit "python") (lit "python")) with true. cbn [negb].
  rewrite Hw, Hc, Hs, Ha. cbn [negb].
  destruct (deliver (delivered env) _) as [s1 cur] eqn:Ed.
  cbn [fst snd activeSessions set_sessions log_call set_containers].
  now rewrite map_set_twice.
Qed.

(** X13: when a new run is accepted and the container is created, started
    and attached, the session is registered under the [sessionId] the
    response carries: looking that id up gives the container, the stdout
    chunks as the stored [Buffer]s give them back (each chunk cleaned, and
    a surrogate that the cleaning has cut off its pair replaced by
    U+FFFD), the chunks labelled [stderr] as they came, in arrival order,
    the creation time and the timer; every other registry entry is as
    before, and the daemon has received exactly the three requests. *)
Theorem successful_run_registers_session
        (stop_ok remove_ok : container_id -> bool) (env : run_env)
        (c : container_id) (code : jsstring) (w : world) :
  code <> [] -> write_ok env = true -> create_result env = inr c ->
  start_error env = None -> attach_error env = None ->
  let result := executeNew stop_ok remove_ok env code (lit "python") w in
  map_get (activeSessions (fst result)) (newSessionId env)
  = Some (mkSession c
            (map (fun e => bufferText (cleanChunk (snd e)))
                 (filter (fun e => negb (is_stderr (fst e))) (delivered env)))
            (map snd (filter (fun e => is_stderr (fst e)) (delivered env)))
            (now env) (sessionTimeout env))
  /\ (forall k, k <> newSessionId env ->
        map_get (activeSessions (fst result)) k = map_get (activeSessions w) k)
  /\ calls (fst result) = calls w ++ [CallCreate c; CallStart c; CallAttach c]
  /\ is_running c (fst result) = true
  /\ exists out waiting prompt,
       snd result = mkResponse 200 (RunBody out (newSessionId env) waiting prompt).
Proof.
  intros Hcode Hw Hc Hs Ha result. subst result.
  rewrite (executeNew_success _ _ _ _ _ _ Hcode Hw Hc Hs Ha).
  cbn [fst snd activeSessions set_sessions].
  split; [|split; [|split; [|split]]].
  - rewrite map_get_set_same. f_equal. apply deliver_from_empty.
  - intros k Hk. now apply map_get_set_other.
  - cbn [calls set_sessions log_call set_containers].
    rewrite <- ?app_assoc. reflexivity.
  - apply is_running_started.
  - eauto.
Qed.

(** A run whose stream delivers the frame of "Name? " and then a chunk
    in which the eighth code unit, the one the header pattern takes for
    the size, is the first half of a surrogate pair: the second half is
    stored as U+FFFD. *)
Lemma successful_run_registers_session_witness :
  let env := mkRunEnv "f"%string "s1"%string true (inr 9) None None 4 1000
               [(Untyped, stdoutFrame 6 (lit "Name? "));
                (Untyped, [1; 0; 0; 0; 0; 0; 0; 55357; 56832])] in
  map_get (activeSessions
             (fst (executeNew (fun _ => true) (fun _ => true) env printHi
                     (lit "python") (mkWorld [] [] [] []))))
          "s1"%string
  = Some (mkSession 9 [lit "Name? "; [65533]] [] 1000 4).
Proof.
  intros env.
  destruct (successful_run_registers_session (fun _ => true) (fun _ => true) env 9
              printHi (mkWorld [] [] [] []) ltac:(discriminate)
              eq_refl eq_refl eq_refl eq_refl) as (H & _).
  exact H.
Defined.

Lemma plainText_concat (chunks : list jsstring) :
  (forall chunk, In chunk chunks -> plainText chunk = true) ->
  plainText (concat chunks) = true.
Proof.
  intros H. unfold plainText. apply forallb_forall. intros c Hc.
  apply in_concat in Hc. destruct Hc as (chunk & Hin & Hc).
  exact (proj1 (forallb_forall plainChar chunk) (H chunk Hin) c Hc).
Qed.

Lemma stripFrameHeader_stdoutFrame (size : char16) (payload : jsstring) :
  size <= 65535 -> stripFrameHeader (stdoutFrame size payload) = payload.
Proof.
  intros Hs. unfold stripFrameHeader, replaceAtStart, match_at, frameHeader, Lit1,
    stdoutFrame.
  cbn [app exec N.eqb Pos.eqb]. unfold in_range.
  destruct (N.leb_spec 0 size); [|lia].
  destruct (N.leb_spec size 65535); [reflexivity | lia].
Qed.

(** The stream handlers on a stderr frame: the header pattern does not
    match, the control-character class removes the header up to the size
    byte, and the payload stays. *)
Lemma cleanChunk_stderrFrame (size : char16) (payload : jsstring) :
  is_stripped_control size || plainChar size = true ->
  plainText payload = true ->
  cleanChunk (stderrFrame size payload) = stderrShown size payload
  /\ plainText (stderrShown size payload) = true.
Proof.
  intros Hs Hp.
  assert (Hshown : plainText (stderrShown size payload) = true).
  { unfold stderrShown. destruct (is_stripped_control size); cbn [app orb] in *;
      [exact Hp|]. unfold plainText. cbn [forallb]. rewrite Hs. exact Hp. }
  split; [|exact Hshown].
  pose proof (plainText_forall _ Hshown) as (Hc & _ & Hb).
  unfold cleanChunk, stderrFrame. cbn [app].
  rewrite stripFrameHeader_other_head by discriminate.
  rewrite stripControl_filter.
  change (filter (fun c => negb (is_stripped_control c))
                 (2 :: 0 :: 0 :: 0 :: 0 :: 0 :: 0 :: size :: payload))
    with (filter (fun c => negb (is_stripped_control c)) (size :: payload)).
  assert (Hpay : filter (fun c => negb (is_stripped_control c)) payload = payload).
  { rewrite <- stripControl_filter. apply stripControl_id.
    now apply plainText_forall in Hp. }
  cbn [filter]. rewrite Hpay. unfold stderrShown in *.
  destruct (is_stripped_control size); cbn [negb app] in *;
    now apply stripAttachOptions_id.
Qed.

(** X14: what the program writes to its standard error is recorded and
    returned as output.  The attached stream delivers a stderr frame like
    any other chunk, without a label; the header pattern asks for a first
    byte of 1 and does not match, the control-character class removes the
    header bytes, and the payload is appended to [stdoutChunks] and to the
    output of the response, behind the size byte when that one is not a
    stripped control character.  [stderrChunks] stays empty. *)
Theorem stderr_frame_is_recorded_as_output
        (stop_ok remove_ok : container_id -> bool) (env : run_env)
        (c : container_id) (code : jsstring) (w : world)
        (frames : list (char16 * jsstring)) :
  code <> [] -> write_ok env = true -> create_result env = inr c ->
  start_error env = None -> attach_error env = None ->
  delivered env = map (fun f => (Untyped, stderrFrame (fst f) (snd f))) frames ->
  (forall f, In f frames ->
             is_stripped_control (fst f) || plainChar (fst f) = true
             /\ plainText (snd f) = true) ->
  let text := concat (map (fun f => stderrShown (fst f) (snd f)) frames) in
  let result := executeNew stop_ok remove_ok env code (lit "python") w in
  snd result
  = mkResponse 200
      (RunBody text (newSessionId env) (isWaitingForInput text)
               (if isWaitingForInput text then extractInputPrompt text else []))
  /\ map_get (activeSessions (fst result)) (newSessionId env)
     = Some (mkSession c
               (map (fun f => bufferText (stderrShown (fst f) (snd f))) frames)
               [] (now env) (sessionTimeout env)).
Proof.
  intros Hcode Hw Hc Hs Ha Hd Hframes text result. subst result.
  rewrite (executeNew_success _ _ _ _ _ _ Hcode Hw Hc Hs Ha).
  cbn [fst snd activeSessions set_sessions].
  assert (Hkeep : filter (fun e : stream_type * jsstring => negb (is_stderr (fst e)))
                         (delivered env) = delivered env).
  { rewrite Hd. clear. induction frames as [|f frames IH]; [reflexivity|].
    cbn [map filter fst is_stderr negb]. now rewrite IH. }
  assert (Hnone : filter (fun e : stream_type * jsstring => is_stderr (fst e))
                         (delivered env) = []).
  { rewrite Hd. clear. induction frames as [|f frames IH]; [reflexivity|].
    cbn [map filter fst is_stderr]. exact IH. }
  assert (Hclean : map (fun e : stream_type * jsstring => cleanChunk (snd e))
                       (delivered env)
                   = map (fun f => stderrShown (fst f) (snd f)) frames).
  { rewrite Hd, map_map. apply map_ext_in. intros f Hf. cbn [snd].
    destruct (Hframes f Hf) as [H1 H2].
    exact (proj1 (cleanChunk_stderrFrame _ _ H1 H2)). }
  split.
  - rewrite deliver_output, Hkeep, Hclean. cbn [app]. fold text.
    assert (Hp : plainText text = true).
    { apply plainText_concat. intros chunk Hin. apply in_map_iff in Hin.
      destruct Hin as (f & <- & Hf). destruct (Hframes f Hf) as [H1 H2].
      exact (proj2 (cleanChunk_stderrFrame _ _ H1 H2)). }
    now rewrite (cleanForResponse_plain _ Hp).
  - rewrite map_get_set_same, deliver_from_empty, Hkeep, Hnone. cbn [map].
    do 2 f_equal. rewrite Hd, map_map. apply map_ext_in. intros f Hf. cbn [snd].
    destruct (Hframes f Hf) as [H1 H2].
    now rewrite (proj1 (cleanChunk_stderrFrame _ _ H1 H2)).
Qed.

(** A stderr frame of 35 bytes, the first line of a Python traceback:
    the size byte is the code of the number sign, which stays in front
    of the text, and the heuristic takes the colon at the end of the line
    for a prompt. *)
Lemma stderr_frame_is_recorded_as_output_witness :
  let traceback := lit "Traceback (most recent call last):" ++ [LF] in
  let env := mkRunEnv "f"%string "s1"%string true (inr 9) None None 4 1000
               [(Untyped, stderrFrame 35 traceback)] in
  snd (executeNew (fun _ => true) (fun _ => true) env printHi
         (lit "python") (mkWorld [] [] [] []))
  = mkResponse 200
      (RunBody (lit "#" ++ traceback) "s1"%string true
               (lit "#Traceback (most recent call last):")).
Proof.
  intros traceback env.
  destruct (stderr_frame_is_recorded_as_output (fun _ => true) (fun _ => true) env 9
              printHi (mkWorld [] [] [] []) [(35, traceback)]
              ltac:(discriminate) eq_refl eq_refl eq_refl eq_refl eq_refl)
    as [H _].
  - intros f [<-|[]]. split; reflexivity.
  - exact H.
Defined.

(** X15: when what every chunk of the first second holds behind its
    frame header is plain text, the response of a new run carries exactly
    those texts joined in arrival order: nothing is dropped, reordered or
    rewritten between the stream and the response.  This is the case of
    stdout frames of fewer than 256 bytes with plain payloads, one frame
    to a chunk, and of chunks that are plain text as they come. *)
Theorem plain_output_is_returned_verbatim
        (stop_ok remove_ok : container_id -> bool) (env : run_env)
        (c : container_id) (code : jsstring) (w : world) :
  code <> [] -> write_ok env = true -> create_result env = inr c ->
  start_error env = None -> attach_error env = None ->
  (forall e, In e (delivered env) -> is_stderr (fst e) = false ->
             (exists size payload,
                 size <= 65535 /\ snd e = stdoutFrame size payload
                 /\ plainText payload = true)
             \/ plainText (snd e) = true) ->
  let text := concat (map (fun e => stripFrameHeader (snd e))
                          (filter (fun e => negb (is_stderr (fst e)))
                                  (delivered env))) in
  snd (executeNew stop_ok remove_ok env code (lit "python") w)
  = mkResponse 200
      (RunBody text (newSessionId env) (isWaitingForInput text)
               (if isWaitingForInput text then extractInputPrompt text else [])).
Proof.
  intros Hcode Hw Hc Hs Ha Hplain text.
  assert (Hrest : forall e, In e (delivered env) -> is_stderr (fst e) = false ->
                    plainText (stripFrameHeader (snd e)) = true
                    /\ cleanChunk (snd e) = stripFrameHeader (snd e)).
  { intros e He Hn. destruct (Hplain e He Hn) as [(size & payload & H1 & H2 & H3)|H].
    - rewrite H2, (stripFrameHeader_stdoutFrame _ _ H1). split; [exact H3|].
      unfold cleanChunk. rewrite (stripFrameHeader_stdoutFrame _ _ H1).
      apply plainText_forall in H3. destruct H3 as (H4 & _ & H5).
      now rewrite (stripControl_id _ H4), (stripAttachOptions_id _ H5).
    - pose proof (plainText_forall _ H) as (H4 & _ & _).
      rewrite (stripFrameHeader_plain _ H4). split; [exact H|].
      now apply cleanChunk_plain. }
  rewrite (executeNew_success _ _ _ _ _ _ Hcode Hw Hc Hs Ha). cbn [snd].
  rewrite deliver_output. cbn [app].
  assert (E : map (fun e => cleanChunk (snd e))
                  (filter (fun e => negb (is_stderr (fst e))) (delivered env))
              = map (fun e => stripFrameHeader (snd e))
                    (filter (fun e => negb (is_stderr (fst e))) (delivered env))).
  { apply map_ext_in. intros e He. apply filter_In in He. destruct He as [He Hn].
    apply Hrest; [exact He | now apply negb_true_iff]. }
  rewrite E. fold text.
  assert (Hp : plainText text = true).
  { apply plainText_concat. intros chunk Hin. apply in_map_iff in Hin.
    destruct Hin as (e & <- & He). apply filter_In in He. destruct He as [He Hn].
    apply Hrest; [exact He | now apply negb_true_iff]. }
  now rewrite (cleanForResponse_plain _ Hp).
Qed.

Lemma plain_output_is_returned_verbatim_witness :
  let env := mkRunEnv "f"%string "s1"%string true (inr 9) None None 4 1000
               [(Untyped, stdoutFrame 6 (lit "1 2 3" ++ [LF]));
                (Untyped, stdoutFrame 1 (lit "6"))] in
  snd (executeNew (fun _ => true) (fun _ => true) env printHi
         (lit "python") (mkWorld [] [] [] []))
  = mkResponse 200
      (RunBody (lit "1 2 3" ++ [LF] ++ lit "6") "s1"%string true (lit "6")).
Proof.
  intros env.
  apply (plain_output_is_returned_verbatim (fun _ => true) (fun _ => true) env 9
           printHi (mkWorld [] [] [] []) ltac:(discriminate)
           eq_refl eq_refl eq_refl eq_refl).
  intros e [<-|[<-|[]]] _; left.
  - exists 6, (lit "1 2 3" ++ [LF]). repeat split. discriminate.
  - exists 1, (lit "6"). repeat split. discriminate.
Defined.

(** X16: a new-run request that is rejected before the container is
    created (no code, a language other than python, or a source file that
    cannot be written) changes nothing: no daemon call, no registry entry;
    the answer is an error with status 400, or 500 for the file. *)
Theorem rejected_request_changes_nothing
        (stop_ok remove_ok : container_id -> bool) (env : run_env)
        (code language : jsstring) (w : world) :
  code = [] \/ jseqb language (lit "python") = false \/ write_ok env = false ->
  let result := executeNew stop_ok remove_ok env code language w in
  fst result = w
  /\ exists message,
       json (snd result) = ErrorBody message None
       /\ status (snd result)
          = if (match code with [] => true | _ => false end)
               || negb (jseqb language (lit "python"))
            then 400 else 500.
Proof.
  intros H. unfold executeNew. destruct code as [|a code].
  - cbn. eauto.
  - destruct (jseqb language (lit "python")) eqn:El; cbn [negb orb].
    + destruct H as [H|[H|H]]; [discriminate | discriminate |].
      rewrite H. cbn. eauto.
    + cbn. eauto.
Qed.

Lemma rejected_request_changes_nothing_witness :
  let env := mkRunEnv "f"%string "s1"%string true (inr 9) None None 4 1000 [] in
  fst (executeNew (fun _ => true) (fun _ => true) env printHi (lit "ruby")
         (mkWorld [] [(1, Running)] [] []))
  = mkWorld [] [(1, Running)] [] [].
Proof.
  intros env.
  apply (rejected_request_changes_nothing (fun _ => true) (fun _ => true) env
           printHi (lit "ruby") (mkWorld [] [(1, Running)] [] [])).
  right. now left.
Defined.

(** ** Shutdown, and the uniqueness of registry keys *)

Section CleanupAllFacts.

Variable stop_ok : container_id -> bool.
Variable remove_ok : container_id -> bool.

Lemma cleanup_NoDup (sid : string) (w : world) :
  NoDup (map fst (activeSessions w)) ->
  NoDup (map fst (activeSessions (cleanupSession stop_ok remove_ok sid w))).
Proof. intros H. rewrite cleanup_sessions. now apply map_delete_NoDup. Qed.

Lemma expirySweep_NoDup (clock : Z) (w : world) :
  NoDup (map fst (activeSessions w)) ->
  NoDup (map fst (activeSessions (expirySweep stop_ok remove_ok clock w))).
Proof.
  intros H. unfold expirySweep.
  pose proof (loop_NoDup (expired clock) (activeSessions w) w [] H) as Hl.
  unfold expired in Hl.
  destruct (fold_left _ (activeSessions w) (w, [])) as [w1 queued].
  cbn [fst] in Hl.
  pose proof (settleTeardowns_facts stop_ok remove_ok queued w1) as Hf.
  cbv zeta in Hf. destruct Hf as (Hf & _). now rewrite Hf.
Qed.

End CleanupAllFacts.

Lemma shutdown_loop (w : world) :
  shutdown w
  = fst (fold_left
           (fun st e => if (fun _ : string * session => true) e
                        then cleanupSessionBody (fst e) st else st)
           (activeSessions w) (w, [])).
Proof. reflexivity. Qed.

(** X17: the shutdown handler leaves the containers behind.  It deletes
    every registry entry and clears the timer of every session, and
    [process.exit(0)] then ends the process before any of the stop
    requests it has queued is written: the daemon receives no request and
    every container keeps the state it had, so the container of a session
    that was running is still running after the server has gone. *)
Theorem shutdown_exits_before_teardown (w : world) :
  NoDup (map fst (activeSessions w)) ->
  activeSessions (shutdown w) = []
  /\ calls (shutdown w) = calls w
  /\ containers (shutdown w) = containers w
  /\ (forall c, is_running c (shutdown w) = is_running c w)
  /\ (forall sid s, In (sid, s) (activeSessions w) ->
                    In (timeout s) (clearedTimers (shutdown w))).
Proof.
  intros Hn. rewrite shutdown_loop.
  pose proof (loop_sessions (fun _ => true) (activeSessions w) w []) as Ls.
  pose proof (loop_daemon (fun _ => true) (activeSessions w) w []) as (Lc & Ld & _).
  pose proof (fun sid s => loop_queues (fun _ => true) (activeSessions w) w [] sid s Hn)
    as Lq.
  destruct (fold_left _ (activeSessions w) (w, [])) as [w1 queued].
  cbn [fst snd] in *.
  split; [|split; [exact Lc|split; [exact Ld|split]]].
  - assert (Hall : forall e, ~ In e (activeSessions w1)).
    { intros e H. apply Ls in H. destruct H as [H1 H2].
      now destruct (H2 e H1 eq_refl). }
    destruct (activeSessions w1) as [|e l]; [reflexivity|].
    destruct (Hall e). now left.
  - intros c. unfold is_running. now rewrite Ld.
  - intros sid s Hin. apply (Lq sid s); auto.
    intros [k v] He. now apply map_get_in_nodup.
Qed.

Lemma shutdown_exits_before_teardown_witness :
  let w := mkWorld [("a"%string, mkSession 1 [] [] 0 11);
                    ("b"%string, mkSession 2 [] [] 5 12)]
                   [(1, Running); (2, Running)] [] [] in
  activeSessions (shutdown w) = []
  /\ calls (shutdown w) = []
  /\ is_running 1 (shutdown w) = true
  /\ is_running 2 (shutdown w) = true
  /\ clearedTimers (shutdown w) = [11; 12].
Proof.
  intros w.
  assert (Hn : NoDup (map fst (activeSessions w)))
    by (cbn; repeat constructor; cbn; intuition discriminate).
  destruct (shutdown_exits_before_teardown w Hn) as (H1 & H2 & _ & H4 & _).
  split; [exact H1|]. split; [exact H2|].
  split; [now rewrite H4|]. split; [now rewrite H4 | reflexivity].
Defined.

(** X18: no operation of the server ever puts two entries with the same
    session id into the registry: key uniqueness is kept by
    [cleanupSession], by the expiry sweep, by the shutdown handler and by
    both paths of the request handler, whatever the collaborators
    answer. *)
Theorem registry_keys_stay_unique
        (stop_ok remove_ok : container_id -> bool) (w : world) :
  NoDup (map fst (activeSessions w)) ->
  (forall sid,
      NoDup (map fst (activeSessions (cleanupSession stop_ok remove_ok sid w))))
  /\ (forall clock,
         NoDup (map fst (activeSessions (expirySweep stop_ok remove_ok clock w))))
  /\ NoDup (map fst (activeSessions (shutdown w)))
  /\ (forall env code language,
         NoDup (map fst (activeSessions
                           (fst (executeNew stop_ok remove_ok env code language w)))))
  /\ (forall env sid input,
         NoDup (map fst (activeSessions
                           (turn_world
                              (executeInput stop_ok remove_ok env sid input w))))).
Proof.
  intros H. split; [|split; [|split; [|split]]].
  - intros sid. now apply cleanup_NoDup.
  - intros clock. now apply expirySweep_NoDup.
  - exact (loop_NoDup (fun _ => true) (activeSessions w) w [] H).
  - intros env code language. unfold executeNew, runFailed.
    destruct code as [|a code]; [exact H|].
    destruct (negb (jseqb language (lit "python"))); [exact H|].
    destruct (negb (write_ok env)); [exact H|].
    destruct (create_result env) as [m|c]; cbn [fst];
      [now apply cleanup_NoDup|].
    destruct (start_error env); cbn [fst]; [now apply cleanup_NoDup|].
    destruct (attach_error env); cbn [fst]; [now apply cleanup_NoDup|].
    destruct (deliver (delivered env) _) as [s1 cur]. cbn [fst activeSessions set_sessions].
    now apply map_set_NoDup, map_set_NoDup.
  - intros env sid input. unfold executeInput.
    destruct (map_get (activeSessions w) sid); [|exact H].
    destruct input as [text|]; [|exact H].
    cbv zeta.
    destruct (settled (snd (waitForOutput s (handler_output env) (wait_events env))))
      as [r|]; cbn [turn_world activeSessions set_sessions log_calls];
      [|now apply map_set_NoDup].
    destruct (waitForInputResult r (container_logs env));
      cbn [turn_world]; [|apply cleanup_NoDup];
      destruct r; cbn [activeSessions set_sessions log_calls log_call];
      now apply map_set_NoDup.
Qed.

Lemma registry_keys_stay_unique_witness :
  let w := mkWorld [("a"%string, mkSession 1 [] [] 0 11)] [(1, Running)] [] [] in
  NoDup (map fst (activeSessions
                    (fst (executeNew (fun _ => true) (fun _ => true)
                            (mkRunEnv "f"%string "a"%string true (inr 2) None None 12 7 [])
                            printHi (lit "python") w)))).
Proof.
  intros w.
  assert (Hn : NoDup (map fst (activeSessions w)))
    by (cbn; repeat constructor; cbn; intuition discriminate).
  destruct (registry_keys_stay_unique (fun _ => true) (fun _ => true) w Hn)
    as (_ & _ & _ & H & _).
  apply H.
Defined.

(** ** The input path *)

(** X19: a session that has been cleaned up is never served again: after
    [cleanupSession] (called by the five-minute timer, the sweep, the
    shutdown handler or a failed turn) an input request for the same id is
    answered 404 "Session not found or expired", nothing is written to any
    container and the state is left as it is. *)
Theorem cleaned_up_session_is_not_found
        (stop_ok remove_ok : container_id -> bool) (env : input_env)
        (sid : string) (input : option jsstring) (w : world) :
  let w' := cleanupSession stop_ok remove_ok sid w in
  executeInput stop_ok remove_ok env sid input w'
  = mkInputTurn w' None (Some (mkInputResponse 404 (InputError msgSessionNotFound))).
Proof.
  cbv zeta. unfold executeInput.
  now rewrite cleanup_sessions, map_get_delete_same.
Qed.

(** X20: when the wait of an input turn is rejected and the logs of the
    container cannot be fetched, the turn ends the session: the input was
    written with a line feed appended, the response carries the error
    behind the prefix "Error processing input: " with [waitingForInput]
    false, the registry has no entry for the id any more and a stop
    request was sent for the container of the session. *)
Theorem failed_turn_tears_session_down
        (stop_ok remove_ok : container_id -> bool) (env : input_env)
        (sid : string) (text message : jsstring) (s : session) (w : world) :
  map_get (activeSessions w) sid = Some s ->
  settled (snd (waitForOutput s (handler_output env) (wait_events env)))
  = Some (Rejected message) ->
  container_logs env = None ->
  let turn := executeInput stop_ok remove_ok env sid (Some text) w in
  turn_written turn = Some (text ++ [LF])
  /\ turn_reply turn
     = Some (mkInputResponse 200 (InputFailed (msgInputErrorPrefix ++ message) false))
  /\ map_get (activeSessions (turn_world turn)) sid = None
  /\ In (CallStop (container s)) (calls (turn_world turn)).
Proof.
  intros Hs Hr Hl. cbv zeta. unfold executeInput. rewrite Hs. cbv zeta.
  rewrite Hr. cbn [waitForInputResult]. rewrite Hl.
  cbn [turn_written turn_reply turn_world].
  split; [reflexivity|]. split; [reflexivity|]. split.
  - rewrite cleanup_sessions. apply map_get_delete_same.
  - set (s' := fst (fst (waitForOutput s (handler_output env) (wait_events env)))).
    assert (Hc : container s' = container s)
      by (destruct (waitForOutput_extends s (handler_output env) (wait_events env))
            as (_ & _ & Hc & _); exact Hc).
    rewrite (cleanup_present _ _ _ s').
    + cbn [calls set_sessions]. rewrite teardown_calls.
      apply in_or_app. right. rewrite Hc. now left.
    + cbn [activeSessions set_sessions]. apply map_get_set_same.
Qed.

Lemma failed_turn_tears_session_down_witness :
  let s := mkSession 5 [] [] 0 1 in
  let w := mkWorld [("a"%string, s)] [(5, Running)] [] [] in
  let env := mkInputEnv [EvError (lit "socket hang up")] None [] in
  map_get (activeSessions
             (turn_world (executeInput (fun _ => true) (fun _ => true) env
                            "a"%string (Some (lit "Bob")) w)))
          "a"%string = None.
Proof.
  intros s w env.
  destruct (failed_turn_tears_session_down (fun _ => true) (fun _ => true) env
              "a"%string (lit "Bob") (lit "socket hang up") s w
              eq_refl eq_refl eq_refl) as (_ & _ & H & _).
  exact H.
Defined.

(** X21: when an input turn gets an output, the session stays registered
    under its id with its earlier chunks in place and new ones appended.
    The turn sends no stop and no removal: the requests it adds are
    inspections of the session's container, asked for by the timers of
    the wait, and, exactly when the wait was rejected, the logs call
    that supplied the output; the containers are as they were.  The
    response carries the id, an output free of the stripped control
    characters, and an empty prompt unless [waitingForInput] is set. *)
Theorem successful_turn_keeps_session
        (stop_ok remove_ok : container_id -> bool) (env : input_env)
        (sid : string) (text out : jsstring) (r : outcome) (s : session) (w : world) :
  map_get (activeSessions w) sid = Some s ->
  settled (snd (waitForOutput s (handler_output env) (wait_events env))) = Some r ->
  waitForInputResult r (container_logs env) = Resolved out ->
  let turn := executeInput stop_ok remove_ok env sid (Some text) w in
  (exists s', map_get (activeSessions (turn_world turn)) sid = Some s'
              /\ (exists more, stdoutChunks s' = stdoutChunks s ++ more)
              /\ container s' = container s /\ createdAt s' = createdAt s)
  /\ (exists sent,
         calls (turn_world turn) = calls w ++ sent
         /\ (forall d, In d sent ->
                       d = CallInspect (container s) \/ d = CallLogs (container s))
         /\ (In (CallLogs (container s)) sent <-> exists message, r = Rejected message)
         /\ count_occ docker_call_eq_dec sent (CallInspect (container s))
            = inspections (snd (waitForOutput s (handler_output env) (wait_events env))))
  /\ containers (turn_world turn) = containers w
  /\ turn_written turn = Some (text ++ [LF])
  /\ exists shown waiting prompt,
       turn_reply turn
       = Some (mkInputResponse 200 (InputResult shown waiting prompt sid))
       /\ noStrippedControl shown = true
       /\ (waiting = false -> prompt = []).
Proof.
  intros Hs Hr Ho. cbv zeta. unfold executeInput. rewrite Hs. cbv zeta.
  rewrite Hr, Ho. cbn [turn_written turn_reply turn_world].
  set (n := inspections (snd (waitForOutput s (handler_output env) (wait_events env)))).
  split; [|split; [|split; [|split; [reflexivity|]]]].
  - exists (fst (fst (waitForOutput s (handler_output env) (wait_events env)))).
    split.
    + destruct r; cbn [activeSessions set_sessions log_calls log_call];
        apply map_get_set_same.
    + destruct (waitForOutput_extends s (handler_output env) (wait_events env))
        as (H1 & _ & H3 & H4 & _). auto.
  - exists (repeat (CallInspect (container s)) n
            ++ match r with
               | Resolved _ => []
               | Rejected _ => [CallLogs (container s)]
               end).
    split; [|split; [|split]].
    + destruct r; cbn [calls set_sessions log_calls log_call].
      * now rewrite app_nil_r.
      * now rewrite <- app_assoc.
    + intros d Hd. apply in_app_or in Hd. destruct Hd as [Hd|Hd].
      * left. now apply repeat_spec in Hd.
      * destruct r; [destruct Hd|]. destruct Hd as [<-|[]]. now right.
    + split.
      * intros Hd. apply in_app_or in Hd. destruct Hd as [Hd|Hd].
        -- apply repeat_spec in Hd. discriminate.
        -- destruct r; [destruct Hd | eauto].
      * intros [message ->]. apply in_or_app. right. now left.
    + rewrite count_occ_app, count_occ_repeat_eq by reflexivity.
      destruct r; cbn [count_occ]; [lia|].
      destruct (docker_call_eq_dec (CallLogs (container s)) (CallInspect (container s)));
        [discriminate | lia].
  - destruct r; reflexivity.
  - do 3 eexists. split; [reflexivity|]. split.
    + destruct out; [reflexivity | apply cleanForResponse_noStrippedControl].
    + intros ->. reflexivity.
Qed.

(** A turn whose wait sees no data: the five-second check finds the
    container running, the absolute timer finds it exited with code 1 and
    rejects, and the logs of the container supply the output. *)
Lemma successful_turn_keeps_session_witness :
  let s := mkSession 5 [] [] 0 1 in
  let w := mkWorld [("a"%string, s)] [(5, Exited)] [] [] in
  let env := mkInputEnv [EvInitialCheck (Inspected true 0); EvTimeout (Inspected false 1)]
                        (Some (lit "Traceback")) [] in
  let turn := executeInput (fun _ => true) (fun _ => true) env
                "a"%string (Some (lit "Bob")) w in
  containers (turn_world turn) = [(5, Exited)]
  /\ exists sent, calls (turn_world turn) = sent
                  /\ In (CallLogs 5) sent
                  /\ count_occ docker_call_eq_dec sent (CallInspect 5) = 2%nat.
Proof.
  intros s w env turn.
  destruct (successful_turn_keeps_session (fun _ => true) (fun _ => true) env
              "a"%string (lit "Bob") (lit "Traceback")
              (Rejected (lit "Program exited with code 1")) s w
              eq_refl eq_refl eq_refl) as (_ & (sent & H1 & _ & H3 & H4) & H5 & _).
  split; [exact H5|]. exists sent.
  split; [exact H1|]. split; [apply H3; eauto | exact H4].
Defined.

(** X22: [waitForInputResult] turns a rejected wait into a result whenever
    the logs of the container can be fetched, so it fails exactly when the
    wait was rejected and the logs call failed too, and then with the
    error of the wait; an output taken from the logs is free of the
    stripped control characters, and so is every non-empty output it
    passes on. *)
Theorem waitForInputResult_outcomes (r : outcome) (logs : option jsstring) :
  (forall message,
      waitForInputResult r logs = Rejected message
      <-> r = Rejected message /\ logs = None)
  /\ (forall out,
         waitForInputResult r logs = Resolved out ->
         noStrippedControl out = true).
Proof.
  split.
  - intros message. destruct r as [o|m], logs as [text|]; cbn [waitForInputResult];
      split; try discriminate; try (intros [H1 H2]; discriminate).
    + intros H. injection H as ->. now split.
    + intros [H _]. exact H.
  - intros out. destruct r as [o|m]; cbn [waitForInputResult].
    + intros H. injection H as <-.
      destruct o; [reflexivity | apply cleanDockerOutput_noStrippedControl].
    + destruct logs as [text|]; [|discriminate].
      intros H. injection H as <-. apply cleanDockerOutput_noStrippedControl.
Qed.

Lemma waitForInputResult_outcomes_witness :
  noStrippedControl (cleanDockerOutput ([7] ++ lit "Traceback")) = true.
Proof.
  destruct (waitForInputResult_outcomes
              (Rejected (lit "Program exited with code 1"))
              (Some ([7] ++ lit "Traceback"))) as [_ H].
  exact (H (cleanDockerOutput ([7] ++ lit "Traceback")) eq_refl).
Defined.

(** ** The client *)

Lemma split_nl_app_LF (a : jsstring) :
  split_nl (a ++ [LF]) = split_nl a ++ [[]].
Proof.
  induction a as [|c t IH]; [reflexivity|].
  cbn [app split_nl]. rewrite IH. destruct (c =? LF); [reflexivity|].
  destruct (split_nl t) as [|l ls] eqn:E; [now destruct (split_nl_nonempty t)|].
  reflexivity.
Qed.

Lemma includes_empty (search : jsstring) :
  includes [] search = match search with [] => true | _ => false end.
Proof. destruct search; reflexivity. Qed.

(** X23: the check of [handleInput] against repeated prompts never drops
    anything: the text it compares with ends with the line feed appended
    after the echoed input, so its last line is empty, and the new output
    of the server is appended to the terminal unchanged. *)
Theorem input_turn_output_is_appended_whole (output input new : jsstring) :
  newOutputWithoutDuplicates (output ++ input ++ [LF]) new = new
  /\ outputAfterInput output input new
     = output ++ input ++ [LF] ++ editorCleanOutput new.
Proof.
  assert (H : forall n, newOutputWithoutDuplicates (output ++ input ++ [LF]) n = n).
  { intros n. unfold newOutputWithoutDuplicates.
    rewrite app_assoc, split_nl_app_LF, last_last, includes_empty.
    destruct (hd [] (split_nl n)); reflexivity. }
  split; [apply H|].
  unfold outputAfterInput. rewrite H.
  destruct new; [|now rewrite <- !app_assoc].
  change (editorCleanOutput []) with (@nil char16).
  now rewrite <- !app_assoc.
Qed.

Lemma replaceAll_from_incl_rep (r : regex) (rep s : jsstring) :
  forall (skip : nat) (c : char16),
    In c (replaceAll_from r rep skip s) -> In c s \/ In c rep.
Proof.
  induction s as [|a t IH]; intros skip c.
  - cbn [replaceAll_from]. destruct skip; [destruct (match_at r [])|]; cbn; tauto.
  - cbn [replaceAll_from]. destruct skip as [|n].
    + destruct (match_at r (a :: t)) as [rest|].
      * destruct (length (a :: t) - length rest)%nat; intros H;
          apply in_app_or in H; destruct H as [H|H]; try tauto.
        -- destruct H as [H|H]; [left; now left|].
           destruct (IH _ _ H); [left; now right | tauto].
        -- destruct (IH _ _ H); [left; now right | tauto].
      * intros [H|H]; [left; now left|].
        destruct (IH _ _ H); [left; now right | tauto].
    + intros H. destruct (IH _ _ H); [left; now right | tauto].
Qed.

Lemma trimStart_head (s : jsstring) (c : char16) (t : jsstring) :
  trimStart s = c :: t -> is_space c = false.
Proof.
  induction s as [|a s IH]; [discriminate|]. cbn [trimStart].
  destruct (is_space a) eqn:E; [exact IH|]. intros H. injection H as <- _. exact E.
Qed.

Lemma trimStart_last (s : jsstring) (d : char16) :
  trimStart s <> [] -> last (trimStart s) d = last s d.
Proof.
  induction s as [|a s IH]; [reflexivity|]. cbn [trimStart].
  destruct (is_space a); [|reflexivity].
  intros H. rewrite (IH H). destruct s; [now destruct H|reflexivity].
Qed.

Lemma last_rev_hd (s : jsstring) (d : char16) : last (rev s) d = hd d s.
Proof.
  destruct s as [|a s]; [reflexivity|]. cbn [rev hd]. apply last_last.
Qed.

Lemma hd_rev_last (s : jsstring) (d : char16) : hd d (rev s) = last s d.
Proof. rewrite <- (rev_involutive s) at 2. now rewrite last_rev_hd. Qed.

Lemma trim_ends (s : jsstring) :
  trim s <> [] ->
  is_space (hd 0 (trim s)) = false /\ is_space (last (trim s) 0) = false.
Proof.
  unfold trim, trimEnd. intros H.
  set (t := trimStart s) in *. set (u := trimStart (rev t)) in *.
  assert (Hu : u <> []) by (intros E; apply H; now rewrite E).
  assert (Ht : t <> []).
  { intros E. apply Hu. subst u. now rewrite E. }
  split.
  - rewrite hd_rev_last. subst u. rewrite trimStart_last by exact Hu.
    rewrite last_rev_hd. destruct t as [|c t'] eqn:Et; [congruence|].
    exact (trimStart_head s c t' Et).
  - rewrite last_rev_hd. destruct u as [|c u'] eqn:Eu; [congruence|].
    exact (trimStart_head (rev t) c u' Eu).
Qed.

(** X24: the text the terminal component displays holds no code unit of
    the stripped control class and, unless it is empty, neither starts nor
    ends with white space. *)
Theorem terminal_output_is_trimmed_and_clean (output : jsstring) :
  (forall c, In c (terminalCleanOutput output) -> is_stripped_control c = false)
  /\ (terminalCleanOutput output <> [] ->
      is_space (hd 0 (terminalCleanOutput output)) = false
      /\ is_space (last (terminalCleanOutput output) 0) = false).
Proof.
  split; [|apply trim_ends].
  intros c H. unfold terminalCleanOutput, stripFlagObjects, stripAttachOptions in H.
  apply trim_incl, replaceAll_incl, replaceAll_incl in H.
  apply replaceAll_from_incl_rep in H. destruct H as [H|[<-|[]]]; [|reflexivity].
  rewrite stripControl_filter in H. apply filter_In in H.
  now apply negb_true_iff.
Qed.

Lemma terminal_output_is_trimmed_and_clean_witness :
  is_space (hd 0 (terminalCleanOutput ([LF; 7] ++ lit " 3 apples " ++ [LF]))) = false
  /\ is_space (last (terminalCleanOutput ([LF; 7] ++ lit " 3 apples " ++ [LF])) 0) = false.
Proof.
  apply (terminal_output_is_trimmed_and_clean ([LF; 7] ++ lit " 3 apples " ++ [LF])).
  vm_compute. discriminate.
Defined.

(** ** [waitForOutput]: a chunk followed by silence *)

(** X25: on a fresh wait, one chunk followed by the quiet timer.  When the
    chunk cleans to a non-empty text, the wait is resolved with exactly
    that text, at once if the heuristic fires and by the quiet timer
    otherwise.  When the chunk cleans to nothing, the quiet timer (fired
    within two seconds) leaves the wait pending, and the five-second check
    no longer applies because data was received: only the absolute
    timeout or an error can end such a wait. *)
Theorem chunk_then_silence
        (s : session) (currentOutput : jsstring)
        (type : stream_type) (chunk : jsstring) (d : Z) :
  let out := cleanDockerOutput (cleanChunk chunk) in
  (out <> [] ->
   settled (snd (waitForOutput s currentOutput [EvData type chunk; EvQuiet d]))
   = Some (Resolved out))
  /\ (out = [] -> (d <= 2000)%Z ->
      forall info,
        settled (snd (waitForOutput s currentOutput
                        [EvData type chunk; EvQuiet d; EvInitialCheck info]))
        = None).
Proof.
  cbv zeta. unfold waitForOutput. cbn [fold_left wait_step]. unfold emitData.
  destruct (sessionDataHandler type chunk (s, currentOutput)) as [s1 cur1].
  unfold dataHandler. cbv zeta. cbn [listening newWaiter negb output app].
  match goal with
  | |- context [isWaitingForInput ?X] =>
      assert (E : X = cleanDockerOutput (cleanChunk chunk))
        by (destruct (cleanChunk chunk); reflexivity);
      rewrite !E; clear E
  end.
  split.
  - intros Hne. destruct (isWaitingForInput (cleanDockerOutput (cleanChunk chunk))).
    + reflexivity.
    + cbn [fst snd]. unfold quietElapsed. cbn [quietTimer negb output].
      destruct (cleanDockerOutput (cleanChunk chunk)); [congruence | reflexivity].
  - intros He Hd info. rewrite He.
    change (isWaitingForInput []) with false. cbn [fst snd].
    unfold quietElapsed. cbn [quietTimer negb output].
    replace (d >? 2000)%Z with false by (symmetry; rewrite Z.gtb_ltb; apply Z.ltb_ge; lia).
    reflexivity.
Qed.

Lemma chunk_then_silence_witness :
  settled (snd (waitForOutput (mkSession 1 [] [] 0 0) []
                  [EvData Stdout (lit "Result: 42." ++ [LF; LF]); EvQuiet 500]))
  = Some (Resolved (lit "Result: 42." ++ [LF; LF])).
Proof.
  apply (proj1 (chunk_then_silence (mkSession 1 [] [] 0 0) [] Stdout
                  (lit "Result: 42." ++ [LF; LF]) 500)).
  vm_compute. discriminate.
Defined.

(** ** Carriage returns and the heuristic *)

Lemma filter_idem {A : Type} (f : A -> bool) (l : list A) :
  filter f (filter f l) = filter f l.
Proof.
  induction l as [|a l IH]; [reflexivity|]. cbn [filter].
  destruct (f a) eqn:E; [|exact IH]. cbn [filter]. now rewrite E, IH.
Qed.

Lemma removeCR_withoutCR (x : jsstring) :
  replaceAll (Lit1 CR) [] x = withoutCR x.
Proof.
  unfold Lit1, withoutCR. rewrite replaceAll_Chr_filter.
  apply filter_ext. intros c. now rewrite N.eqb_sym.
Qed.

(** X26: carriage returns never influence the heuristic: an output and the
    same output without its carriage returns get the same
    [isWaitingForInput] and the same [extractInputPrompt], so CRLF line
    ends are classified like LF line ends. *)
Theorem heuristic_ignores_carriage_returns (x : jsstring) :
  isWaitingForInput (withoutCR x) = isWaitingForInput x
  /\ extractInputPrompt (withoutCR x) = extractInputPrompt x.
Proof.
  assert (Hd : cleanForDetection (withoutCR x) = cleanForDetection x).
  { unfold cleanForDetection. rewrite !removeCR_withoutCR.
    unfold withoutCR. now rewrite filter_idem. }
  assert (Hp : cleanForPrompt (withoutCR x) = cleanForPrompt x).
  { unfold cleanForPrompt. rewrite !removeCR_withoutCR.
    unfold withoutCR. now rewrite filter_idem. }
  split.
  - now rewrite !isWaitingForInput_eq, Hd.
  - assert (He : forall z, extractInputPrompt z
                 = promptOfLine (lastNonEmptyLine (split_nl (cleanForPrompt z))))
      by (intros [|? ?]; reflexivity).
    now rewrite !He, Hp.
Qed.

(** ** [cleanupSession] and the other sessions *)

Lemma set_cstate_other (c c' : container_id) (st : cstate)
      (cs : list (container_id * cstate)) :
  c' <> c ->
  existsb (fun e => (fst e =? c')
                    && match snd e with Running => true | _ => false end)
          (set_cstate c st cs)
  = existsb (fun e => (fst e =? c')
                      && match snd e with Running => true | _ => false end) cs.
Proof.
  intros Hc. induction cs as [|[c0 st0] cs IH]; [reflexivity|].
  cbn [set_cstate map existsb fst snd]. fold (set_cstate c st cs). rewrite IH.
  f_equal. destruct (N.eqb_spec c0 c) as [->|H0]; cbn [fst snd]; [|reflexivity].
  destruct (N.eqb_spec c c'); [congruence | reflexivity].
Qed.

Lemma drop_container_other (c c' : container_id)
      (cs : list (container_id * cstate)) :
  c' <> c ->
  existsb (fun e => (fst e =? c')
                    && match snd e with Running => true | _ => false end)
          (drop_container c cs)
  = existsb (fun e => (fst e =? c')
                      && match snd e with Running => true | _ => false end) cs.
Proof.
  intros Hc. induction cs as [|[c0 st0] cs IH]; [reflexivity|].
  cbn [drop_container filter existsb fst snd]. fold (drop_container c cs).
  destruct (N.eqb_spec c0 c) as [->|H0]; cbn [negb existsb fst snd].
  - rewrite IH. destruct (N.eqb_spec c c'); [congruence | reflexivity].
  - now rewrite IH.
Qed.

Lemma teardown_other (stop_ok remove_ok : container_id -> bool)
      (c c' : container_id) (w : world) :
  c' <> c ->
  is_running c' (teardownContainer stop_ok remove_ok c w) = is_running c' w.
Proof.
  intros Hc. unfold is_running, teardownContainer, teardownRest, docker_stop, docker_remove.
  destruct (stop_ok c), (remove_ok c); cbn [containers set_containers log_call snd];
    rewrite ?drop_container_other, ?set_cstate_other by exact Hc; reflexivity.
Qed.

(** X27: cleaning one session up leaves every other session alone: the
    other registry entries are found as before, no stop request is sent
    for any other container, and whether another container is running
    does not change. *)
Theorem cleanup_leaves_other_sessions_alone
        (stop_ok remove_ok : container_id -> bool)
        (sid : string) (s : session) (w : world) :
  map_get (activeSessions w) sid = Some s ->
  let w' := cleanupSession stop_ok remove_ok sid w in
  (forall k, k <> sid ->
     map_get (activeSessions w') k = map_get (activeSessions w) k)
  /\ (forall c', c' <> container s ->
        is_running c' w' = is_running c' w
        /\ count_calls (is_stop_of c') w' = count_calls (is_stop_of c') w).
Proof.
  intros Hs w'. subst w'. split.
  - intros k Hk. rewrite cleanup_sessions. now apply map_get_delete_other.
  - intros c' Hc. rewrite (cleanup_present _ _ _ _ _ Hs). split.
    + change (is_running c' (teardownContainer stop_ok remove_ok (container s)
                               (clearTimeout (timeout s) w)) = is_running c' w).
      now rewrite teardown_other.
    + unfold count_calls. cbn [calls set_sessions]. rewrite teardown_calls.
      cbn [calls clearTimeout]. rewrite filter_app, length_app.
      assert (E : (container s =? c') = false) by (apply N.eqb_neq; congruence).
      destruct (stop_ok (container s) && negb (remove_ok (container s)));
        cbn [filter is_stop_of]; rewrite E; cbn [length]; lia.
Qed.

Lemma cleanup_leaves_other_sessions_alone_witness :
  let a := mkSession 1 [] [] 0 11 in
  let b := mkSession 2 [] [] 5 12 in
  let w := mkWorld [("a"%string, a); ("b"%string, b)]
                   [(1, Running); (2, Running)] [] [] in
  map_get (activeSessions (cleanupSession (fun _ => true) (fun _ => true) "a"%string w))
          "b"%string = Some b
  /\ is_running 2 (cleanupSession (fun _ => true) (fun _ => true) "a"%string w) = true.
Proof.
  intros a b w.
  destruct (cleanup_leaves_other_sessions_alone (fun _ => true) (fun _ => true)
              "a"%string a w eq_refl) as [H1 H2].
  split.
  - rewrite H1; [reflexivity | discriminate].
  - destruct (H2 2 ltac:(discriminate)) as [H _]. rewrite H. reflexivity.
Defined.
